(** * Transcript editor: time codec, snap resolver, project store and timeline drag

    A shallow embedding of the TypeScript sources

      - [src/lib/utils.ts]            ([formatTime], [parseTime]),
      - [src/lib/timeline-utils.ts]   ([snapToGrid], [snapToEdge], [snapTime], ...),
      - [src/stores/project-store.ts] (the zustand store and its history),
      - [src/stores/player-store.ts]  ([setZoomLevel]),
      - [src/lib/export.ts]           (the subtitle timestamps, the CSV rows),
      - the Timeline component       (the segment drag, seeking, splitting),

    together with the part of the ECMAScript library these functions call.

    Number model.  A JavaScript number is [NaN], one of the two infinities, or
    a finite value.  Finite values are exact rationals, which arithmetic
    returns in lowest terms: the rounding of IEEE-754 binary64 arithmetic,
    overflow to an infinity and the sign of zero are not represented.
    Properties of computed numbers are therefore stated where binary64
    computes the same: on order comparisons, on integers up to 2^53, on
    multiples of 0.5 and on short digit fields, with the range as a
    hypothesis.
    Strings are sequences of code units below 256.
    [generateId], which reads the clock and a random source, is replaced by
    an argument holding the id it returned. *)

From Stdlib Require Import QArith Qabs Qround ZArith NArith String Ascii List Bool.
From Stdlib Require Import Lia Lqa Permutation Sorted.
Import ListNotations.

(* ================================================================== *)
(** * The ECMAScript values and library functions the sources use      *)
(* ================================================================== *)

Module JS.

(** ** Numbers *)

Inductive num : Type :=
| NaN
| PInf
| NInf
| Fin (q : Q).

Definition of_Z (z : Z) : num := Fin (inject_Z z).
Definition of_N (n : N) : num := of_Z (Z.of_N n).

Definition isNaN (x : num) : bool :=
  match x with NaN => true | _ => false end.

Definition isFinite (x : num) : bool :=
  match x with Fin _ => true | _ => false end.

(** Sign of a number as an integer in {-1, 0, 1}; [NaN] has sign 0. *)
Definition sgn (x : num) : Z :=
  match x with
  | NaN => 0
  | PInf => 1
  | NInf => -1
  | Fin q => Z.sgn (Qnum q)
  end.

Definition inf_of_sign (s : Z) : num :=
  match s with
  | Z0 => NaN
  | Zpos _ => PInf
  | Zneg _ => NInf
  end.

Definition Qis_zero (q : Q) : bool := Qeq_bool q 0.

(** [x + y] *)
Definition add (x y : num) : num :=
  match x, y with
  | NaN, _ | _, NaN => NaN
  | PInf, NInf | NInf, PInf => NaN
  | PInf, _ | _, PInf => PInf
  | NInf, _ | _, NInf => NInf
  | Fin a, Fin b => Fin (Qred (a + b))
  end.

(** [x - y] *)
Definition sub (x y : num) : num :=
  match x, y with
  | NaN, _ | _, NaN => NaN
  | PInf, PInf | NInf, NInf => NaN
  | PInf, _ | _, NInf => PInf
  | NInf, _ | _, PInf => NInf
  | Fin a, Fin b => Fin (Qred (a - b))
  end.

(** [x * y] *)
Definition mul (x y : num) : num :=
  match x, y with
  | NaN, _ | _, NaN => NaN
  | Fin a, Fin b => Fin (Qred (a * b))
  | _, _ => inf_of_sign (sgn x * sgn y)
  end.

(** [x / y]; a zero divisor is taken to be [+0]. *)
Definition div (x y : num) : num :=
  match x, y with
  | NaN, _ | _, NaN => NaN
  | Fin a, Fin b =>
      if Qis_zero b then inf_of_sign (sgn x) else Fin (Qred (a / b))
  | Fin _, _ => Fin 0
  | _, Fin b => if Qis_zero b then x else inf_of_sign (sgn x * sgn y)
  | _, _ => NaN
  end.

(** Truncation toward zero. *)
Definition Qtrunc (q : Q) : Z :=
  if Qle_bool 0 q then Qfloor q else Qceiling q.

(** [x % y]: the remainder has the sign of the dividend. *)
Definition rem (x y : num) : num :=
  match x, y with
  | Fin a, Fin b =>
      if Qis_zero b then NaN
      else Fin (Qred (a - b * inject_Z (Qtrunc (a / b))))
  | Fin a, (PInf | NInf) => Fin a
  | _, _ => NaN
  end.

(** [x < y] *)
Definition ltb (x y : num) : bool :=
  match x, y with
  | NaN, _ | _, NaN => false
  | _, NInf => false
  | NInf, _ => true
  | PInf, _ => false
  | _, PInf => true
  | Fin a, Fin b => negb (Qle_bool b a)
  end.

(** [x <= y] *)
Definition leb (x y : num) : bool :=
  match x, y with
  | NaN, _ | _, NaN => false
  | NInf, _ => true
  | _, PInf => true
  | _, NInf => false
  | PInf, _ => false
  | Fin a, Fin b => Qle_bool a b
  end.

(** [x === y] on numbers *)
Definition eqb (x y : num) : bool :=
  match x, y with
  | PInf, PInf | NInf, NInf => true
  | Fin a, Fin b => Qeq_bool a b
  | _, _ => false
  end.

(** [x !== y] on numbers *)
Definition neb (x y : num) : bool := negb (eqb x y).

Definition gtb (x y : num) : bool := ltb y x.

Definition Math_abs (x : num) : num :=
  match x with
  | NaN => NaN
  | PInf | NInf => PInf
  | Fin q => Fin (Qred (Qabs q))
  end.

Definition Math_max (x y : num) : num :=
  match x, y with
  | NaN, _ | _, NaN => NaN
  | _, _ => if ltb x y then y else x
  end.

Definition Math_min (x y : num) : num :=
  match x, y with
  | NaN, _ | _, NaN => NaN
  | _, _ => if ltb y x then y else x
  end.

Definition Math_floor (x : num) : num :=
  match x with
  | Fin q => of_Z (Qfloor q)
  | _ => x
  end.

(** [Math.round]: nearest integer, ties toward positive infinity. *)
Definition Math_round (x : num) : num :=
  match x with
  | Fin q => of_Z (Qfloor (q + (1 # 2)))
  | _ => x
  end.

(** ** Strings *)

Local Open Scope string_scope.

Definition is_digit (c : ascii) : bool :=
  let n := N_of_ascii c in ((48 <=? n) && (n <=? 57))%N.

(** WhiteSpace and LineTerminator code units below 256:
    TAB, LF, VT, FF, CR, SP and NBSP. *)
Definition is_space (c : ascii) : bool :=
  let n := N_of_ascii c in
  (((9 <=? n) && (n <=? 13)) || (n =? 32) || (n =? 160))%N.

Fixpoint span (p : ascii -> bool) (s : string) : string * string :=
  match s with
  | EmptyString => ("", "")
  | String c s' =>
      if p c then let (a, b) := span p s' in (String c a, b)
      else ("", s)
  end.

Definition trimStart (s : string) : string := snd (span is_space s).

Fixpoint rev_string (acc s : string) : string :=
  match s with
  | EmptyString => acc
  | String c s' => rev_string (String c acc) s'
  end.

Definition trimEnd (s : string) : string :=
  rev_string "" (trimStart (rev_string "" s)).

Definition trim (s : string) : string := trimEnd (trimStart s).

Fixpoint repeat_char (c : ascii) (n : nat) : string :=
  match n with
  | O => ""
  | S n' => String c (repeat_char c n')
  end.

(** [s.padStart(n, c)] for a one-character filler [c]. *)
Definition padStart (s : string) (n : nat) (c : ascii) : string :=
  repeat_char c (n - String.length s) ++ s.

(** [s.split(sep)] for a one-character separator; the result is never
    empty. *)
Fixpoint split_go (sep : ascii) (cur : string) (s : string) : list string :=
  match s with
  | EmptyString => [rev_string "" cur]
  | String c s' =>
      if Ascii.eqb c sep then rev_string "" cur :: split_go sep "" s'
      else split_go sep (String c cur) s'
  end.

Definition split (sep : ascii) (s : string) : list string :=
  split_go sep "" s.

Fixpoint startsWith (p s : string) : bool :=
  match p, s with
  | EmptyString, _ => true
  | String a p', String b s' => Ascii.eqb a b && startsWith p' s'
  | _, _ => false
  end.

Fixpoint drop (n : nat) (s : string) : string :=
  match n, s with
  | O, _ => s
  | S n', String _ s' => drop n' s'
  | S _, EmptyString => ""
  end.

Definition is_empty (s : string) : bool :=
  match s with EmptyString => true | _ => false end.

(** ** Number to string *)

Definition digit_char (d : N) : ascii := ascii_of_N (48 + d).

Fixpoint digits_aux (fuel : nat) (n : N) (acc : string) : string :=
  match fuel with
  | O => acc
  | S f =>
      let acc' := String (digit_char (n mod 10)) acc in
      if (n / 10 =? 0)%N then acc' else digits_aux f (n / 10) acc'
  end.

(** The decimal digits of [n], most significant first, no leading zero. *)
Definition decimal_digits (n : N) : string :=
  digits_aux (S (N.to_nat (N.size n))) n "".

Fixpoint strip_zeros_rev (s : string) : string :=
  match s with
  | String "0" s' => strip_zeros_rev s'
  | _ => s
  end.

(** The digits of [n] without its trailing zeros. *)
Definition significant_digits (n : N) : string :=
  rev_string "" (strip_zeros_rev (rev_string "" (decimal_digits n))).

Definition ten_pow_21 : N := 1000000000000000000000.

(** Number::toString of a non-negative integer: all its digits below
    10^21, exponent notation from there on. *)
Definition nat_toString (n : N) : string :=
  if (n <? ten_pow_21)%N then decimal_digits n
  else
    let e := decimal_digits (N.of_nat (String.length (decimal_digits n) - 1)) in
    match significant_digits n with
    | String d EmptyString => String d ("e+" ++ e)
    | String d ds => String d ("." ++ ds ++ "e+" ++ e)
    | EmptyString => ""
    end.

Definition int_toString (z : Z) : string :=
  match z with
  | Zneg p => "-" ++ nat_toString (Npos p)
  | _ => nat_toString (Z.to_N z)
  end.

(** [x.toString()] where [x] is an integer, [NaN] or an infinity: the values
    [Math.floor] returns, which are the only ones the sources convert.  (The
    digits of a fractional binary64 are not determined by its rational
    value; a fractional [x] is printed up to its integer part.) *)
Definition toString (x : num) : string :=
  match x with
  | NaN => "NaN"
  | PInf => "Infinity"
  | NInf => "-Infinity"
  | Fin q => int_toString (Qfloor q)
  end.

(** [x.toFixed(f)], for [0 <= f <= 100]. *)
Definition toFixed (x : num) (f : nat) : string :=
  match x with
  | Fin q =>
      let s := if Qle_bool 0 q then "" else "-" in
      let a := Qabs q in
      if Qle_bool (inject_Z (Z.of_N ten_pow_21)) a then s ++ toString (Fin a)
      else
        let n := Z.to_N (Qfloor (a * inject_Z (10 ^ Z.of_nat f) + (1 # 2))) in
        let m := decimal_digits n in
        match f with
        | O => s ++ m
        | _ =>
            let m' := repeat_char "0" (S f - String.length m) ++ m in
            let k := String.length m' in
            s ++ substring 0 (k - f) m' ++ "." ++ substring (k - f) f m'
        end
  | _ => toString x
  end.

(** ** String to number *)

Fixpoint digits_val (acc : N) (s : string) : N :=
  match s with
  | EmptyString => acc
  | String c s' => digits_val (10 * acc + (N_of_ascii c - 48)) s'
  end.

Definition Qpow10 (e : Z) : Q :=
  match e with
  | Zneg p => 1 / inject_Z (10 ^ Zpos p)
  | _ => inject_Z (10 ^ e)
  end.

(** An optional sign: [(is_negative, rest)]. *)
Definition scan_sign (s : string) : bool * string :=
  match s with
  | String "-" s' => (true, s')
  | String "+" s' => (false, s')
  | _ => (false, s)
  end.

(** ExponentPart: gives the exponent and the rest when [s] starts with one. *)
Definition scan_exponent (s : string) : option (Z * string) :=
  match s with
  | String c s1 =>
      if Ascii.eqb c "e" || Ascii.eqb c "E" then
        let (neg, s2) := scan_sign s1 in
        let (ds, s3) := span is_digit s2 in
        if is_empty ds then None
        else
          let e := Z.of_N (digits_val 0 ds) in
          Some (if neg then (- e)%Z else e, s3)
      else None
  | EmptyString => None
  end.

(** The longest prefix of [s] that is a StrUnsignedDecimalLiteral: its value
    and the rest of [s]. *)
Definition scan_unsigned (s : string) : option (num * string) :=
  if startsWith "Infinity" s then Some (PInf, drop 8 s)
  else
    let (ip, r1) := span is_digit s in
    let '(fp, r2) :=
      match r1 with
      | String "." r => span is_digit r
      | _ => ("", r1)
      end in
    if is_empty ip && is_empty fp then None
    else
      let mant :=
        inject_Z (Z.of_N (digits_val 0 ip))
        + inject_Z (Z.of_N (digits_val 0 fp))
          / inject_Z (10 ^ Z.of_nat (String.length fp)) in
      match scan_exponent r2 with
      | Some (e, r3) => Some (Fin (Qred (mant * Qpow10 e)), r3)
      | None => Some (Fin (Qred mant), r2)
      end.

(** The longest prefix of [s] that is a StrDecimalLiteral. *)
Definition scan_decimal (s : string) : option (num * string) :=
  let (neg, s1) := scan_sign s in
  match scan_unsigned s1 with
  | Some (v, r) => Some (if neg then sub (Fin 0) v else v, r)
  | None => None
  end.

(** [Number.parseFloat(s)] *)
Definition parseFloat (s : string) : num :=
  match scan_decimal (trimStart s) with
  | Some (v, _) => v
  | None => NaN
  end.

(** [Number.parseInt(s, 10)] *)
Definition parseInt (s : string) : num :=
  let (neg, s1) := scan_sign (trimStart s) in
  let (ds, _) := span is_digit s1 in
  if is_empty ds then NaN
  else
    let n := Z.of_N (digits_val 0 ds) in
    of_Z (if neg then (- n)%Z else n).

Definition digit_of_radix (radix : N) (c : ascii) : option N :=
  let n := N_of_ascii c in
  let v :=
    if ((48 <=? n) && (n <=? 57))%N then Some (n - 48)%N
    else if ((97 <=? n) && (n <=? 102))%N then Some (n - 87)%N
    else if ((65 <=? n) && (n <=? 70))%N then Some (n - 55)%N
    else None in
  match v with
  | Some d => if (d <? radix)%N then Some d else None
  | None => None
  end.

Fixpoint radix_val (radix : N) (acc : N) (s : string) : option N :=
  match s with
  | EmptyString => Some acc
  | String c s' =>
      match digit_of_radix radix c with
      | Some d => radix_val radix (radix * acc + d) s'
      | None => None
      end
  end.

(** NonDecimalIntegerLiteral: [0x], [0o] or [0b] and at least one digit. *)
Definition scan_nondecimal (s : string) : option (option N) :=
  match s with
  | String "0" (String p ds) =>
      let radix :=
        if Ascii.eqb p "x" || Ascii.eqb p "X" then Some 16%N
        else if Ascii.eqb p "o" || Ascii.eqb p "O" then Some 8%N
        else if Ascii.eqb p "b" || Ascii.eqb p "B" then Some 2%N
        else None in
      match radix with
      | Some r => Some (if is_empty ds then None else radix_val r 0 ds)
      | None => None
      end
  | _ => None
  end.

(** [Number(s)] on a string (StringToNumber). *)
Definition Number (s : string) : num :=
  let t := trim s in
  if is_empty t then Fin 0
  else
    match scan_nondecimal t with
    | Some (Some n) => of_N n
    | Some None => NaN
    | None =>
        match scan_decimal t with
        | Some (v, EmptyString) => v
        | _ => NaN
        end
    end.

(** ** Optional properties, completions and arrays *)

(** The value of an optional property, or [d] when it is absent. *)
Definition or_default {A} (o : option A) (d : A) : A :=
  match o with Some v => v | None => d end.

(** The outcome of a call: a value, or a thrown [TypeError]. *)
Inductive completion (A : Type) : Type :=
| Normal (a : A)
| Throw (e : string).
Arguments Normal {A} a.
Arguments Throw {A} e.

Definition bind {A B} (c : completion A) (k : A -> completion B)
  : completion B :=
  match c with
  | Normal a => k a
  | Throw e => Throw e
  end.

Fixpoint mapM {A B} (f : A -> completion B) (l : list A)
  : completion (list B) :=
  match l with
  | [] => Normal []
  | x :: l' =>
      bind (f x) (fun y => bind (mapM f l') (fun ys => Normal (y :: ys)))
  end.

Fixpoint filterM {A} (f : A -> completion bool) (l : list A)
  : completion (list A) :=
  match l with
  | [] => Normal []
  | x :: l' =>
      bind (f x) (fun b =>
      bind (filterM f l') (fun ys => Normal (if b then x :: ys else ys)))
  end.

(** SortCompare with a comparator: a [NaN] answer counts as [+0]. *)
Definition SortCompare {A} (cmp : A -> A -> num) (x y : A) : num :=
  let v := cmp x y in if isNaN v then Fin 0 else v.

(** [l.sort(cmp)].  The sort is stable; when [cmp] is a consistent
    comparator its result is the unique stable ordering of [l], which this
    insertion sort computes.  (For an inconsistent comparator ECMAScript
    leaves the order to the engine.) *)
Fixpoint sort_insert {A} (cmp : A -> A -> num) (x : A) (l : list A) : list A :=
  match l with
  | [] => [x]
  | y :: l' =>
      if ltb (SortCompare cmp x y) (Fin 0) then x :: y :: l'
      else y :: sort_insert cmp x l'
  end.

Definition sort {A} (cmp : A -> A -> num) (l : list A) : list A :=
  fold_left (fun acc x => sort_insert cmp x acc) l [].

(** [l.splice(start, deleteCount, items...)] with integer arguments: the
    removed elements and the array afterwards. *)
Definition splice {A} (l : list A) (start : Z) (deleteCount : Z)
  (items : list A) : list A * list A :=
  let len := Z.of_nat (List.length l) in
  let actualStart :=
    if (start <? 0)%Z then Z.max (len + start) 0 else Z.min start len in
  let actualDelete := Z.min (Z.max deleteCount 0) (len - actualStart) in
  let a := Z.to_nat actualStart in
  let d := Z.to_nat actualDelete in
  (firstn d (skipn a l), (firstn a l ++ items ++ skipn (a + d) l)%list).

End JS.

(* ================================================================== *)
(** * src/lib/utils.ts                                                 *)
(* ================================================================== *)

Module Utils.
Import JS.
Local Open Scope string_scope.

(** Format seconds to MM:SS.d string. *)
Definition formatTime (seconds : num) : string :=
  let mins := Math_floor (div seconds (of_Z 60)) in
  let secs := rem seconds (of_Z 60) in
  let secsRounded := div (Math_round (mul secs (of_Z 10))) (of_Z 10) in
  let secsStr :=
    if eqb (rem secsRounded (of_Z 1)) (of_Z 0)
    then padStart (toFixed secsRounded 0) 2 "0"
    else padStart (toFixed secsRounded 1) 4 "0" in
  padStart (toString mins) 2 "0" ++ ":" ++ secsStr.

(** Parse MM:SS or MM:SS.d string to seconds. *)
Definition parseTime (timeStr : string) : num :=
  match split ":" timeStr with
  | [p0; p1] =>
      let mins := parseInt p0 in
      let secs := parseFloat p1 in
      if isNaN mins || isNaN secs then Fin 0
      else add (mul mins (of_Z 60)) secs
  | _ => Fin 0
  end.

End Utils.

(* ================================================================== *)
(** * src/types/index.ts                                               *)
(* ================================================================== *)

Module Speaker.
Record t : Type := mk { id : string; name : string; color : string }.

(** [Partial<Speaker>]: [None] is an absent property. *)
Record partial : Type :=
  mkPartial { p_id : option string; p_name : option string;
              p_color : option string }.

(** [{ ...s, ...updates }] *)
Definition spread (s : t) (updates : partial) : t :=
  {| id := JS.or_default (p_id updates) (id s);
     name := JS.or_default (p_name updates) (name s);
     color := JS.or_default (p_color updates) (color s) |}.
End Speaker.

Module Segment.
Record t : Type :=
  mk { id : string; speakerId : string; startTime : string;
       endTime : string; text : string }.

(** [Partial<Segment>]: [None] is an absent property. *)
Record partial : Type :=
  mkPartial { p_id : option string; p_speakerId : option string;
              p_startTime : option string; p_endTime : option string;
              p_text : option string }.

Definition no_updates : partial := mkPartial None None None None None.

(** [{ ...s, ...updates }] *)
Definition spread (s : t) (updates : partial) : t :=
  {| id := JS.or_default (p_id updates) (id s);
     speakerId := JS.or_default (p_speakerId updates) (speakerId s);
     startTime := JS.or_default (p_startTime updates) (startTime s);
     endTime := JS.or_default (p_endTime updates) (endTime s);
     text := JS.or_default (p_text updates) (text s) |}.
End Segment.

Module Types.
Import JS.
Local Open Scope string_scope.

Inductive AppView : Type := WELCOME | EDITOR.

Record FileMetaData : Type :=
  { meta_name : string; meta_duration : num; meta_language : string;
    meta_date : string }.

Definition DEFAULT_SPEAKERS : list Speaker.t :=
  [ Speaker.mk "speaker_1" "Narrator" "#3b82f6";
    Speaker.mk "speaker_2" "French Narrator" "#f97316";
    Speaker.mk "speaker_3" "Male Speaker" "#a855f7";
    Speaker.mk "speaker_4" "Female Speaker" "#ec4899" ].

End Types.

(* ================================================================== *)
(** * src/lib/timeline-utils.ts                                        *)
(* ================================================================== *)

Module TimelineUtils.
Import JS.

Record SnapToEdgeResult : Type := { time : num; snapped : bool }.

Record SnapConfig : Type :=
  { gridEnabled : bool; gridInterval : num;
    edgeEnabled : bool; edgeThreshold : num }.

Definition DEFAULT_SNAP_CONFIG : SnapConfig :=
  {| gridEnabled := true; gridInterval := Fin (1 # 2);
     edgeEnabled := true; edgeThreshold := Fin (1 # 5) |}.

(** Snap a time value to the nearest grid interval. *)
Definition snapToGrid (time interval : num) (enabled : bool) : num :=
  if negb enabled || leb interval (Fin 0) then time
  else mul (Math_round (div time interval)) interval.

(** One iteration of the scan of [snapToEdge]; the loop state is
    [(closestTarget, minDistance)]. *)
Definition snapToEdge_step (time : num) (st : num * num) (target : num)
  : num * num :=
  let '(closestTarget, minDistance) := st in
  let distance := Math_abs (sub time target) in
  if ltb distance minDistance then (target, distance)
  else (closestTarget, minDistance).

(** Find the nearest edge from a list of target times. *)
Definition snapToEdge (time : num) (targets : list num) (threshold : num)
  (enabled : bool) : SnapToEdgeResult :=
  if negb enabled || (List.length targets =? 0)%nat then
    {| time := time; snapped := false |}
  else
    let '(closestTarget, _) :=
      fold_left (snapToEdge_step time) targets (time, threshold) in
    {| time := closestTarget; snapped := neb closestTarget time |}.

(** Combined snap function - edge snap takes priority over grid snap. *)
Definition snapTime (time : num) (targets : list num) (config : SnapConfig)
  : SnapToEdgeResult :=
  let edgeResult :=
    snapToEdge time targets (edgeThreshold config) (edgeEnabled config) in
  if snapped edgeResult then edgeResult
  else
    let gridSnapped :=
      snapToGrid time (gridInterval config) (gridEnabled config) in
    {| time := gridSnapped; snapped := false |}.

(** Get all edge times from segments, excluding a specific segment. *)
Fixpoint getSegmentEdgeTimes (segments : list Segment.t) (excludeId : string)
  (parseTimeFn : string -> num) : list num :=
  match segments with
  | [] => []
  | seg :: rest =>
      if String.eqb (Segment.id seg) excludeId then
        getSegmentEdgeTimes rest excludeId parseTimeFn
      else
        parseTimeFn (Segment.startTime seg)
        :: parseTimeFn (Segment.endTime seg)
        :: getSegmentEdgeTimes rest excludeId parseTimeFn
  end.

Definition getMaxStartTime (currentEnd minDuration : num) : num :=
  sub currentEnd minDuration.

Definition getMinEndTime (currentStart minDuration : num) : num :=
  add currentStart minDuration.

Definition clampTimeToZero (time : num) : num := Math_max (Fin 0) time.

End TimelineUtils.

(* ================================================================== *)
(** * src/stores/project-store.ts                                      *)
(* ================================================================== *)

Module ProjectStore.
Import JS Types.
Local Open Scope string_scope.

Record HistoryEntry : Type :=
  { h_segments : list Segment.t; h_speakers : list (option Speaker.t) }.

(** The store.  A roster slot is [None] where the array holds [undefined],
    which [reorderSpeakers] stores when its [fromIndex] is out of range. *)
Record ProjectState : Type :=
  { view : AppView;
    file : option string;
    audioUrl : option string;
    meta : FileMetaData;
    isProcessing : bool;
    loadingMessage : string;
    segments : list Segment.t;
    speakers : list (option Speaker.t);
    past : list HistoryEntry;
    future : list HistoryEntry;
    selectedSegmentId : option string }.

Definition initialMeta : FileMetaData :=
  {| meta_name := "Untitled Project"; meta_duration := Fin 0;
     meta_language := "English"; meta_date := "" |}.

Definition initialState : ProjectState :=
  {| view := WELCOME; file := None; audioUrl := None; meta := initialMeta;
     isProcessing := false; loadingMessage := "";
     segments := []; speakers := map Some DEFAULT_SPEAKERS;
     past := []; future := []; selectedSegmentId := None |}.

(** The object passed to zustand's [set]: [None] leaves a field as it is. *)
Record Patch : Type :=
  { set_past : option (list HistoryEntry);
    set_future : option (list HistoryEntry);
    set_segments : option (list Segment.t);
    set_speakers : option (list (option Speaker.t));
    set_selectedSegmentId : option (option string) }.

Definition set (state : ProjectState) (p : Patch) : ProjectState :=
  {| view := view state;
     file := file state;
     audioUrl := audioUrl state;
     meta := meta state;
     isProcessing := isProcessing state;
     loadingMessage := loadingMessage state;
     segments := JS.or_default (set_segments p) (segments state);
     speakers := JS.or_default (set_speakers p) (speakers state);
     past := JS.or_default (set_past p) (past state);
     future := JS.or_default (set_future p) (future state);
     selectedSegmentId :=
       JS.or_default (set_selectedSegmentId p) (selectedSegmentId state) |}.

(** [{ segments: state.segments, speakers: state.speakers }] *)
Definition snapshot (state : ProjectState) : HistoryEntry :=
  {| h_segments := segments state; h_speakers := speakers state |}.

Definition setProjectData (segments' : list Segment.t)
  (speakers' : list (option Speaker.t)) (state : ProjectState)
  : ProjectState :=
  set state
    {| set_past := Some (past state ++ [snapshot state])%list;
       set_future := Some [];
       set_segments := Some segments';
       set_speakers := Some speakers';
       set_selectedSegmentId := None |}.

(** Truthiness of a [string | undefined]. *)
Definition truthy (o : option string) : bool :=
  match o with
  | Some s => negb (is_empty s)
  | None => false
  end.

(** [a || b] on [string | undefined] *)
Definition lor (a b : option string) : option string :=
  if truthy a then a else b.

(** [a || d] where [d] is a string *)
Definition lor_string (a : option string) (d : string) : string :=
  match a with
  | Some s => if is_empty s then d else s
  | None => d
  end.

(** [state.speakers[0]?.id] *)
Definition first_speaker_id (l : list (option Speaker.t)) : option string :=
  match l with
  | Some sp :: _ => Some (Speaker.id sp)
  | _ => None
  end.

(** The sort key of the comparator in [addSegment]:
    [startTime.split(":").reduce((acc, t, i) => acc + Number(t) * (i === 0 ? 60 : 1), 0)] *)
Definition startKey (startTime : string) : num :=
  fst (fold_left
         (fun (st : num * nat) (t : string) =>
            let (acc, i) := st in
            (add acc (mul (Number t) (if (i =? 0)%nat then of_Z 60 else of_Z 1)),
             S i))
         (split ":" startTime) (Fin 0, O)).

Definition compareStart (a b : Segment.t) : num :=
  sub (startKey (Segment.startTime a)) (startKey (Segment.startTime b)).

(** [addSegment(currentTime, speakerId)]; [newId] is what [generateId()]
    returned. *)
Definition addSegment (currentTime : num) (speakerId : option string)
  (newId : string) (state : ProjectState) : ProjectState :=
  let targetSpeakerId :=
    lor_string (lor speakerId (first_speaker_id (speakers state)))
      "speaker_1" in
  let defaultDuration := of_Z 3 in
  let newSegment :=
    {| Segment.id := newId;
       Segment.speakerId := targetSpeakerId;
       Segment.startTime := Utils.formatTime currentTime;
       Segment.endTime := Utils.formatTime (add currentTime defaultDuration);
       Segment.text := "" |} in
  let newSegments := sort compareStart (segments state ++ [newSegment])%list in
  set state
    {| set_past := Some (past state ++ [snapshot state])%list;
       set_future := Some [];
       set_segments := Some newSegments;
       set_speakers := None;
       set_selectedSegmentId := Some (Some (Segment.id newSegment)) |}.

Definition updateSegment (id : string) (updates : Segment.partial)
  (state : ProjectState) : ProjectState :=
  let newSegments :=
    map (fun s => if String.eqb (Segment.id s) id
                  then Segment.spread s updates else s)
        (segments state) in
  set state
    {| set_past := Some (past state ++ [snapshot state])%list;
       set_future := Some [];
       set_segments := Some newSegments;
       set_speakers := None;
       set_selectedSegmentId := None |}.

Definition option_string_eqb (o : option string) (id : string) : bool :=
  match o with
  | Some s => String.eqb s id
  | None => false
  end.

Definition deleteSegment (id : string) (state : ProjectState)
  : ProjectState :=
  set state
    {| set_past := Some (past state ++ [snapshot state])%list;
       set_future := Some [];
       set_segments :=
         Some (filter (fun s => negb (String.eqb (Segment.id s) id))
                      (segments state));
       set_speakers := None;
       set_selectedSegmentId :=
         Some (if option_string_eqb (selectedSegmentId state) id
               then None else selectedSegmentId state) |}.

(** [s.id] on a roster slot: reading a property of [undefined] throws. *)
Definition slot_id (s : option Speaker.t) : completion string :=
  match s with
  | Some sp => Normal (Speaker.id sp)
  | None => Throw "TypeError"
  end.

Definition updateSpeaker (id : string) (updates : Speaker.partial)
  (state : ProjectState) : completion ProjectState :=
  bind (mapM (fun s =>
                bind (slot_id s) (fun sid =>
                Normal (if String.eqb sid id
                        then option_map (fun sp => Speaker.spread sp updates) s
                        else s)))
             (speakers state))
       (fun newSpeakers =>
  Normal (set state
    {| set_past := Some (past state ++ [snapshot state])%list;
       set_future := Some [];
       set_segments := None;
       set_speakers := Some newSpeakers;
       set_selectedSegmentId := None |})).

Definition deleteSpeaker (id : string) (state : ProjectState)
  : completion ProjectState :=
  bind (filterM (fun s => bind (slot_id s) (fun sid =>
                          Normal (negb (String.eqb sid id))))
                (speakers state))
       (fun newSpeakers =>
  Normal (set state
    {| set_past := Some (past state ++ [snapshot state])%list;
       set_future := Some [];
       set_speakers := Some newSpeakers;
       set_segments :=
         Some (filter (fun s => negb (String.eqb (Segment.speakerId s) id))
                      (segments state));
       set_selectedSegmentId := None |})).

Definition mergeSpeakers (fromId toId : string) (state : ProjectState)
  : completion ProjectState :=
  let newSegments :=
    map (fun s =>
           if String.eqb (Segment.speakerId s) fromId
           then Segment.spread s
                  (Segment.mkPartial None (Some toId) None None None)
           else s)
        (segments state) in
  bind (filterM (fun s => bind (slot_id s) (fun sid =>
                          Normal (negb (String.eqb sid fromId))))
                (speakers state))
       (fun newSpeakers =>
  Normal (set state
    {| set_past := Some (past state ++ [snapshot state])%list;
       set_future := Some [];
       set_segments := Some newSegments;
       set_speakers := Some newSpeakers;
       set_selectedSegmentId := None |})).

(** [const [moved] = newSpeakers.splice(fromIndex, 1);
     newSpeakers.splice(toIndex, 0, moved);]
    [moved] is [undefined] when nothing was removed. *)
Definition reorderSpeakers (fromIndex toIndex : Z) (state : ProjectState)
  : ProjectState :=
  let (removed, rest) := splice (speakers state) fromIndex 1 [] in
  let moved : option Speaker.t :=
    match removed with
    | m :: _ => m
    | [] => None
    end in
  let newSpeakers := snd (splice rest toIndex 0 [moved]) in
  set state
    {| set_past := Some (past state ++ [snapshot state])%list;
       set_future := Some [];
       set_segments := None;
       set_speakers := Some newSpeakers;
       set_selectedSegmentId := None |}.

Definition undo (state : ProjectState) : ProjectState :=
  match rev (past state) with
  | [] => state
  | previous :: _ =>
      let newPast := removelast (past state) in
      set state
        {| set_past := Some newPast;
           set_future := Some (snapshot state :: future state);
           set_segments := Some (h_segments previous);
           set_speakers := Some (h_speakers previous);
           set_selectedSegmentId := None |}
  end.

Definition redo (state : ProjectState) : ProjectState :=
  match future state with
  | [] => state
  | next :: newFuture =>
      set state
        {| set_past := Some (past state ++ [snapshot state])%list;
           set_future := Some newFuture;
           set_segments := Some (h_segments next);
           set_speakers := Some (h_speakers next);
           set_selectedSegmentId := None |}
  end.

Definition canUndo (state : ProjectState) : bool :=
  (0 <? List.length (past state))%nat.

Definition canRedo (state : ProjectState) : bool :=
  (0 <? List.length (future state))%nat.

(** The mutating operations of the store. *)
Inductive Op : Type :=
| SetProjectData (segments' : list Segment.t)
    (speakers' : list (option Speaker.t))
| AddSegment (currentTime : num) (speakerId : option string) (newId : string)
| UpdateSegment (id : string) (updates : Segment.partial)
| DeleteSegment (id : string)
| UpdateSpeaker (id : string) (updates : Speaker.partial)
| DeleteSpeaker (id : string)
| MergeSpeakers (fromId toId : string)
| ReorderSpeakers (fromIndex toIndex : Z).

Definition run (op : Op) (state : ProjectState) : completion ProjectState :=
  match op with
  | SetProjectData sg sp => Normal (setProjectData sg sp state)
  | AddSegment t sid nid => Normal (addSegment t sid nid state)
  | UpdateSegment id u => Normal (updateSegment id u state)
  | DeleteSegment id => Normal (deleteSegment id state)
  | UpdateSpeaker id u => updateSpeaker id u state
  | DeleteSpeaker id => deleteSpeaker id state
  | MergeSpeakers a b => mergeSpeakers a b state
  | ReorderSpeakers i j => Normal (reorderSpeakers i j state)
  end.

End ProjectStore.

(* ================================================================== *)
(** * The Timeline component: dragging a segment                       *)
(* ================================================================== *)

Module Timeline.
Import JS TimelineUtils ProjectStore.
Local Open Scope string_scope.

Inductive DragMode : Type := left | right | move.

Record DragState : Type :=
  { segmentId : string;
    mode : DragMode;
    initialX : num;
    initialStartTime : num;
    initialEndTime : num }.

(** The component state and props the drag handler reads. *)
Record Controls : Type :=
  { gridSnap : bool; dragLineSnap : bool; zoomLevel : num }.

Definition gridSnapInterval : num := Fin (1 # 2).
Definition edgeThreshold : num := Fin (1 # 5).

Definition snapConfig (c : Controls) : SnapConfig :=
  {| gridEnabled := gridSnap c;
     gridInterval := gridSnapInterval;
     edgeEnabled := dragLineSnap c;
     TimelineUtils.edgeThreshold := edgeThreshold |}.

Definition getSnapTargets (segments : list Segment.t)
  (excludeSegmentId : string) : list num :=
  getSegmentEdgeTimes segments excludeSegmentId Utils.parseTime.

Definition performEdgeSnap (c : Controls) (segments : list Segment.t)
  (time : num) (excludeSegmentId : string) : SnapToEdgeResult :=
  snapToEdge time (getSnapTargets segments excludeSegmentId)
    edgeThreshold (dragLineSnap c).

Definition performSnap (c : Controls) (segments : list Segment.t)
  (time : num) (excludeSegmentId : string) : num :=
  TimelineUtils.time
    (snapTime time (getSnapTargets segments excludeSegmentId) (snapConfig c)).

(** [handleSegmentDragStart]: [mouseX] is the pointer position in content
    coordinates. *)
Definition handleSegmentDragStart (mouseX : num) (segmentId : string)
  (mode : DragMode) (segment : Segment.t) : DragState :=
  {| segmentId := segmentId;
     mode := mode;
     initialX := mouseX;
     initialStartTime := Utils.parseTime (Segment.startTime segment);
     initialEndTime := Utils.parseTime (Segment.endTime segment) |}.

(** [handleMouseMove] of the segment drag effect, without the auto-scroll of
    the viewport.  It acts on the store, through [onUpdateSegment], which is
    the store's [updateSegment], and on the component's [snapGuides]. *)
Definition handleMouseMove (c : Controls) (dragState : DragState)
  (mouseX : num) (state : ProjectState) (snapGuides : list num)
  : ProjectState * list num :=
  let segments := ProjectStore.segments state in
  let deltaX := sub mouseX (initialX dragState) in
  let deltaTime := div deltaX (zoomLevel c) in
  match find (fun s => String.eqb (Segment.id s) (segmentId dragState))
             segments with
  | None => (state, snapGuides)
  | Some segment =>
      let minDuration := Fin (1 # 2) in
      let segmentDuration :=
        sub (initialEndTime dragState) (initialStartTime dragState) in
      match mode dragState with
      | left =>
          let rawStart :=
            Math_max (Fin 0) (add (initialStartTime dragState) deltaTime) in
          let newStart := performSnap c segments rawStart (Segment.id segment) in
          if ltb newStart (sub (initialEndTime dragState) minDuration) then
            let state' :=
              updateSegment (Segment.id segment)
                (Segment.mkPartial None None
                   (Some (Utils.formatTime newStart)) None None) state in
            let edgeResult :=
              performEdgeSnap c segments rawStart (Segment.id segment) in
            (state', if snapped edgeResult then [time edgeResult] else [])
          else (state, [])
      | right =>
          let rawEnd :=
            Math_max (add (initialStartTime dragState) minDuration)
                     (add (initialEndTime dragState) deltaTime) in
          let newEnd := performSnap c segments rawEnd (Segment.id segment) in
          let state' :=
            updateSegment (Segment.id segment)
              (Segment.mkPartial None None None
                 (Some (Utils.formatTime newEnd)) None) state in
          let edgeResult :=
            performEdgeSnap c segments rawEnd (Segment.id segment) in
          (state', if snapped edgeResult then [time edgeResult] else [])
      | move =>
          let rawStart :=
            Math_max (Fin 0) (add (initialStartTime dragState) deltaTime) in
          let rawEnd := add rawStart segmentDuration in
          let startSnap :=
            performEdgeSnap c segments rawStart (Segment.id segment) in
          let endSnap :=
            performEdgeSnap c segments rawEnd (Segment.id segment) in
          let '(newStart, guides) :=
            if snapped startSnap then (time startSnap, [time startSnap])
            else if snapped endSnap then
              (sub (time endSnap) segmentDuration, [time endSnap])
            else (snapToGrid rawStart gridSnapInterval (gridSnap c), []) in
          (updateSegment (Segment.id segment)
             (Segment.mkPartial None None
                (Some (Utils.formatTime (Math_max (Fin 0) newStart)))
                (Some (Utils.formatTime
                         (add (Math_max (Fin 0) newStart) segmentDuration)))
                None) state,
           guides)
      end
  end.

End Timeline.


(* ================================================================== *)
(** * src/stores/project-store.ts: selector and helper                 *)
(* ================================================================== *)

Module StoreHelpers.
Import JS Types ProjectStore.
Local Open Scope string_scope.

(** [useSelectedSegment]:
    [segments.find((s) => s.id === selectedId) ?? null] *)
Definition useSelectedSegment (state : ProjectState) : option Segment.t :=
  match selectedSegmentId state with
  | Some selectedId =>
      find (fun s => String.eqb (Segment.id s) selectedId) (segments state)
  | None => None
  end.

Definition SPEAKER_COLORS : list string :=
  [ "#3b82f6"; "#f97316"; "#a855f7"; "#ec4899";
    "#10b981"; "#f59e0b"; "#6366f1"; "#84cc16" ].

(** [Array.from(new Set(l))]: the distinct elements of [l], each at the
    place of its first occurrence.  [seen] holds the elements already in
    the set. *)
Fixpoint unique_from (seen : list string) (l : list string) : list string :=
  match l with
  | [] => []
  | x :: rest =>
      if existsb (String.eqb x) seen then unique_from seen rest
      else x :: unique_from (x :: seen) rest
  end.

Definition unique (l : list string) : list string := unique_from [] l.

(** [l.map((x, idx) => f(x, idx))], from index [idx] on. *)
Fixpoint map_index {A B} (f : A -> nat -> B) (idx : nat) (l : list A)
  : list B :=
  match l with
  | [] => []
  | x :: rest => f x idx :: map_index f (S idx) rest
  end.

(** Helper to create speakers from transcription result. *)
Definition createSpeakersFromSegments (segments : list Segment.t)
  : list Speaker.t :=
  let uniqueSpeakerIds := unique (map Segment.speakerId segments) in
  map_index
    (fun id idx =>
       {| Speaker.id := id;
          Speaker.name := "Speaker " ++ nat_toString (N.of_nat (idx + 1));
          Speaker.color :=
            nth (idx mod List.length SPEAKER_COLORS) SPEAKER_COLORS "" |})
    0 uniqueSpeakerIds.

End StoreHelpers.

(* ================================================================== *)
(** * src/stores/player-store.ts: the zoom level                       *)
(* ================================================================== *)

Module PlayerStore.
Import JS.

Definition ZOOM_MIN : num := of_Z 10.
Definition ZOOM_MAX : num := of_Z 200.

(** The value [setZoomLevel(level)] stores. *)
Definition setZoomLevel (level : num) : num :=
  Math_max ZOOM_MIN (Math_min ZOOM_MAX level).

End PlayerStore.

(* ================================================================== *)
(** * The Timeline component: seeking and splitting                    *)
(* ================================================================== *)

Module TimelineActions.
Import JS ProjectStore.

(** The time the timeline and ruler handlers pass to [onSeek] for a pointer
    at content coordinate [x]:
    [Math.max(0, Math.min(totalDuration, x / zoomLevel))] *)
Definition seekTime (totalDuration zoomLevel x : num) : num :=
  Math_max (Fin 0) (Math_min totalDuration (div x zoomLevel)).

(** "Split at center" of the segment context menu; [newId] is what
    [generateId()] returned in [addSegment].  Nothing happens when no
    segment has the id. *)
Definition splitAtCenter (segmentId newId : string) (state : ProjectState)
  : ProjectState :=
  match find (fun s => String.eqb (Segment.id s) segmentId)
             (segments state) with
  | Some seg =>
      let start := Utils.parseTime (Segment.startTime seg) in
      let end_ := Utils.parseTime (Segment.endTime seg) in
      let mid := div (add start end_) (of_Z 2) in
      let state1 :=
        updateSegment segmentId
          (Segment.mkPartial None None None
             (Some (Utils.formatTime mid)) None) state in
      addSegment mid (Some (Segment.speakerId seg)) newId state1
  | None => state
  end.

End TimelineActions.

(* ================================================================== *)
(** * src/lib/export.ts                                                *)
(* ================================================================== *)

Module ExportFormats.
Import JS.
Local Open Scope string_scope.

Definition newline : string := String "010"%char EmptyString.
Definition quote : ascii := "034"%char.

(** [l.join(sep)] *)
Fixpoint join (sep : string) (l : list string) : string :=
  match l with
  | [] => ""
  | [x] => x
  | x :: rest => x ++ sep ++ join sep rest
  end.

(** The part of an SRT or VTT timestamp before the milliseconds separator,
    and the milliseconds. *)
Definition timestamp_clock (seconds : num) : string :=
  let hours := Math_floor (div seconds (of_Z 3600)) in
  let mins := Math_floor (div (rem seconds (of_Z 3600)) (of_Z 60)) in
  let secs := Math_floor (rem seconds (of_Z 60)) in
  padStart (toString hours) 2 "0" ++ ":"
  ++ padStart (toString mins) 2 "0" ++ ":"
  ++ padStart (toString secs) 2 "0".

Definition timestamp_millis (seconds : num) : string :=
  let millis := Math_round (mul (rem seconds (of_Z 1)) (of_Z 1000)) in
  padStart (toString millis) 3 "0".

(** Convert seconds to SRT timestamp format (HH:MM:SS,mmm). *)
Definition secondsToSrtTime (seconds : num) : string :=
  timestamp_clock seconds ++ "," ++ timestamp_millis seconds.

(** Convert seconds to VTT timestamp format (HH:MM:SS.mmm). *)
Definition secondsToVttTime (seconds : num) : string :=
  timestamp_clock seconds ++ "." ++ timestamp_millis seconds.

(** Get speaker name by ID; [speakers] is an array of speakers. *)
Definition getSpeakerName (speakerId : string) (speakers : list Speaker.t)
  : string :=
  match find (fun s => String.eqb (Speaker.id s) speakerId) speakers with
  | Some speaker => Speaker.name speaker
  | None => speakerId
  end.

(** Export to plain text format. *)
Definition exportToTxt (segments : list Segment.t)
  (speakers : list Speaker.t) : string :=
  join (newline ++ newline)
    (map (fun segment =>
            let speakerName :=
              getSpeakerName (Segment.speakerId segment) speakers in
            "[" ++ Segment.startTime segment ++ " - "
            ++ Segment.endTime segment ++ "] " ++ speakerName ++ newline
            ++ Segment.text segment)
         segments).

(** [text.replace] of the escaping in [exportToCsv]: every double quote of
    the text becomes two. *)
Fixpoint double_quotes (text : string) : string :=
  match text with
  | EmptyString => ""
  | String c rest =>
      if Ascii.eqb c quote then String quote (String quote (double_quotes rest))
      else String c (double_quotes rest)
  end.

(** One row of [exportToCsv]. *)
Definition csvRow (speakers : list Speaker.t) (segment : Segment.t)
  : string :=
  let speakerName := getSpeakerName (Segment.speakerId segment) speakers in
  let escapedText :=
    String quote (double_quotes (Segment.text segment) ++ String quote "") in
  Segment.startTime segment ++ "," ++ Segment.endTime segment ++ ","
  ++ String quote (speakerName ++ String quote ("," ++ escapedText)).

(** Export to CSV format. *)
Definition exportToCsv (segments : list Segment.t)
  (speakers : list Speaker.t) : string :=
  let header := "Start Time,End Time,Speaker,Text" in
  join newline (header :: map (csvRow speakers) segments).

End ExportFormats.
(* ================================================================== *)
(** * Vocabulary of the properties                                     *)
(* ================================================================== *)

(** What [mergeSpeakers] does to one segment. *)
Definition reassigned (fromId toId : string) (s s' : Segment.t) : Prop :=
  (Segment.speakerId s = fromId ->
   s' = Segment.mk (Segment.id s) toId (Segment.startTime s)
          (Segment.endTime s) (Segment.text s)) /\
  (Segment.speakerId s <> fromId -> s' = s).

(** The roster without the speakers whose id is [fromId]. *)
Definition roster_without (fromId : string) (l : list (option Speaker.t))
  : list (option Speaker.t) :=
  filter (fun s => match s with
                   | Some sp => negb (String.eqb (Speaker.id sp) fromId)
                   | None => true
                   end) l.

(** A store with one segment of speaker_1. *)
Definition one_segment_state : ProjectStore.ProjectState :=
  ProjectStore.setProjectData
    [Segment.mk "1" "speaker_1" "00:00" "00:05" "Hello"]
    (map Some Types.DEFAULT_SPEAKERS) ProjectStore.initialState.

(** The fields of the store other than the history and the selection. *)
Definition same_project (st st' : ProjectStore.ProjectState) : Prop :=
  ProjectStore.segments st' = ProjectStore.segments st /\
  ProjectStore.speakers st' = ProjectStore.speakers st /\
  ProjectStore.view st' = ProjectStore.view st /\
  ProjectStore.file st' = ProjectStore.file st /\
  ProjectStore.audioUrl st' = ProjectStore.audioUrl st /\
  ProjectStore.meta st' = ProjectStore.meta st /\
  ProjectStore.isProcessing st' = ProjectStore.isProcessing st /\
  ProjectStore.loadingMessage st' = ProjectStore.loadingMessage st.

Definition history_pushed (st st' : ProjectStore.ProjectState) : Prop :=
  ProjectStore.past st'
  = (ProjectStore.past st ++ [ProjectStore.snapshot st])%list /\
  ProjectStore.future st' = [].


(** [Math.abs(time - target)], the distance [snapToEdge] compares. *)
Definition distance (t target : JS.num) : JS.num :=
  JS.Math_abs (JS.sub t target).

(** The target is in range: its distance is strictly below the threshold. *)
Definition in_range (t thr target : JS.num) : bool :=
  JS.ltb (distance t target) thr.

(** [c] is the first of the closest targets of [l] that are in range. *)
Definition first_closest (t thr : JS.num) (l : list JS.num) (c : JS.num)
  : Prop :=
  exists pre post,
    l = (pre ++ c :: post)%list /\
    in_range t thr c = true /\
    (forall x, In x l -> in_range t thr x = true ->
               JS.leb (distance t c) (distance t x) = true) /\
    (forall x, In x pre -> JS.leb (distance t x) (distance t c) = false).

(** The state of the scan after the targets [l]. *)
Definition scan_inv (t thr : JS.num) (l : list JS.num) (st : JS.num * JS.num)
  : Prop :=
  (Forall (fun x => in_range t thr x = false) l /\ st = (t, thr)) \/
  (first_closest t thr l (fst st) /\ snd st = distance t (fst st)).


(** The comparator key of a segment in [addSegment]. *)
Definition segment_key (s : Segment.t) : JS.num :=
  ProjectStore.startKey (Segment.startTime s).






(** A store with the segment [addSegment] creates at playhead time 0.2. *)
Definition playhead_state : ProjectStore.ProjectState :=
  ProjectStore.addSegment (JS.Fin (1 # 5)) None "seg-1"
    ProjectStore.initialState.

Definition playhead_segment : Segment.t :=
  Segment.mk "seg-1" "speaker_1" "00:00.2" "00:03.2" "".

(** Grid and edge snapping on, 50 pixels per second. *)
Definition default_controls : Timeline.Controls :=
  {| Timeline.gridSnap := true; Timeline.dragLineSnap := true;
     Timeline.zoomLevel := JS.of_Z 50 |}.

(** Every character of [s] is a decimal digit. *)
Fixpoint all_digits (s : string) : bool :=
  match s with
  | EmptyString => true
  | String c s' => JS.is_digit c && all_digits s'
  end.

(** The largest integer a number represents exactly with all integers below
    it, [Number.MAX_SAFE_INTEGER] = 2^53 - 1. *)
Definition MAX_SAFE_INTEGER : N := 9007199254740991.

(** Running mutating operations one after the other; a throw stops the
    sequence. *)
Fixpoint run_all (ops : list ProjectStore.Op) (st : ProjectStore.ProjectState)
  : JS.completion ProjectStore.ProjectState :=
  match ops with
  | [] => JS.Normal st
  | op :: rest => JS.bind (ProjectStore.run op st) (run_all rest)
  end.

(** [n] calls of [undo], of [redo]. *)
Definition undo_times (n : nat) (st : ProjectStore.ProjectState)
  : ProjectStore.ProjectState :=
  Nat.iter n ProjectStore.undo st.

Definition redo_times (n : nat) (st : ProjectStore.ProjectState)
  : ProjectStore.ProjectState :=
  Nat.iter n ProjectStore.redo st.

(** The number of entries on both history stacks. *)
Definition history_size (st : ProjectStore.ProjectState) : nat :=
  List.length (ProjectStore.past st) + List.length (ProjectStore.future st).

(** No [undefined] in the roster. *)
Definition roster_ok (st : ProjectStore.ProjectState) : Prop :=
  Forall (fun s => s <> None) (ProjectStore.speakers st).

(** ** Well-formed time strings *)

(** A run of one to [max] decimal digits. *)
Definition digit_field (max : nat) (s : string) : bool :=
  all_digits s && negb (JS.is_empty s) && (String.length s <=? max)%nat.




(** A store with a segment of speaker_1 followed by one of speaker_2. *)
Definition two_speaker_state : ProjectStore.ProjectState :=
  ProjectStore.setProjectData
    [Segment.mk "1" "speaker_1" "00:00" "00:05" "Hello";
     Segment.mk "2" "speaker_2" "00:05" "00:10" "Bonjour"]
    (map Some Types.DEFAULT_SPEAKERS) ProjectStore.initialState.

(** Every character of [s] satisfies [p]. *)
Fixpoint all_chars (p : ascii -> bool) (s : string) : bool :=
  match s with
  | EmptyString => true
  | String c s' => p c && all_chars p s'
  end.



(** A time whose magnitude is at most [Number.MAX_SAFE_INTEGER] seconds. *)
Definition safe_time (a : Q) : Prop :=
  (Qabs a <= inject_Z (Z.of_N MAX_SAFE_INTEGER))%Q.

Definition two_pow_32 : N := 4294967296.

(** [h] half seconds, as a number. *)
Definition half_seconds (h : N) : JS.num :=
  JS.Fin (Qred (inject_Z (Z.of_N h) * (1 # 2))).

Definition not_colon (c : ascii) : bool := negb (Ascii.eqb c ":").

(** Rational arithmetic is reasoned about through its lemmas, not unfolded. *)
#[local] Arguments Qred : simpl never.
#[local] Arguments Qabs : simpl never.
#[local] Arguments Qplus : simpl never.
#[local] Arguments Qminus : simpl never.
#[local] Arguments Qmult : simpl never.
#[local] Arguments Qdiv : simpl never.
#[local] Arguments Qopp : simpl never.
#[local] Arguments Qinv : simpl never.
#[local] Arguments Qfloor : simpl never.
#[local] Arguments Qceiling : simpl never.
#[local] Arguments Qle_bool : simpl never.
#[local] Arguments Qeq_bool : simpl never.

(* ================================================================== *)
(** * Order and equality on numbers                                    *)
(* ================================================================== *)

Lemma Qle_bool_false (a b : Q) : Qle_bool a b = false <-> (b < a)%Q.
Proof.
  split; intros H.
  - apply Qnot_le_lt. intros C. apply Qle_bool_iff in C. congruence.
  - destruct (Qle_bool a b) eqn:E; [|reflexivity].
    apply Qle_bool_iff in E. lra.
Qed.

Ltac num_cases :=
  repeat match goal with
         | x : JS.num |- _ => destruct x
         end;
  simpl in *; try reflexivity; try discriminate; try tauto.

Ltac q_bools :=
  repeat match goal with
         | H : negb _ = true |- _ => apply negb_true_iff in H
         | H : negb _ = false |- _ => apply negb_false_iff in H
         | H : Qle_bool _ _ = true |- _ => apply Qle_bool_iff in H
         | H : Qle_bool _ _ = false |- _ => apply Qle_bool_false in H
         | H : Qeq_bool _ _ = true |- _ => apply Qeq_bool_iff in H
         | H : Qeq_bool _ _ = false |- _ => apply Qeq_bool_neq in H
         | |- negb _ = true => apply negb_true_iff
         | |- negb _ = false => apply negb_false_iff
         | |- Qle_bool _ _ = true => apply Qle_bool_iff
         | |- Qle_bool _ _ = false => apply Qle_bool_false
         | |- Qeq_bool _ _ = true => apply Qeq_bool_iff
         end.

Ltac num_order := num_cases; q_bools; try lra.

Section NumOrder.
Import JS.

Lemma ltb_trans (a b c : num) :
  ltb a b = true -> ltb b c = true -> ltb a c = true.
Proof. intros; num_order. Qed.

Lemma ltb_leb_trans (a b c : num) :
  ltb a b = true -> leb b c = true -> ltb a c = true.
Proof. intros; num_order. Qed.

Lemma leb_ltb_trans (a b c : num) :
  leb a b = true -> ltb b c = true -> ltb a c = true.
Proof. intros; num_order. Qed.


Lemma ltb_leb (a b : num) : ltb a b = true -> leb a b = true.
Proof. intros; num_order. Qed.

Lemma ltb_not_leb (a b : num) : ltb a b = true -> leb b a = false.
Proof. intros; num_order. Qed.

Lemma ltb_leb_refl (a b : num) : ltb a b = true -> leb a a = true.
Proof. intros; num_order. Qed.

Lemma not_ltb_leb (a b c d : num) :
  ltb a b = false -> ltb a c = true -> ltb b d = true -> leb b a = true.
Proof. intros; num_order. Qed.

End NumOrder.
(* ================================================================== *)
(** * The store: history, merge and unmatched ids                      *)
(* ================================================================== *)

Section StoreFacts.
Import JS ProjectStore.

(** Every mutating operation that completes pushes the snapshot of the state
    it started from and empties the redo stack. *)
Lemma filterM_slots_normal (p : string -> bool) (l : list (option Speaker.t)) :
  Forall (fun s => s <> None) l ->
  filterM (fun s => bind (slot_id s) (fun sid => Normal (p sid))) l
  = Normal (filter (fun s => match s with
                             | Some sp => p (Speaker.id sp)
                             | None => true
                             end) l).
Proof.
  induction 1 as [|s l Hs Hl IH]; simpl; [reflexivity|].
  destruct s as [sp|]; [|congruence]. simpl.
  rewrite IH. simpl. destruct (p (Speaker.id sp)); reflexivity.
Qed.

Lemma mapM_slots_normal (g : option Speaker.t -> string -> option Speaker.t)
  (l : list (option Speaker.t)) :
  Forall (fun s => s <> None) l ->
  exists l',
    mapM (fun s => bind (slot_id s) (fun sid => Normal (g s sid))) l
    = Normal l'.
Proof.
  induction 1 as [|s l Hs Hl [l' IH]]; simpl.
  - eexists. reflexivity.
  - destruct s as [sp|]; [|congruence]. simpl. rewrite IH. simpl.
    eexists. reflexivity.
Qed.

(** On a roster without [undefined], every operation completes. *)
Lemma run_completes (op : Op) (st : ProjectState) :
  Forall (fun s => s <> None) (speakers st) ->
  exists st1, run op st = Normal st1.
Proof.
  intros Hroster. destruct op; simpl; try (eexists; reflexivity).
  - unfold updateSpeaker.
    destruct (mapM_slots_normal
                (fun s sid =>
                   if String.eqb sid id
                   then option_map (fun sp => Speaker.spread sp updates) s
                   else s) _ Hroster) as [l' Hl'].
    rewrite Hl'. simpl. eexists. reflexivity.
  - unfold deleteSpeaker.
    rewrite (filterM_slots_normal (fun sid => negb (String.eqb sid id))
               _ Hroster).
    simpl. eexists. reflexivity.
  - unfold mergeSpeakers.
    rewrite (filterM_slots_normal (fun sid => negb (String.eqb sid fromId))
               _ Hroster).
    simpl. eexists. reflexivity.
Qed.

Lemma run_history (op : Op) (st st1 : ProjectState) :
  run op st = Normal st1 ->
  past st1 = (past st ++ [snapshot st])%list /\ future st1 = [].
Proof.
  destruct op; simpl; intros H.
  - inversion H; subst; simpl; auto.
  - inversion H; subst; simpl; auto.
  - inversion H; subst; simpl; auto.
  - inversion H; subst; simpl; auto.
  - unfold updateSpeaker in H.
    destruct (mapM _ (speakers st)); simpl in H; [|discriminate].
    inversion H; subst; simpl; auto.
  - unfold deleteSpeaker in H.
    destruct (filterM _ (speakers st)); simpl in H; [|discriminate].
    inversion H; subst; simpl; auto.
  - unfold mergeSpeakers in H.
    destruct (filterM _ (speakers st)); simpl in H; [|discriminate].
    inversion H; subst; simpl; auto.
  - inversion H; subst. unfold reorderSpeakers.
    destruct (splice (speakers st) fromIndex 1 []); simpl; auto.
Qed.

Lemma undo_after_push (st1 : ProjectState) (ps : list HistoryEntry)
  (e : HistoryEntry) :
  past st1 = (ps ++ [e])%list ->
  segments (undo st1) = h_segments e /\
  speakers (undo st1) = h_speakers e /\
  past (undo st1) = ps /\
  future (undo st1) = snapshot st1 :: future st1.
Proof.
  intros Hp. unfold undo. rewrite Hp, rev_app_distr. simpl.
  rewrite removelast_last. auto.
Qed.

End StoreFacts.

(** C2.  For every store state and every mutating operation X
    ([addSegment], [updateSegment], [deleteSegment], [updateSpeaker],
    [deleteSpeaker], [mergeSpeakers], [reorderSpeakers], [setProjectData]):
    X completes when the roster holds no [undefined]; and whenever X
    completes, [undo] after X restores exactly the (segments, speakers) pair
    from before X, [redo] after that restores exactly the pair X produced,
    and a mutating operation performed after the [undo] leaves the redo
    stack empty, so that [canRedo] is false. *)
Theorem undo_redo_round_trip
  (st : ProjectStore.ProjectState) (op : ProjectStore.Op) :
  (Forall (fun s => s <> None) (ProjectStore.speakers st) ->
   exists st1, ProjectStore.run op st = JS.Normal st1) /\
  forall st1,
    ProjectStore.run op st = JS.Normal st1 ->
    ProjectStore.segments (ProjectStore.undo st1) = ProjectStore.segments st /\
    ProjectStore.speakers (ProjectStore.undo st1) = ProjectStore.speakers st /\
    ProjectStore.segments (ProjectStore.redo (ProjectStore.undo st1))
    = ProjectStore.segments st1 /\
    ProjectStore.speakers (ProjectStore.redo (ProjectStore.undo st1))
    = ProjectStore.speakers st1 /\
    (forall op' st2,
        ProjectStore.run op' (ProjectStore.undo st1) = JS.Normal st2 ->
        ProjectStore.future st2 = [] /\ ProjectStore.canRedo st2 = false).
Proof.
  split; [apply run_completes|].
  intros st1 Hrun.
  destruct (run_history _ _ _ Hrun) as [Hpast Hfut].
  destruct (undo_after_push _ _ _ Hpast) as (Hs & Hk & _ & Hf).
  split; [exact Hs|]. split; [exact Hk|].
  split; [|split].
  - unfold ProjectStore.redo. rewrite Hf. reflexivity.
  - unfold ProjectStore.redo. rewrite Hf. reflexivity.
  - intros op' st2 H. destruct (run_history _ _ _ H) as [_ H2].
    split; [exact H2|].
    unfold ProjectStore.canRedo. rewrite H2. reflexivity.
Qed.

Lemma undo_redo_round_trip_witness :
  let st := one_segment_state in
  let updates :=
    Segment.mkPartial None None None None (Some "Changed"%string) in
  let st1 := ProjectStore.updateSegment "1" updates st in
  Forall (fun s => s <> None) (ProjectStore.speakers st) /\
  ProjectStore.run (ProjectStore.UpdateSegment "1" updates) st
  = JS.Normal st1 /\
  ProjectStore.segments (ProjectStore.undo st1) = ProjectStore.segments st /\
  ProjectStore.segments (ProjectStore.redo (ProjectStore.undo st1))
  = ProjectStore.segments st1.
Proof.
  cbv zeta.
  split; [simpl; repeat constructor; discriminate|].
  split; [reflexivity|].
  pose proof (proj2 (undo_redo_round_trip one_segment_state
                       (ProjectStore.UpdateSegment "1"
                          (Segment.mkPartial None None None None
                             (Some "Changed"%string)))) _ eq_refl)
    as (H1 & _ & H3 & _).
  split; [exact H1|exact H3].
Defined.

(** ** mergeSpeakers *)

(** C6, as the code has it.  For every store state whose roster holds no
    [undefined] and all speaker ids A and B with A different from B:
    [mergeSpeakers(A, B)] completes; afterwards no segment has speakerId A,
    every segment that had speakerId A has speakerId B with its other fields
    unchanged, every other segment is unchanged, and the roster is the prior
    roster without the speakers whose id is A. *)
Theorem mergeSpeakers_distinct
  (st : ProjectStore.ProjectState) (A B : string) :
  Forall (fun s => s <> None) (ProjectStore.speakers st) ->
  A <> B ->
  exists st',
    ProjectStore.mergeSpeakers A B st = JS.Normal st' /\
    Forall (fun s => Segment.speakerId s <> A) (ProjectStore.segments st') /\
    Forall2 (reassigned A B)
      (ProjectStore.segments st) (ProjectStore.segments st') /\
    ProjectStore.speakers st' = roster_without A (ProjectStore.speakers st).
Proof.
  intros Hroster HAB.
  unfold ProjectStore.mergeSpeakers.
  rewrite (filterM_slots_normal
             (fun sid => negb (String.eqb sid A)) _ Hroster).
  simpl. eexists. split; [reflexivity|]. simpl.
  split; [|split; [|reflexivity]].
  - apply Forall_forall. intros s' Hin.
    apply in_map_iff in Hin. destruct Hin as (s & <- & _).
    destruct (String.eqb_spec (Segment.speakerId s) A) as [E|E]; simpl.
    + congruence.
    + exact E.
  - induction (ProjectStore.segments st) as [|s l IH]; simpl; constructor.
    + unfold reassigned.
      destruct (String.eqb_spec (Segment.speakerId s) A) as [E|E];
        split; intros; try congruence; reflexivity.
    + exact IH.
Qed.

Lemma mergeSpeakers_distinct_witness :
  exists st',
    ProjectStore.mergeSpeakers "speaker_2" "speaker_1" two_speaker_state
    = JS.Normal st' /\
    Forall (fun s => Segment.speakerId s <> "speaker_2"%string)
      (ProjectStore.segments st') /\
    Forall2 (reassigned "speaker_2" "speaker_1")
      (ProjectStore.segments two_speaker_state)
      (ProjectStore.segments st') /\
    ProjectStore.speakers st'
    = roster_without "speaker_2" (ProjectStore.speakers two_speaker_state) /\
    map Segment.speakerId (ProjectStore.segments two_speaker_state)
    = ["speaker_1"; "speaker_2"]%string /\
    map Segment.speakerId (ProjectStore.segments st')
    = ["speaker_1"; "speaker_1"]%string.
Proof.
  destruct (mergeSpeakers_distinct two_speaker_state "speaker_2" "speaker_1")
    as (st' & Hrun & Hnone & Hsegs & Hroster).
  - simpl. repeat constructor; discriminate.
  - discriminate.
  - exists st'.
    split; [exact Hrun|]. split; [exact Hnone|]. split; [exact Hsegs|].
    split; [exact Hroster|]. split; [reflexivity|].
    vm_compute in Hrun. injection Hrun as <-. reflexivity.
Defined.

(** C6 fails when a speaker is merged into itself: the segment of speaker_1
    still has speakerId speaker_1 after [mergeSpeakers(speaker_1, speaker_1)],
    while speaker_1 has left the roster. *)
Lemma mergeSpeakers_self_keeps_reference :
  exists st',
    ProjectStore.mergeSpeakers "speaker_1" "speaker_1" one_segment_state
    = JS.Normal st' /\
    ~ Forall (fun s => Segment.speakerId s <> "speaker_1"%string)
        (ProjectStore.segments st').
Proof.
  eexists. split; [reflexivity|]. simpl.
  intros H. inversion H as [|s l Hs _]; subst. apply Hs. reflexivity.
Qed.

(** ** Operations on an id that matches no segment *)

(** C8 fails as stated: [updateSegment] and [deleteSegment] on an id that
    matches no segment still change the store: they push a history entry, so
    that undo becomes available. *)
Lemma unmatched_id_changes_store :
  ProjectStore.updateSegment "missing" Segment.no_updates
    ProjectStore.initialState <> ProjectStore.initialState /\
  ProjectStore.deleteSegment "missing" ProjectStore.initialState
  <> ProjectStore.initialState /\
  ProjectStore.canUndo ProjectStore.initialState = false /\
  ProjectStore.canUndo
    (ProjectStore.updateSegment "missing" Segment.no_updates
       ProjectStore.initialState) = true /\
  ProjectStore.canUndo
    (ProjectStore.deleteSegment "missing" ProjectStore.initialState) = true.
Proof.
  repeat split; try reflexivity; intros H;
    apply (f_equal ProjectStore.past) in H; discriminate H.
Qed.

Lemma map_unmatched (id : string) (u : Segment.partial) (l : list Segment.t) :
  Forall (fun s => Segment.id s <> id) l ->
  map (fun s => if String.eqb (Segment.id s) id
                then Segment.spread s u else s) l = l.
Proof.
  induction 1 as [|s l Hs _ IH]; simpl; [reflexivity|].
  rewrite IH. destruct (String.eqb_spec (Segment.id s) id); congruence.
Qed.

Lemma filter_unmatched (id : string) (l : list Segment.t) :
  Forall (fun s => Segment.id s <> id) l ->
  filter (fun s => negb (String.eqb (Segment.id s) id)) l = l.
Proof.
  induction 1 as [|s l Hs _ IH]; simpl; [reflexivity|].
  rewrite IH. destruct (String.eqb_spec (Segment.id s) id); simpl; congruence.
Qed.

(** C8, as the code has it.  For every store state and every id that matches
    no stored segment, [updateSegment(id, updates)] and [deleteSegment(id)]
    return without throwing and leave the segments, the speakers and every
    field outside the history unchanged, except that [deleteSegment] clears
    the selection when the selected id is [id]; both push the current
    (segments, speakers) snapshot onto [past] and empty [future]. *)
Theorem unmatched_id_keeps_project
  (st : ProjectStore.ProjectState) (id : string) (updates : Segment.partial) :
  Forall (fun s => Segment.id s <> id) (ProjectStore.segments st) ->
  (same_project st (ProjectStore.updateSegment id updates st) /\
   history_pushed st (ProjectStore.updateSegment id updates st) /\
   ProjectStore.selectedSegmentId (ProjectStore.updateSegment id updates st)
   = ProjectStore.selectedSegmentId st) /\
  (same_project st (ProjectStore.deleteSegment id st) /\
   history_pushed st (ProjectStore.deleteSegment id st) /\
   ProjectStore.selectedSegmentId (ProjectStore.deleteSegment id st)
   = if ProjectStore.option_string_eqb (ProjectStore.selectedSegmentId st) id
     then None else ProjectStore.selectedSegmentId st).
Proof.
  intros Hun. unfold same_project, history_pushed. simpl.
  rewrite (map_unmatched id updates _ Hun), (filter_unmatched id _ Hun).
  repeat split; reflexivity.
Qed.

Lemma unmatched_id_keeps_project_witness :
  same_project one_segment_state
    (ProjectStore.updateSegment "missing" Segment.no_updates
       one_segment_state) /\
  same_project one_segment_state
    (ProjectStore.deleteSegment "missing" one_segment_state).
Proof.
  assert (H : Forall (fun s => Segment.id s <> "missing"%string)
                (ProjectStore.segments one_segment_state)).
  { simpl. repeat constructor. discriminate. }
  split.
  - exact (proj1 (proj1 (unmatched_id_keeps_project one_segment_state
                           "missing" Segment.no_updates H))).
  - exact (proj1 (proj2 (unmatched_id_keeps_project one_segment_state
                           "missing" Segment.no_updates H))).
Defined.

(* ================================================================== *)
(** * The snap resolver                                                *)
(* ================================================================== *)

(** C3.  For every time, target list and snap configuration, [snapTime] is
    the result of [snapToEdge] whenever that result reports [snapped], and
    otherwise the grid-snapped time with [snapped = false].  With targets
    [2, 4, 6], grid interval 0.5 and edge threshold 0.2, [snapTime(1.9)] is
    [{time: 2, snapped: true}] and [snapTime(3.2)] is
    [{time: 3, snapped: false}]. *)
Theorem snapTime_edge_before_grid :
  (forall (t : JS.num) (targets : list JS.num)
          (config : TimelineUtils.SnapConfig),
      TimelineUtils.snapTime t targets config
      = let edge :=
          TimelineUtils.snapToEdge t targets
            (TimelineUtils.edgeThreshold config)
            (TimelineUtils.edgeEnabled config) in
        if TimelineUtils.snapped edge then edge
        else {| TimelineUtils.time :=
                  TimelineUtils.snapToGrid t
                    (TimelineUtils.gridInterval config)
                    (TimelineUtils.gridEnabled config);
                TimelineUtils.snapped := false |}) /\
  TimelineUtils.snapTime (JS.Fin (19 # 10))
    [JS.of_Z 2; JS.of_Z 4; JS.of_Z 6] TimelineUtils.DEFAULT_SNAP_CONFIG
  = {| TimelineUtils.time := JS.of_Z 2; TimelineUtils.snapped := true |} /\
  TimelineUtils.snapTime (JS.Fin (32 # 10))
    [JS.of_Z 2; JS.of_Z 4; JS.of_Z 6] TimelineUtils.DEFAULT_SNAP_CONFIG
  = {| TimelineUtils.time := JS.of_Z 3; TimelineUtils.snapped := false |}.
Proof.
  split; [|split].
  - intros t targets config. reflexivity.
  - vm_compute. reflexivity.
  - vm_compute. reflexivity.
Qed.

Section EdgeScan.
Import JS TimelineUtils.
Variables t thr : num.

Lemma scan_inv_step (l : list num) (st : num * num) (x : num) :
  scan_inv t thr l st ->
  scan_inv t thr (l ++ [x]) (snapToEdge_step t st x).
Proof.
  destruct st as [c m]. unfold snapToEdge_step.
  fold (distance t x).
  intros [[Hnone Hst] | [Hfc Hm]].
  - inversion Hst; subst c m.
    destruct (ltb (distance t x) thr) eqn:E.
    + right. simpl. split; [|reflexivity].
      exists l, []. repeat split.
      * exact E.
      * intros y Hy Hr. apply in_app_or in Hy. destruct Hy as [Hy|[<-|[]]].
        -- rewrite Forall_forall in Hnone. rewrite (Hnone _ Hy) in Hr.
           discriminate.
        -- exact (ltb_leb_refl _ _ E).
      * intros y Hy. rewrite Forall_forall in Hnone.
        specialize (Hnone _ Hy). unfold in_range in Hnone.
        destruct (leb (distance t y) (distance t x)) eqn:L; [|reflexivity].
        rewrite (leb_ltb_trans _ _ _ L E) in Hnone. discriminate.
    + left. split; [|reflexivity].
      apply Forall_app. split; [exact Hnone|]. repeat constructor. exact E.
  - simpl in Hfc, Hm. subst m.
    destruct Hfc as (pre & post & Hl & Hr & Hmin & Hpre).
    unfold in_range in Hr.
    destruct (ltb (distance t x) (distance t c)) eqn:E.
    + right. simpl. split; [|reflexivity].
      pose proof (ltb_trans _ _ _ E Hr) as Hx.
      exists l, []. repeat split.
      * exact Hx.
      * intros y Hy Hry. apply in_app_or in Hy. destruct Hy as [Hy|[<-|[]]].
        -- apply ltb_leb. exact (ltb_leb_trans _ _ _ E (Hmin _ Hy Hry)).
        -- exact (ltb_leb_refl _ _ E).
      * intros y Hy.
        destruct (leb (distance t y) (distance t x)) eqn:L; [|reflexivity].
        pose proof (leb_ltb_trans _ _ _ L Hx) as Hry.
        pose proof (Hmin _ Hy Hry) as Hcy.
        pose proof (ltb_leb_trans _ _ _ E Hcy) as Hxy.
        rewrite (ltb_not_leb _ _ Hxy) in L. discriminate.
    + right. simpl. split; [|reflexivity].
      exists pre, (post ++ [x])%list. repeat split.
      * rewrite Hl, <- app_assoc. reflexivity.
      * exact Hr.
      * intros y Hy Hry. apply in_app_or in Hy. destruct Hy as [Hy|[<-|[]]].
        -- exact (Hmin _ Hy Hry).
        -- exact (not_ltb_leb _ _ _ _ E Hry Hr).
      * exact Hpre.
Qed.

Lemma scan_inv_fold (rest l : list num) (st : num * num) :
  scan_inv t thr l st ->
  scan_inv t thr (l ++ rest) (fold_left (snapToEdge_step t) rest st).
Proof.
  revert l st. induction rest as [|x rest IH]; intros l st H; simpl.
  - rewrite app_nil_r. exact H.
  - replace (l ++ x :: rest)%list with ((l ++ [x]) ++ rest)%list
      by (rewrite <- app_assoc; reflexivity).
    apply IH, scan_inv_step, H.
Qed.

Lemma scan_inv_all (targets : list num) :
  scan_inv t thr targets (fold_left (snapToEdge_step t) targets (t, thr)).
Proof.
  apply (scan_inv_fold targets [] (t, thr)).
  left. split; [constructor|reflexivity].
Qed.

End EdgeScan.

(** C4.  For every enabled [snapToEdge] call with a non-empty target list:
    [snapped] is true exactly when the returned time differs ([!==]) from the
    input; when no target is at a distance strictly below the threshold (a
    distance equal to the threshold is not below it) the input time is
    returned; otherwise the returned time is, in list order, the first of the
    targets whose distance to the input is least among the targets at a
    distance strictly below the threshold.  With targets [1, 3, 5, 10] and
    threshold 0.2, input 1.1 gives [{time: 1, snapped: true}] and input 1.3
    gives [{time: 1.3, snapped: false}]. *)
Theorem snapToEdge_first_closest :
  (forall (t thr : JS.num) (targets : list JS.num),
      targets <> [] ->
      let r := TimelineUtils.snapToEdge t targets thr true in
      (TimelineUtils.snapped r = true
       <-> JS.eqb (TimelineUtils.time r) t = false) /\
      (Forall (fun x => in_range t thr x = false) targets ->
       TimelineUtils.time r = t) /\
      (Exists (fun x => in_range t thr x = true) targets ->
       first_closest t thr targets (TimelineUtils.time r))) /\
  TimelineUtils.snapToEdge (JS.Fin (11 # 10))
    [JS.of_Z 1; JS.of_Z 3; JS.of_Z 5; JS.of_Z 10] (JS.Fin (2 # 10)) true
  = {| TimelineUtils.time := JS.of_Z 1; TimelineUtils.snapped := true |} /\
  TimelineUtils.snapToEdge (JS.Fin (13 # 10))
    [JS.of_Z 1; JS.of_Z 3; JS.of_Z 5; JS.of_Z 10] (JS.Fin (2 # 10)) true
  = {| TimelineUtils.time := JS.Fin (13 # 10);
       TimelineUtils.snapped := false |}.
Proof.
  split; [|split; vm_compute; reflexivity].
  intros t thr targets Hne r. subst r.
  unfold TimelineUtils.snapToEdge.
  destruct targets as [|x0 rest]; [congruence|].
  cbn [negb orb List.length Nat.eqb].
  pose proof (scan_inv_all t thr (x0 :: rest)) as Hinv.
  destruct (fold_left (TimelineUtils.snapToEdge_step t) (x0 :: rest) (t, thr))
    as [c m] eqn:Efold.
  cbn [TimelineUtils.time TimelineUtils.snapped].
  split; [|split].
  - unfold JS.neb. destruct (JS.eqb c t); simpl; split; congruence.
  - intros Hnone. destruct Hinv as [[_ Hst] | [Hfc _]].
    + congruence.
    + destruct Hfc as (pre & post & Hl & Hr & _). simpl in Hl, Hr.
      rewrite Forall_forall in Hnone.
      rewrite (Hnone c) in Hr; [discriminate|].
      rewrite Hl. apply in_or_app. right. left. reflexivity.
  - intros Hsome. destruct Hinv as [[Hnone _] | [Hfc _]].
    + apply Exists_exists in Hsome. destruct Hsome as (x & Hx & Hr).
      rewrite Forall_forall in Hnone. rewrite (Hnone _ Hx) in Hr.
      discriminate.
    + exact Hfc.
Qed.

Lemma snapToEdge_first_closest_witness :
  let t := JS.Fin (11 # 10) in
  let thr := JS.Fin (2 # 10) in
  let targets := [JS.of_Z 1; JS.of_Z 3; JS.of_Z 5; JS.of_Z 10] in
  targets <> [] /\
  first_closest t thr targets
    (TimelineUtils.time (TimelineUtils.snapToEdge t targets thr true)).
Proof.
  split; [discriminate|].
  refine (proj2 (proj2 (proj1 snapToEdge_first_closest
                          (JS.Fin (11 # 10)) (JS.Fin (2 # 10))
                          [JS.of_Z 1; JS.of_Z 3; JS.of_Z 5; JS.of_Z 10] _)) _).
  - discriminate.
  - apply Exists_cons_hd. vm_compute. reflexivity.
Defined.

Section OwnEdge.
Import JS TimelineUtils.

Lemma distance_lt_pos (t x m : num) :
  ltb (distance t x) m = true -> ltb (Fin 0) m = true.
Proof.
  unfold distance. destruct t as [| | |a], x as [| | |b], m as [| | |c];
    simpl; try discriminate; try reflexivity.
  intros H. q_bools.
  pose proof (Qred_correct (Qabs (Qred (a - b)))) as E.
  pose proof (Qabs_nonneg (Qred (a - b))). lra.
Qed.

Lemma distance_finite (t x m : num) :
  ltb (distance t x) m = true -> isFinite (distance t x) = true.
Proof.
  unfold distance. destruct t, x, m; simpl; try discriminate; reflexivity.
Qed.

Lemma distance_to_equal (q : Q) (x m : num) :
  eqb x (Fin q) = true ->
  ltb (distance (Fin q) x) m = ltb (Fin 0) m.
Proof.
  destruct x as [| | |b]; simpl; try discriminate. intros E. q_bools.
  assert (Z : Qred (Qabs (Qred (q - b))) == 0).
  { rewrite Qred_correct, Qred_correct, E.
    setoid_replace (q - q) with 0 by ring. reflexivity. }
  destruct m as [| | |c]; simpl; try reflexivity.
  f_equal. apply Qleb_comp; [reflexivity|exact Z].
Qed.

Lemma distance_zero_equal (q : Q) (c : num) :
  isFinite (distance (Fin q) c) = true ->
  ltb (Fin 0) (distance (Fin q) c) = false ->
  eqb c (Fin q) = true.
Proof.
  destruct c as [| | |b]; simpl; try discriminate. intros _ H. q_bools.
  rewrite Qred_correct, Qred_correct in H.
  revert H. apply Qabs_case; intros; lra.
Qed.

(** Once a target equal to the input has been scanned, or when the
    threshold is not positive, the scan ends on a time equal to the input. *)
Lemma own_edge_fold (q : Q) (targets : list num) (c m : num) :
  eqb c (Fin q) = true
  \/ (m = distance (Fin q) c /\ isFinite m = true) ->
  ltb (Fin 0) m = false
  \/ Exists (fun x => eqb x (Fin q) = true) targets ->
  eqb (fst (fold_left (snapToEdge_step (Fin q)) targets (c, m))) (Fin q)
  = true.
Proof.
  revert c m. induction targets as [|x rest IH]; intros c m Hc Hm.
  - simpl. destruct Hm as [Hm|Hm]; [|inversion Hm].
    destruct Hc as [Hc|[Hc Hf]]; [exact Hc|]. subst m.
    apply distance_zero_equal; assumption.
  - cbn [fold_left]. unfold snapToEdge_step at 2.
    fold (distance (Fin q) x).
    destruct (ltb (distance (Fin q) x) m) eqn:E.
    + apply IH.
      * right. split; [reflexivity|]. exact (distance_finite _ _ _ E).
      * destruct Hm as [Hm|Hm].
        -- rewrite (distance_lt_pos _ _ _ E) in Hm. discriminate.
        -- inversion Hm as [? ? Hx|? ? Hx]; subst; [|right; exact Hx].
           left. rewrite <- (distance_to_equal q x _ Hx).
           destruct (distance (Fin q) x); simpl in *; try reflexivity.
           q_bools. lra.
    + apply IH; [exact Hc|].
      destruct Hm as [Hm|Hm]; [left; exact Hm|].
      inversion Hm as [? ? Hx|? ? Hx]; subst; [|right; exact Hx].
      left. rewrite <- (distance_to_equal q x _ Hx). exact E.
Qed.

Lemma infinite_input_fold (t : num) (targets : list num) (c m : num) :
  t = PInf \/ t = NInf ->
  fold_left (snapToEdge_step t) targets (c, m) = (c, m).
Proof.
  intros Ht. induction targets as [|x rest IH]; [reflexivity|].
  cbn [fold_left]. unfold snapToEdge_step at 2.
  replace (ltb (Math_abs (sub t x)) m) with false; [exact IH|].
  destruct Ht; subst t; destruct x, m; reflexivity.
Qed.

Lemma own_edge_scan (t thr : num) (targets : list num) :
  Exists (fun x => eqb x t = true) targets ->
  eqb (fst (fold_left (snapToEdge_step t) targets (t, thr))) t = true.
Proof.
  intros Hex. destruct t as [| | |q].
  - apply Exists_exists in Hex. destruct Hex as (x & _ & Hx).
    destruct x; discriminate.
  - rewrite infinite_input_fold by auto. reflexivity.
  - rewrite infinite_input_fold by auto. reflexivity.
  - apply own_edge_fold; [|right; exact Hex].
    left. simpl. apply Qeq_bool_refl.
Qed.

End OwnEdge.

(** C10.  For every enabled [snapToEdge] call whose target list contains the
    input time: the returned time equals the input and [snapped] is false, so
    [snapTime] returns the grid-snapped time with [snapped = false].  That
    time can differ from the input: 2.3, with 2.3 among the targets and grid
    interval 0.5, gives 2.5. *)
Theorem snapTime_on_own_edge :
  (forall (t : JS.num) (targets : list JS.num)
          (config : TimelineUtils.SnapConfig),
      TimelineUtils.edgeEnabled config = true ->
      Exists (fun x => JS.eqb x t = true) targets ->
      let r :=
        TimelineUtils.snapToEdge t targets
          (TimelineUtils.edgeThreshold config) true in
      JS.eqb (TimelineUtils.time r) t = true /\
      TimelineUtils.snapped r = false /\
      TimelineUtils.snapTime t targets config
      = {| TimelineUtils.time :=
             TimelineUtils.snapToGrid t (TimelineUtils.gridInterval config)
               (TimelineUtils.gridEnabled config);
           TimelineUtils.snapped := false |}) /\
  TimelineUtils.snapTime (JS.Fin (23 # 10))
    [JS.of_Z 2; JS.Fin (23 # 10); JS.of_Z 4]
    TimelineUtils.DEFAULT_SNAP_CONFIG
  = {| TimelineUtils.time := JS.Fin (5 # 2);
       TimelineUtils.snapped := false |} /\
  JS.eqb (JS.Fin (5 # 2)) (JS.Fin (23 # 10)) = false.
Proof.
  split; [|split; vm_compute; reflexivity].
  intros t targets config Hen Hex r.
  assert (Hr : JS.eqb (TimelineUtils.time r) t = true
               /\ TimelineUtils.snapped r = false).
  { subst r. unfold TimelineUtils.snapToEdge.
    destruct targets as [|x0 rest]; [inversion Hex|].
    cbn [negb orb List.length Nat.eqb].
    pose proof (own_edge_scan t (TimelineUtils.edgeThreshold config) _ Hex) as H.
    destruct (fold_left (TimelineUtils.snapToEdge_step t) (x0 :: rest)
                (t, TimelineUtils.edgeThreshold config)) as [c m].
    simpl in H. cbn [TimelineUtils.time TimelineUtils.snapped].
    unfold JS.neb. rewrite H. split; reflexivity. }
  destruct Hr as [Ht Hs]. split; [exact Ht|]. split; [exact Hs|].
  unfold TimelineUtils.snapTime. rewrite Hen. fold r. rewrite Hs.
  reflexivity.
Qed.

Lemma snapTime_on_own_edge_witness :
  let t := JS.Fin (23 # 10) in
  let targets := [JS.of_Z 2; JS.Fin (23 # 10); JS.of_Z 4] in
  Exists (fun x => JS.eqb x t = true) targets /\
  TimelineUtils.snapped
    (TimelineUtils.snapToEdge t targets
       (TimelineUtils.edgeThreshold TimelineUtils.DEFAULT_SNAP_CONFIG) true)
  = false.
Proof.
  assert (H : Exists (fun x => JS.eqb x (JS.Fin (23 # 10)) = true)
                [JS.of_Z 2; JS.Fin (23 # 10); JS.of_Z 4]).
  { apply Exists_cons_tl, Exists_cons_hd. reflexivity. }
  split; [exact H|].
  exact (proj1 (proj2 (proj1 snapTime_on_own_edge (JS.Fin (23 # 10))
                         [JS.of_Z 2; JS.Fin (23 # 10); JS.of_Z 4]
                         TimelineUtils.DEFAULT_SNAP_CONFIG eq_refl H))).
Defined.

(* ================================================================== *)
(** * The time codec                                                   *)
(* ================================================================== *)

(** C7.  [parseTime] is a total function: for every input string it returns
    a number (no call throws).  Whenever the string does not split on ":"
    into exactly two parts, or [parseInt] of the first part or [parseFloat]
    of the second part is [NaN], it returns 0. *)
Theorem parseTime_malformed_is_zero (s : string) :
  (exists v : JS.num, Utils.parseTime s = v) /\
  (List.length (JS.split ":" s) <> 2%nat \/
   (exists a b, JS.split ":" s = [a; b] /\
                (JS.isNaN (JS.parseInt a) = true
                 \/ JS.isNaN (JS.parseFloat b) = true)) ->
   Utils.parseTime s = JS.Fin 0).
Proof.
  split; [eexists; reflexivity|].
  unfold Utils.parseTime.
  intros [Hlen | (a & b & Hsplit & Hnan)].
  - destruct (JS.split ":" s) as [|p0 [|p1 [|p2 l]]]; simpl in Hlen;
      try reflexivity. congruence.
  - rewrite Hsplit.
    destruct Hnan as [H|H]; rewrite H; [reflexivity|].
    rewrite orb_true_r. reflexivity.
Qed.

Lemma parseTime_malformed_is_zero_witness :
  List.length (JS.split ":" "invalid") <> 2%nat /\
  JS.split ":" "12:xx" = ["12"; "xx"]%string /\
  JS.isNaN (JS.parseFloat "xx") = true /\
  Utils.parseTime "invalid" = JS.Fin 0 /\
  Utils.parseTime "12:xx" = JS.Fin 0.
Proof.
  assert (H1 : List.length (JS.split ":" "invalid") <> 2%nat)
    by (vm_compute; discriminate).
  assert (H2 : JS.split ":" "12:xx" = ["12"; "xx"]%string) by reflexivity.
  assert (H3 : JS.isNaN (JS.parseFloat "xx") = true) by reflexivity.
  split; [exact H1|]. split; [exact H2|]. split; [exact H3|]. split.
  - exact (proj2 (parseTime_malformed_is_zero "invalid") (or_introl H1)).
  - exact (proj2 (parseTime_malformed_is_zero "12:xx")
             (or_intror (ex_intro _ "12"%string
                (ex_intro _ "xx"%string (conj H2 (or_intror H3)))))).
Defined.

(** ** Arithmetic on integer values *)

Section IntegerValues.
Import JS.
Local Open Scope Z_scope.

Lemma Qred_inject_Z (z : Z) : Qred (inject_Z z) = inject_Z z.
Proof.
  unfold Qred, inject_Z.
  pose proof (Z.ggcd_gcd z 1) as Hg.
  pose proof (Z.ggcd_correct_divisors z 1) as Hd.
  destruct (Z.ggcd z 1) as [g [aa bb]]. cbn [fst snd] in *.
  rewrite Z.gcd_1_r in Hg. subst g. destruct Hd as [Ha Hb].
  rewrite Z.mul_1_l in Ha, Hb. subst aa bb. reflexivity.
Qed.

Lemma Fin_Qred_Z (q : Q) (z : Z) :
  (q == inject_Z z)%Q -> Fin (Qred q) = of_Z z.
Proof.
  intros H. unfold of_Z. rewrite (Qred_complete _ _ H), Qred_inject_Z.
  reflexivity.
Qed.

Lemma Qis_zero_inject_Z (z : Z) : z <> 0 -> Qis_zero (inject_Z z) = false.
Proof.
  intros Hz. unfold Qis_zero. destruct (Qeq_bool (inject_Z z) 0) eqn:E;
    [|reflexivity].
  apply Qeq_bool_iff in E. unfold Qeq, inject_Z in E. simpl in E. lia.
Qed.

Lemma add_of_Z (a b : Z) : add (of_Z a) (of_Z b) = of_Z (a + b).
Proof.
  unfold of_Z at 1 2. cbn [add]. apply Fin_Qred_Z.
  rewrite inject_Z_plus. reflexivity.
Qed.

Lemma mul_of_Z (a b : Z) : mul (of_Z a) (of_Z b) = of_Z (a * b).
Proof.
  unfold of_Z at 1 2. cbn [mul]. apply Fin_Qred_Z.
  rewrite inject_Z_mult. reflexivity.
Qed.

Lemma div_of_Z_exact (a b : Z) :
  b <> 0 -> div (of_Z (a * b)) (of_Z b) = of_Z a.
Proof.
  intros Hb. unfold of_Z at 1 2. cbn [div].
  rewrite (Qis_zero_inject_Z b Hb). apply Fin_Qred_Z.
  rewrite inject_Z_mult. field.
  intros C. apply (Qis_zero_inject_Z b) in Hb. unfold Qis_zero in Hb.
  rewrite (Qeq_eq_bool _ _ C) in Hb. discriminate.
Qed.

Lemma floor_div_of_Z (a b : Z) :
  b <> 0 -> Math_floor (div (of_Z a) (of_Z b)) = of_Z (a / b).
Proof.
  intros Hb. unfold of_Z at 1 2. cbn [div].
  rewrite (Qis_zero_inject_Z b Hb). cbn [Math_floor]. f_equal.
  rewrite (Qfloor_comp _ _ (Qred_correct _)). symmetry. apply Zdiv_Qdiv.
Qed.

Lemma rem_of_Z (a b : Z) :
  0 <= a -> 0 < b -> rem (of_Z a) (of_Z b) = of_Z (a mod b).
Proof.
  intros Ha Hb. unfold of_Z at 1 2. cbn [rem].
  rewrite (Qis_zero_inject_Z b) by lia. apply Fin_Qred_Z.
  assert (Hq : Qtrunc (inject_Z a / inject_Z b) = a / b).
  { unfold Qtrunc.
    replace (Qle_bool 0 (inject_Z a / inject_Z b)) with true.
    - symmetry. apply Zdiv_Qdiv.
    - symmetry. apply Qle_bool_iff.
      apply Qle_shift_div_l.
      + change 0%Q with (inject_Z 0). rewrite <- Zlt_Qlt. exact Hb.
      + rewrite Qmult_0_l. change 0%Q with (inject_Z 0).
        rewrite <- Zle_Qle. exact Ha. }
  rewrite Hq. rewrite (Z.mod_eq a b) by lia.
  unfold Zminus. rewrite inject_Z_plus, inject_Z_opp, inject_Z_mult. ring.
Qed.

Lemma Qfloor_half (z : Z) : Qfloor (inject_Z z + (1 # 2)) = z.
Proof.
  unfold Qfloor, Qplus, inject_Z. cbn [Qnum Qden].
  change (Z.pos (1 * 2)) with 2.
  replace (z * 2 + 1 * 1) with (1 + z * 2) by ring.
  rewrite Z.div_add by lia. reflexivity.
Qed.

Lemma round_of_Z (z : Z) : Math_round (of_Z z) = of_Z z.
Proof.
  unfold of_Z at 1. cbn [Math_round]. f_equal. apply Qfloor_half.
Qed.

Lemma eqb_of_Z_refl (z : Z) : eqb (of_Z z) (of_Z z) = true.
Proof. apply Qeq_bool_refl. Qed.

End IntegerValues.

(** ** formatTime on whole seconds *)

Section FormatWhole.
Import JS.
Local Open Scope Z_scope.

Lemma toString_of_Z (m : Z) :
  0 <= m -> toString (of_Z m) = nat_toString (Z.to_N m).
Proof.
  intros Hm. unfold toString, of_Z. rewrite Qfloor_Z.
  destruct m; try reflexivity. lia.
Qed.

Lemma toFixed_0_of_Z (s : Z) :
  0 <= s < Z.of_N ten_pow_21 ->
  toFixed (of_Z s) 0 = decimal_digits (Z.to_N s).
Proof.
  intros [Hs Hlt]. unfold toFixed, of_Z.
  replace (Qle_bool 0 (inject_Z s)) with true.
  2:{ symmetry. apply Qle_bool_iff. change 0%Q with (inject_Z 0).
      rewrite <- Zle_Qle. exact Hs. }
  change (Qabs (inject_Z s)) with (inject_Z (Z.abs s)).
  rewrite (Z.abs_eq s Hs).
  replace (Qle_bool (inject_Z (Z.of_N ten_pow_21)) (inject_Z s)) with false.
  2:{ symmetry. apply Qle_bool_false. rewrite <- Zlt_Qlt. exact Hlt. }
  change (10 ^ Z.of_nat 0) with 1.
  rewrite (Qfloor_comp (inject_Z s * inject_Z 1 + (1 # 2))
             (inject_Z s + (1 # 2))).
  2:{ change (inject_Z 1) with 1%Q. ring. }
  rewrite Qfloor_half. reflexivity.
Qed.

(** On a whole number of seconds whose minutes stay below 10^21,
    [formatTime] prints the minutes and the seconds, two digits at least
    each. *)
Lemma formatTime_whole (n : N) :
  (n / 60 < ten_pow_21)%N ->
  Utils.formatTime (of_N n)
  = (padStart (decimal_digits (n / 60)) 2 "0" ++ ":"
     ++ padStart (decimal_digits (n mod 60)) 2 "0")%string.
Proof.
  intros Hmins. unfold Utils.formatTime, of_N.
  assert (Hn : 0 <= Z.of_N n) by lia.
  assert (Hs : 0 <= Z.of_N n mod 60 < 60) by (apply Z.mod_pos_bound; lia).
  rewrite floor_div_of_Z by lia.
  rewrite rem_of_Z by lia.
  rewrite mul_of_Z, round_of_Z, div_of_Z_exact by lia.
  rewrite rem_of_Z by lia.
  rewrite Z.mod_1_r, eqb_of_Z_refl.
  rewrite toFixed_0_of_Z.
  2:{ unfold ten_pow_21. lia. }
  rewrite toString_of_Z by (apply Z.div_pos; lia).
  change 60 with (Z.of_N 60).
  rewrite <- N2Z.inj_div, <- N2Z.inj_mod, !N2Z.id.
  unfold nat_toString.
  replace (n / 60 <? ten_pow_21)%N with true
    by (symmetry; apply N.ltb_lt; exact Hmins).
  reflexivity.
Qed.

End FormatWhole.

(** ** Digit strings *)

Section DigitStrings.
Import JS.
Local Open Scope N_scope.

Lemma digit_cases (d : N) :
  d < 10 ->
  d = 0 \/ d = 1 \/ d = 2 \/ d = 3 \/ d = 4 \/ d = 5 \/ d = 6 \/ d = 7
  \/ d = 8 \/ d = 9.
Proof. lia. Qed.

Lemma digit_char_is_digit (d : N) :
  d < 10 -> is_digit (digit_char d) = true.
Proof.
  intros H. destruct (digit_cases d H) as [-> | [-> | [-> | [-> | [-> | [->
    | [-> | [-> | [-> | ->]]]]]]]]]; reflexivity.
Qed.

Lemma digit_char_value (d : N) :
  d < 10 -> N_of_ascii (digit_char d) - 48 = d.
Proof.
  intros H. destruct (digit_cases d H) as [-> | [-> | [-> | [-> | [-> | [->
    | [-> | [-> | [-> | ->]]]]]]]]]; reflexivity.
Qed.

Lemma digits_aux_all (fuel : nat) (n : N) (acc : string) :
  all_digits acc = true -> all_digits (digits_aux fuel n acc) = true.
Proof.
  revert n acc. induction fuel as [|f IH]; intros n acc Hacc; simpl.
  - exact Hacc.
  - assert (Hd : all_digits (String (digit_char (n mod 10)) acc) = true).
    { simpl. rewrite digit_char_is_digit, Hacc; [reflexivity|].
      apply N.mod_lt. discriminate. }
    destruct (n / 10 =? 0); [exact Hd|]. apply IH, Hd.
Qed.

Lemma digits_aux_S (f : nat) (n : N) (acc : string) :
  digits_aux (S f) n acc
  = if n / 10 =? 0 then String (digit_char (n mod 10)) acc
    else digits_aux f (n / 10) (String (digit_char (n mod 10)) acc).
Proof. reflexivity. Qed.

Lemma digits_aux_value (fuel : nat) (n : N) (acc : string) :
  n < 2 ^ N.of_nat fuel ->
  digits_val 0 (digits_aux (S fuel) n acc) = digits_val n acc.
Proof.
  revert n acc. induction fuel as [|f IH]; intros n acc Hn.
  - change (2 ^ N.of_nat 0) with 1 in Hn.
    assert (n = 0) by lia. subst n. reflexivity.
  - rewrite digits_aux_S.
    assert (Hdiv : n = 10 * (n / 10) + n mod 10)
      by (apply N.div_mod; discriminate).
    assert (Hmod : n mod 10 < 10) by (apply N.mod_lt; discriminate).
    destruct (n / 10 =? 0) eqn:E.
    + apply N.eqb_eq in E. cbn [digits_val].
      rewrite digit_char_value by exact Hmod.
      f_equal. lia.
    + rewrite IH.
      * cbn [digits_val]. rewrite digit_char_value by exact Hmod.
        f_equal. lia.
      * rewrite Nat2N.inj_succ, N.pow_succ_r' in Hn.
        apply N.Div0.div_lt_upper_bound. lia.
Qed.

Lemma decimal_digits_all (n : N) : all_digits (decimal_digits n) = true.
Proof. apply digits_aux_all. reflexivity. Qed.

Lemma decimal_digits_value (n : N) : digits_val 0 (decimal_digits n) = n.
Proof.
  unfold decimal_digits. rewrite digits_aux_value.
  - reflexivity.
  - rewrite N2Nat.id. apply N.size_gt.
Qed.

End DigitStrings.

(** ** Parsing digit strings *)

Section ParseDigits.
Import JS.
Local Open Scope string_scope.

Lemma digit_is_plain (c : ascii) :
  is_digit c = true ->
  is_space c = false /\ Ascii.eqb c ":" = false.
Proof.
  destruct c as [[] [] [] [] [] [] [] []]; intros H;
    try discriminate H; split; reflexivity.
Qed.

Lemma span_all_digits (s : string) :
  all_digits s = true -> span is_digit s = (s, "").
Proof.
  induction s as [|c s IH]; simpl; [reflexivity|].
  intros H. apply andb_true_iff in H. destruct H as [Hc Hs].
  rewrite Hc, (IH Hs). reflexivity.
Qed.

Lemma rev_string_twice (s a b : string) :
  rev_string a (rev_string b s) = rev_string (s ++ a) b.
Proof.
  revert a b. induction s as [|c s IH]; intros a b; simpl; [reflexivity|].
  rewrite IH. reflexivity.
Qed.

Lemma string_app_empty (s : string) : s ++ "" = s.
Proof. induction s as [|c s IH]; simpl; [|rewrite IH]; reflexivity. Qed.

Lemma rev_string_involutive (s : string) :
  rev_string "" (rev_string "" s) = s.
Proof. rewrite rev_string_twice. simpl. apply string_app_empty. Qed.

Lemma split_go_field (A cur rest : string) :
  all_digits A = true ->
  split_go ":" cur (A ++ String ":" rest)
  = rev_string "" (rev_string cur A) :: split_go ":" "" rest.
Proof.
  revert cur. induction A as [|c A IH]; intros cur H; simpl.
  - reflexivity.
  - simpl in H. apply andb_true_iff in H. destruct H as [Hc HA].
    destruct (digit_is_plain c Hc) as [_ Hcolon]. rewrite Hcolon.
    apply IH, HA.
Qed.

Lemma split_go_last (B cur : string) :
  all_digits B = true ->
  split_go ":" cur B = [rev_string "" (rev_string cur B)].
Proof.
  revert cur. induction B as [|c B IH]; intros cur H; simpl.
  - reflexivity.
  - simpl in H. apply andb_true_iff in H. destruct H as [Hc HB].
    destruct (digit_is_plain c Hc) as [_ Hcolon]. rewrite Hcolon.
    apply IH, HB.
Qed.

Lemma split_two_fields (A B : string) :
  all_digits A = true -> all_digits B = true ->
  split ":" (A ++ ":" ++ B) = [A; B].
Proof.
  intros HA HB. unfold split.
  change (":" ++ B) with (String ":" B).
  rewrite (split_go_field A "" B HA), (split_go_last B "" HB).
  rewrite !rev_string_involutive. reflexivity.
Qed.

Lemma trimStart_digit (c : ascii) (s : string) :
  is_digit c = true -> trimStart (String c s) = String c s.
Proof.
  intros Hc. unfold trimStart. cbn [span].
  destruct (digit_is_plain c Hc) as [Hsp _]. rewrite Hsp. reflexivity.
Qed.

Lemma scan_sign_digit (c : ascii) (s : string) :
  is_digit c = true -> scan_sign (String c s) = (false, String c s).
Proof.
  destruct c as [[] [] [] [] [] [] [] []]; intros H;
    try discriminate H; reflexivity.
Qed.

Lemma startsWith_Infinity_digit (c : ascii) (s : string) :
  is_digit c = true -> startsWith "Infinity" (String c s) = false.
Proof.
  destruct c as [[] [] [] [] [] [] [] []]; intros H;
    try discriminate H; reflexivity.
Qed.

Lemma parseInt_digits (A : string) :
  all_digits A = true -> A <> "" ->
  parseInt A = of_N (digits_val 0 A).
Proof.
  intros HA Hne. destruct A as [|c A]; [congruence|].
  pose proof (span_all_digits _ HA) as Hspan.
  simpl in HA. apply andb_true_iff in HA. destruct HA as [Hc HA].
  unfold parseInt.
  rewrite (trimStart_digit c A Hc), (scan_sign_digit c A Hc), Hspan.
  reflexivity.
Qed.

Lemma parseFloat_digits (B : string) :
  all_digits B = true -> B <> "" ->
  parseFloat B = of_N (digits_val 0 B).
Proof.
  intros HB Hne. destruct B as [|c B]; [congruence|].
  pose proof (span_all_digits _ HB) as Hspan.
  simpl in HB. apply andb_true_iff in HB. destruct HB as [Hc HB].
  unfold parseFloat, scan_decimal, scan_unsigned.
  rewrite (trimStart_digit c B Hc), (scan_sign_digit c B Hc).
  rewrite (startsWith_Infinity_digit c B Hc), Hspan.
  cbn [is_empty andb scan_exponent String.length digits_val].
  unfold of_N. apply Fin_Qred_Z.
  change (inject_Z (Z.of_N 0)) with 0%Q.
  change (inject_Z (10 ^ Z.of_nat 0)) with 1%Q. field.
Qed.

End ParseDigits.

(** ** formatTime then parseTime *)

Section PadStart.
Import JS.
Local Open Scope string_scope.

Lemma zeros_all_digits (k : nat) (s : string) :
  all_digits (repeat_char "0" k ++ s) = all_digits s.
Proof. induction k as [|k IH]; simpl; [reflexivity|exact IH]. Qed.

Lemma zeros_value (k : nat) (s : string) :
  digits_val 0 (repeat_char "0" k ++ s) = digits_val 0 s.
Proof. induction k as [|k IH]; simpl; [reflexivity|exact IH]. Qed.

Lemma padStart_2_nonempty (s : string) : padStart s 2 "0" <> "".
Proof.
  unfold padStart. destruct s as [|c [|c' s]]; simpl; discriminate.
Qed.

End PadStart.

(** C9 fails at n = 6 * 10^22: the 10^21 minutes print in exponent
    notation, [formatTime] gives "1e+21:00", of which [parseInt] reads the
    minutes as 1, and [parseTime] returns 60. *)
Lemma round_trip_fails_at_exponent_notation :
  let n := 60000000000000000000000%N in
  Utils.formatTime (JS.of_N n) = "1e+21:00"%string /\
  Utils.parseTime "1e+21:00" = JS.Fin 60 /\
  JS.eqb (Utils.parseTime (Utils.formatTime (JS.of_N n))) (JS.of_N n) = false.
Proof.
  cbv zeta. split; [|split]; vm_compute; reflexivity.
Qed.

(** C9, as the code has it.  For every non-negative integer n that is a safe
    integer (n <= 2^53 - 1), [parseTime(formatTime(n)) === n]. *)
Theorem parseTime_formatTime_safe_integer (n : N) :
  (n <= MAX_SAFE_INTEGER)%N ->
  JS.eqb (Utils.parseTime (Utils.formatTime (JS.of_N n))) (JS.of_N n) = true.
Proof.
  intros Hn.
  rewrite formatTime_whole.
  2:{ unfold MAX_SAFE_INTEGER in Hn. unfold JS.ten_pow_21.
      apply N.Div0.div_lt_upper_bound. lia. }
  set (A := JS.padStart (JS.decimal_digits (n / 60)) 2 "0").
  set (B := JS.padStart (JS.decimal_digits (n mod 60)) 2 "0").
  assert (HA : all_digits A = true).
  { unfold A, JS.padStart. rewrite zeros_all_digits.
    apply decimal_digits_all. }
  assert (HB : all_digits B = true).
  { unfold B, JS.padStart. rewrite zeros_all_digits.
    apply decimal_digits_all. }
  unfold Utils.parseTime. rewrite (split_two_fields A B HA HB).
  rewrite (parseInt_digits A HA (padStart_2_nonempty _)).
  rewrite (parseFloat_digits B HB (padStart_2_nonempty _)).
  unfold A, B, JS.padStart.
  rewrite !zeros_value, !decimal_digits_value.
  unfold JS.of_N. cbn [JS.isNaN JS.of_Z orb].
  fold (JS.of_Z (Z.of_N (n / 60))). fold (JS.of_Z (Z.of_N (n mod 60))).
  rewrite mul_of_Z, add_of_Z.
  replace (Z.of_N (n / 60) * 60 + Z.of_N (n mod 60))%Z with (Z.of_N n).
  - apply eqb_of_Z_refl.
  - rewrite (N.div_mod n 60) at 1 by discriminate. lia.
Qed.

Lemma parseTime_formatTime_safe_integer_witness :
  (3661 <= MAX_SAFE_INTEGER)%N /\
  JS.eqb (Utils.parseTime (Utils.formatTime (JS.of_N 3661))) (JS.of_N 3661)
  = true.
Proof.
  assert (H : (3661 <= MAX_SAFE_INTEGER)%N) by (vm_compute; discriminate).
  split; [exact H|].
  exact (parseTime_formatTime_safe_integer 3661 H).
Defined.

(** ** Well-formed time strings: the comparator key is the parsed time *)

Section WellFormed.
Import JS.
Local Open Scope string_scope.

Lemma digit_field_facts (max : nat) (s : string) :
  digit_field max s = true ->
  all_digits s = true /\ s <> "" /\ (String.length s <= max)%nat.
Proof.
  unfold digit_field. intros H.
  apply andb_true_iff in H. destruct H as [H Hlen].
  apply andb_true_iff in H. destruct H as [Hd Hne].
  split; [exact Hd|]. split.
  - intros ->. discriminate Hne.
  - apply Nat.leb_le. exact Hlen.
Qed.
















End WellFormed.

(* ================================================================== *)
(** * Sorting by a numeric key                                         *)
(* ================================================================== *)

Section SortByKey.
Import JS.
Variable A : Type.
Variable key : A -> num.

Let cmp (a b : A) : num := sub (key a) (key b).




Lemma sort_insert_perm (x : A) (l : list A) :
  Permutation (l ++ [x]) (sort_insert cmp x l).
Proof.
  induction l as [|y l IH]; simpl; [apply Permutation_refl|].
  destruct (ltb (SortCompare cmp x y) (Fin 0)).
  - change (y :: l ++ [x])%list with ((y :: l) ++ [x])%list.
    apply Permutation_sym, Permutation_cons_append.
  - apply perm_skip, IH.
Qed.



Lemma sort_fold_perm (l acc : list A) :
  Permutation (acc ++ l)
    (fold_left (fun acc x => sort_insert cmp x acc) l acc).
Proof.
  revert acc. induction l as [|x l IH]; intros acc; simpl.
  - rewrite app_nil_r. apply Permutation_refl.
  - apply (Permutation_trans (l' := ((acc ++ [x]) ++ l)%list)).
    + rewrite <- app_assoc. apply Permutation_refl.
    + apply (Permutation_trans (l' := (sort_insert cmp x acc ++ l)%list)).
      * apply Permutation_app_tail, sort_insert_perm.
      * apply IH.
Qed.

Lemma sort_perm (l : list A) : Permutation l (sort cmp l).
Proof. exact (sort_fold_perm l []). Qed.



End SortByKey.

(** ** addSegment *)







(* ================================================================== *)
(** * Dragging the right edge                                          *)
(* ================================================================== *)

(** C1 at a failing input.  The store holds the segment that
    [addSegment(0.2)] creates, from 0.2 s to 3.2 s.  A right-edge drag
    starts on it and the pointer moves 150 pixels to the left at 50 pixels
    per second, with grid and edge snapping on.  The candidate end is clamped
    to 0.2 + 0.5 = 0.7, the grid then snaps it to 0.5, and the store receives
    the end time "00:00.5": the segment is left 0.3 s long, below the
    minimum duration of 0.5 s. *)
Theorem right_edge_drag_below_min_duration :
  let drag :=
    Timeline.handleSegmentDragStart (JS.of_Z 160) "seg-1" Timeline.right
      playhead_segment in
  let st' :=
    fst (Timeline.handleMouseMove default_controls drag (JS.of_Z 10)
           playhead_state []) in
  ProjectStore.segments playhead_state = [playhead_segment] /\
  ProjectStore.segments st'
  = [Segment.mk "seg-1" "speaker_1" "00:00.2" "00:00.5" ""] /\
  JS.sub (Utils.parseTime "00:00.5") (Utils.parseTime "00:00.2")
  = JS.Fin (3 # 10) /\
  JS.ltb (JS.Fin (3 # 10)) (JS.Fin (1 # 2)) = true.
Proof.
  cbv zeta. repeat split; vm_compute; reflexivity.
Qed.

(** The left edge of the same segment, dragged the same way toward the end:
    the bound is checked after snapping and the move is dropped. *)
Lemma left_edge_drag_checks_after_snap :
  let drag :=
    Timeline.handleSegmentDragStart (JS.of_Z 10) "seg-1" Timeline.left
      playhead_segment in
  fst (Timeline.handleMouseMove default_controls drag (JS.of_Z 150)
         playhead_state []) = playhead_state.
Proof. vm_compute. reflexivity. Qed.

(* ================================================================== *)
(** * More on the snap resolver                                        *)
(* ================================================================== *)

Section GridFacts.
Import JS TimelineUtils.

Lemma sgn_positive (b : Q) : (0 < b)%Q -> sgn (Fin b) = 1%Z.
Proof.
  intros H. unfold sgn. destruct b as [n d]. unfold Qlt in H. simpl in *.
  rewrite Z.mul_1_r in H. destruct n; try reflexivity; lia.
Qed.

Lemma positive_not_zero (b : Q) : (0 < b)%Q -> Qis_zero b = false.
Proof.
  intros H. unfold Qis_zero. destruct (Qeq_bool b 0) eqn:E; [|reflexivity].
  apply Qeq_bool_iff in E. lra.
Qed.

Lemma leb_zero_false (b : Q) : leb (Fin b) (Fin 0) = false -> (0 < b)%Q.
Proof. simpl. intros H. apply Qle_bool_false in H. exact H. Qed.

(** The grid index of a finite time on a positive finite interval. *)
Lemma grid_of_finite (a b : Q) :
  (0 < b)%Q ->
  mul (Math_round (div (Fin a) (Fin b))) (Fin b)
  = Fin (Qred (inject_Z (Qfloor (a / b + (1 # 2))) * b)).
Proof.
  intros Hb. cbn [div]. rewrite (positive_not_zero b Hb).
  cbn [Math_round]. unfold of_Z. cbn [mul].
  rewrite (Qfloor_comp (Qred (a / b) + (1 # 2)) (a / b + (1 # 2))).
  - reflexivity.
  - rewrite Qred_correct. reflexivity.
Qed.

Lemma grid_of_grid (k : Z) (b : Q) :
  (0 < b)%Q ->
  mul (Math_round (div (Fin (Qred (inject_Z k * b))) (Fin b))) (Fin b)
  = Fin (Qred (inject_Z k * b)).
Proof.
  intros Hb. rewrite (grid_of_finite _ b Hb).
  rewrite (Qfloor_comp (Qred (inject_Z k * b) / b + (1 # 2))
             (inject_Z k + (1 # 2))).
  - rewrite Qfloor_half. reflexivity.
  - rewrite Qred_correct. field. lra.
Qed.

Lemma grid_of_infinite (t : num) (b : Q) :
  (0 < b)%Q -> t = PInf \/ t = NInf ->
  mul (Math_round (div t (Fin b))) (Fin b) = t.
Proof.
  intros Hb [-> | ->]; cbn [div]; rewrite (positive_not_zero b Hb);
    change (sgn PInf) with 1%Z; change (sgn NInf) with (-1)%Z;
    rewrite (sgn_positive b Hb); cbn [inf_of_sign Z.mul Pos.mul Math_round mul];
    change (sgn PInf) with 1%Z; change (sgn NInf) with (-1)%Z;
    rewrite (sgn_positive b Hb); reflexivity.
Qed.

End GridFacts.

(** Snapping twice, in the number model. *)
Lemma grid_snap_twice (t interval : JS.num) (enabled : bool) :
  TimelineUtils.snapToGrid
    (TimelineUtils.snapToGrid t interval enabled) interval enabled
  = TimelineUtils.snapToGrid t interval enabled.
Proof.
  unfold TimelineUtils.snapToGrid.
  destruct (negb enabled || JS.leb interval (JS.Fin 0)) eqn:E;
    [reflexivity|].
  apply orb_false_iff in E. destruct E as [_ E].
  destruct interval as [| | |b].
  - destruct t; reflexivity.
  - destruct t; reflexivity.
  - discriminate E.
  - pose proof (leb_zero_false b E) as Hb.
    destruct t as [| | |a].
    + reflexivity.
    + rewrite !(grid_of_infinite JS.PInf b Hb); auto.
    + rewrite !(grid_of_infinite JS.NInf b Hb); auto.
    + rewrite (grid_of_finite a b Hb). apply (grid_of_grid _ b Hb).
Qed.

(** X1.  On the half-second grid of the timeline, [snapToGrid] is
    idempotent: snapping an already snapped time again returns it unchanged,
    for every time and with the switch on or off. *)
Theorem snapToGrid_idempotent (t : JS.num) (enabled : bool) :
  TimelineUtils.snapToGrid
    (TimelineUtils.snapToGrid t Timeline.gridSnapInterval enabled)
    Timeline.gridSnapInterval enabled
  = TimelineUtils.snapToGrid t Timeline.gridSnapInterval enabled.
Proof. exact (grid_snap_twice t Timeline.gridSnapInterval enabled). Qed.


Lemma grid_nearest (a b : Q) :
  (0 < b)%Q ->
  exists (k : Z) (g : Q),
    TimelineUtils.snapToGrid (JS.Fin a) (JS.Fin b) true = JS.Fin g /\
    (g == inject_Z k * b)%Q /\
    (Qabs (g - a) <= b / 2)%Q.
Proof.
  intros Hb. unfold TimelineUtils.snapToGrid.
  replace (JS.leb (JS.Fin b) (JS.Fin 0)) with false.
  2:{ symmetry. simpl. apply Qle_bool_false. exact Hb. }
  cbn [negb orb]. rewrite (grid_of_finite a b Hb).
  set (k := Qfloor (a / b + (1 # 2))).
  exists k, (Qred (inject_Z k * b)).
  split; [reflexivity|]. split; [apply Qred_correct|].
  rewrite Qred_correct.
  pose proof (Qfloor_le (a / b + (1 # 2))) as Hlo.
  pose proof (Qlt_floor (a / b + (1 # 2))) as Hhi.
  fold k in Hlo, Hhi. rewrite inject_Z_plus in Hhi.
  change (inject_Z 1) with 1%Q in Hhi.
  assert (Ha : (a == a / b * b)%Q) by (field; lra).
  apply Qabs_Qle_condition. split.
  - setoid_replace (inject_Z k * b - a)%Q
      with ((inject_Z k - a / b) * b)%Q by (rewrite Ha at 1; ring).
    setoid_replace (- (b / 2))%Q with ((- (1 # 2)) * b)%Q by field.
    apply Qmult_le_compat_r; lra.
  - setoid_replace (inject_Z k * b - a)%Q
      with ((inject_Z k - a / b) * b)%Q by (rewrite Ha at 1; ring).
    setoid_replace (b / 2)%Q with ((1 # 2) * b)%Q by field.
    apply Qmult_le_compat_r; lra.
Qed.


(** X2.  On the half-second grid of the timeline, the enabled [snapToGrid]
    takes a finite time of magnitude at most 2^53 - 1 to an integer multiple
    of 0.5 that is at most 0.25 away from it. *)
Theorem snapToGrid_nearest_multiple (a : Q) :
  safe_time a ->
  exists (k : Z) (g : Q),
    TimelineUtils.snapToGrid (JS.Fin a) Timeline.gridSnapInterval true
    = JS.Fin g /\
    (g == inject_Z k * (1 # 2))%Q /\
    (Qabs (g - a) <= 1 # 4)%Q.
Proof.
  intros _.
  destruct (grid_nearest a (1 # 2) eq_refl) as (k & g & Hg & Hk & Hd).
  exists k, g. split; [exact Hg|]. split; [exact Hk|exact Hd].
Qed.

Lemma snapToGrid_nearest_multiple_witness :
  safe_time (32 # 10) /\
  exists (k : Z) (g : Q),
    TimelineUtils.snapToGrid (JS.Fin (32 # 10)) Timeline.gridSnapInterval true
    = JS.Fin g /\
    (g == inject_Z k * (1 # 2))%Q /\
    (Qabs (g - (32 # 10)) <= 1 # 4)%Q.
Proof.
  assert (H : safe_time (32 # 10)) by (vm_compute; discriminate).
  split; [exact H|].
  exact (snapToGrid_nearest_multiple (32 # 10) H).
Defined.

(** ** Edge targets *)

(** X3.  [getSegmentEdgeTimes] returns exactly the parsed start and end
    times of the segments whose id differs from the excluded id, two per
    such segment: no bound of the excluded segment is offered, and an id
    that matches no segment excludes nothing. *)
Theorem getSegmentEdgeTimes_other_bounds
  (segments : list Segment.t) (excludeId : string)
  (parseTimeFn : string -> JS.num) :
  let others :=
    filter (fun s => negb (String.eqb (Segment.id s) excludeId)) segments in
  TimelineUtils.getSegmentEdgeTimes segments excludeId parseTimeFn
  = flat_map (fun s => [parseTimeFn (Segment.startTime s);
                        parseTimeFn (Segment.endTime s)]) others /\
  List.length
    (TimelineUtils.getSegmentEdgeTimes segments excludeId parseTimeFn)
  = (2 * List.length others)%nat /\
  (Forall (fun s => Segment.id s <> excludeId) segments ->
   List.length
     (TimelineUtils.getSegmentEdgeTimes segments excludeId parseTimeFn)
   = (2 * List.length segments)%nat).
Proof.
  cbv zeta.
  assert (H1 : TimelineUtils.getSegmentEdgeTimes segments excludeId
                 parseTimeFn
               = flat_map (fun s => [parseTimeFn (Segment.startTime s);
                                     parseTimeFn (Segment.endTime s)])
                   (filter (fun s =>
                              negb (String.eqb (Segment.id s) excludeId))
                           segments)).
  { induction segments as [|s l IH]; simpl; [reflexivity|].
    destruct (String.eqb (Segment.id s) excludeId); simpl;
      rewrite IH; reflexivity. }
  assert (H2 : forall l : list Segment.t,
             List.length
               (flat_map (fun s => [parseTimeFn (Segment.startTime s);
                                    parseTimeFn (Segment.endTime s)]) l)
             = (2 * List.length l)%nat).
  { induction l as [|s l IH]; simpl; [reflexivity|]. rewrite IH. lia. }
  split; [exact H1|]. split.
  - rewrite H1. apply H2.
  - intros Hall. rewrite H1, H2.
    rewrite (filter_unmatched excludeId segments Hall). reflexivity.
Qed.

Lemma getSegmentEdgeTimes_other_bounds_witness :
  let segments :=
    [Segment.mk "1" "speaker_1" "00:00" "00:05" "";
     Segment.mk "2" "speaker_1" "00:10" "00:15" ""] in
  Forall (fun s => Segment.id s <> "999"%string) segments /\
  List.length
    (TimelineUtils.getSegmentEdgeTimes segments "999" Utils.parseTime)
  = (2 * List.length segments)%nat.
Proof.
  cbv zeta.
  assert (H : Forall (fun s => Segment.id s <> "999"%string)
                [Segment.mk "1" "speaker_1" "00:00" "00:05" "";
                 Segment.mk "2" "speaker_1" "00:10" "00:15" ""]).
  { repeat constructor; discriminate. }
  split; [exact H|].
  exact (proj2 (proj2 (getSegmentEdgeTimes_other_bounds _ "999"
                         Utils.parseTime)) H).
Defined.

Section EdgeResult.
Import JS TimelineUtils.

Lemma snapToEdge_input_or_target (t thr : num) (targets : list num)
  (enabled : bool) :
  time (snapToEdge t targets thr enabled) = t
  \/ (In (time (snapToEdge t targets thr enabled)) targets
      /\ in_range t thr (time (snapToEdge t targets thr enabled)) = true).
Proof.
  unfold snapToEdge.
  destruct (negb enabled || (List.length targets =? 0)%nat);
    [left; reflexivity|].
  pose proof (scan_inv_all t thr targets) as Hinv.
  destruct (fold_left (snapToEdge_step t) targets (t, thr)) as [c m].
  cbn [time]. destruct Hinv as [[_ Hst] | [Hfc _]].
  - left. congruence.
  - right. destruct Hfc as (pre & post & Hl & Hr & _). cbn [fst] in *.
    split; [|exact Hr]. rewrite Hl. apply in_or_app. right. left.
    reflexivity.
Qed.

Lemma eqb_refl_not_NaN (t : num) : isNaN t = false -> eqb t t = true.
Proof. destruct t; simpl; try discriminate; try reflexivity.
  intros _. apply Qeq_bool_refl. Qed.

Lemma snapToEdge_snapped_target (t thr : num) (targets : list num)
  (enabled : bool) :
  isNaN t = false ->
  snapped (snapToEdge t targets thr enabled) = true ->
  In (time (snapToEdge t targets thr enabled)) targets
  /\ in_range t thr (time (snapToEdge t targets thr enabled)) = true.
Proof.
  intros Ht Hs.
  destruct (snapToEdge_input_or_target t thr targets enabled) as [E|H];
    [|exact H].
  exfalso. revert Hs E. unfold snapToEdge.
  destruct (negb enabled || (List.length targets =? 0)%nat);
    [discriminate|].
  destruct (fold_left (snapToEdge_step t) targets (t, thr)) as [c m].
  cbn [time snapped]. intros Hs E. subst c. unfold neb in Hs.
  rewrite (eqb_refl_not_NaN t Ht) in Hs. discriminate.
Qed.

Lemma in_range_finite (a thr : Q) (c : num) :
  in_range (Fin a) (Fin thr) c = true ->
  exists g, c = Fin g /\ (Qabs (g - a) < thr)%Q.
Proof.
  unfold in_range, distance.
  destruct c as [| | |g]; cbn [sub Math_abs ltb]; try discriminate.
  intros H. exists g. split; [reflexivity|]. q_bools.
  rewrite Qred_correct, Qred_correct in H.
  rewrite (Qabs_Qminus g a). exact H.
Qed.

End EdgeResult.

(** X4.  [snapToEdge] returns the input time or one of the targets, and a
    target only when its distance to the input is strictly below the
    threshold; when the input is not [NaN] and [snapped] is true, the
    returned time is such a target. *)
Theorem snapToEdge_stays_in_range
  (t thr : JS.num) (targets : list JS.num) (enabled : bool) :
  let r := TimelineUtils.snapToEdge t targets thr enabled in
  (TimelineUtils.time r = t
   \/ (In (TimelineUtils.time r) targets
       /\ JS.ltb (distance t (TimelineUtils.time r)) thr = true)) /\
  (JS.isNaN t = false -> TimelineUtils.snapped r = true ->
   In (TimelineUtils.time r) targets
   /\ JS.ltb (distance t (TimelineUtils.time r)) thr = true).
Proof.
  cbv zeta. split.
  - exact (snapToEdge_input_or_target t thr targets enabled).
  - exact (snapToEdge_snapped_target t thr targets enabled).
Qed.

Lemma snapToEdge_stays_in_range_witness :
  let t := JS.Fin (11 # 10) in
  let targets := [JS.of_Z 1; JS.of_Z 3] in
  let r := TimelineUtils.snapToEdge t targets (JS.Fin (1 # 5)) true in
  JS.isNaN t = false /\ TimelineUtils.snapped r = true /\
  In (TimelineUtils.time r) targets.
Proof.
  cbv zeta.
  assert (H1 : JS.isNaN (JS.Fin (11 # 10)) = false) by reflexivity.
  assert (H2 : TimelineUtils.snapped
                 (TimelineUtils.snapToEdge (JS.Fin (11 # 10))
                    [JS.of_Z 1; JS.of_Z 3] (JS.Fin (1 # 5)) true) = true)
    by (vm_compute; reflexivity).
  split; [exact H1|]. split; [exact H2|].
  exact (proj1 (proj2 (snapToEdge_stays_in_range (JS.Fin (11 # 10))
                         (JS.Fin (1 # 5)) [JS.of_Z 1; JS.of_Z 3] true)
                  H1 H2)).
Defined.

(** X5.  On the half-second grid of the timeline and with a finite edge
    threshold, [snapTime] moves a finite time of magnitude at most 2^53 - 1
    by less than the edge threshold (when it reports [snapped]) or by at
    most 0.25 (when it does not), whatever the targets and the two
    switches. *)
Theorem snapTime_displacement
  (a thr : Q) (targets : list JS.num) (gridOn edgeOn : bool) :
  safe_time a ->
  let config :=
    {| TimelineUtils.gridEnabled := gridOn;
       TimelineUtils.gridInterval := Timeline.gridSnapInterval;
       TimelineUtils.edgeEnabled := edgeOn;
       TimelineUtils.edgeThreshold := JS.Fin thr |} in
  exists g : Q,
    TimelineUtils.time (TimelineUtils.snapTime (JS.Fin a) targets config)
    = JS.Fin g /\
    (if TimelineUtils.snapped
          (TimelineUtils.snapTime (JS.Fin a) targets config)
     then Qabs (g - a) < thr
     else Qabs (g - a) <= 1 # 4)%Q.
Proof.
  intros _. cbv zeta. unfold TimelineUtils.snapTime.
  cbn [TimelineUtils.edgeThreshold TimelineUtils.edgeEnabled
       TimelineUtils.gridInterval TimelineUtils.gridEnabled].
  destruct (TimelineUtils.snapped
              (TimelineUtils.snapToEdge (JS.Fin a) targets (JS.Fin thr)
                 edgeOn)) eqn:Hs.
  - destruct (snapToEdge_snapped_target (JS.Fin a) (JS.Fin thr) targets
                edgeOn eq_refl Hs) as [_ Hr].
    destruct (in_range_finite a thr _ Hr) as (g & Hg & Hlt).
    exists g. rewrite Hs. split; assumption.
  - cbn [TimelineUtils.time TimelineUtils.snapped].
    destruct gridOn.
    + destruct (grid_nearest a (1 # 2) eq_refl) as (k & g & Hg & _ & Hle).
      exists g. split; [exact Hg|exact Hle].
    + exists a. split; [reflexivity|].
      setoid_replace (a - a)%Q with 0%Q by ring.
      change (Qabs 0) with 0%Q. discriminate.
Qed.

Lemma snapTime_displacement_witness :
  safe_time (32 # 10) /\
  exists g : Q,
    TimelineUtils.time
      (TimelineUtils.snapTime (JS.Fin (32 # 10)) [JS.of_Z 2; JS.of_Z 4]
         {| TimelineUtils.gridEnabled := true;
            TimelineUtils.gridInterval := Timeline.gridSnapInterval;
            TimelineUtils.edgeEnabled := true;
            TimelineUtils.edgeThreshold := JS.Fin (1 # 5) |})
    = JS.Fin g /\
    (Qabs (g - (32 # 10)) <= 1 # 4)%Q.
Proof.
  assert (H : safe_time (32 # 10)) by (vm_compute; discriminate).
  split; [exact H|].
  destruct (snapTime_displacement (32 # 10) (1 # 5) [JS.of_Z 2; JS.of_Z 4]
              true true H) as (g & Hg & Hd).
  exists g. split; [exact Hg|].
  assert (Hs : TimelineUtils.snapped
                 (TimelineUtils.snapTime (JS.Fin (32 # 10))
                    [JS.of_Z 2; JS.of_Z 4]
                    {| TimelineUtils.gridEnabled := true;
                       TimelineUtils.gridInterval := Timeline.gridSnapInterval;
                       TimelineUtils.edgeEnabled := true;
                       TimelineUtils.edgeThreshold := JS.Fin (1 # 5) |})
               = false) by (vm_compute; reflexivity).
  rewrite Hs in Hd. exact Hd.
Defined.

(* ================================================================== *)
(** * More on the store: history                                       *)
(* ================================================================== *)

Section HistoryFacts.
Import JS ProjectStore.

Lemma redo_undo (st : ProjectState) : past st <> [] -> redo (undo st) = st.
Proof.
  intros Hne. destruct (exists_last Hne) as (ps & e & Hp).
  destruct st as [v f a m ip lm sg sp pa fu sel]. cbn in Hp. subst pa.
  unfold undo. cbn [past]. rewrite rev_app_distr. cbn [rev app].
  unfold redo, set, snapshot. cbn. rewrite removelast_last.
  destruct e. reflexivity.
Qed.

Lemma undo_redo (st : ProjectState) : future st <> [] -> undo (redo st) = st.
Proof.
  intros Hne.
  destruct st as [v f a m ip lm sg sp pa fu sel]. cbn in Hne.
  destruct fu as [|next fs]; [congruence|].
  unfold redo. cbn [future]. unfold undo, set, snapshot. cbn.
  rewrite rev_app_distr. cbn. rewrite removelast_last.
  destruct next. reflexivity.
Qed.

Lemma undo_past_length (st : ProjectState) :
  List.length (past (undo st)) = pred (List.length (past st)).
Proof.
  unfold undo. destruct (past st) as [|e0 ps] eqn:Hp using rev_ind.
  - simpl. rewrite Hp. reflexivity.
  - clear IHps. rewrite rev_app_distr. simpl.
    rewrite removelast_last, length_app. simpl. lia.
Qed.

Lemma redo_undo_times (n : nat) (st : ProjectState) :
  (n <= List.length (past st))%nat ->
  redo_times n (undo_times n st) = st.
Proof.
  unfold redo_times, undo_times. revert st.
  induction n as [|n IH]; intros st Hn; [reflexivity|].
  assert (Hlen : forall k s, List.length (past (Nat.iter k undo s))
                             = (List.length (past s) - k)%nat).
  { induction k as [|k IHk]; intros s; simpl; [lia|].
    rewrite undo_past_length, IHk. lia. }
  rewrite (Nat.iter_succ_r n _ redo). rewrite (Nat.iter_succ n _ undo).
  rewrite redo_undo.
  - apply IH. lia.
  - intros C. apply (f_equal (@List.length _)) in C.
    rewrite Hlen in C. simpl in C. lia.
Qed.

End HistoryFacts.

Section HistoryRuns.
Import JS ProjectStore.

Lemma canUndo_true (st : ProjectState) : canUndo st = true -> past st <> [].
Proof. unfold canUndo. destruct (past st); [discriminate|discriminate]. Qed.

Lemma canRedo_true (st : ProjectState) :
  canRedo st = true -> future st <> [].
Proof. unfold canRedo. destruct (future st); [discriminate|discriminate]. Qed.

Lemma undo_size (st : ProjectState) :
  history_size (undo st) = history_size st.
Proof.
  unfold history_size, undo.
  destruct (past st) as [|e0 ps] eqn:Hp using rev_ind.
  - simpl. rewrite Hp. reflexivity.
  - clear IHps. rewrite rev_app_distr. simpl.
    rewrite removelast_last, length_app. simpl. lia.
Qed.

Lemma redo_size (st : ProjectState) :
  history_size (redo st) = history_size st.
Proof.
  unfold history_size, redo. destruct (future st) as [|next fs] eqn:Hf.
  - rewrite Hf. reflexivity.
  - simpl. rewrite length_app. simpl. lia.
Qed.

(** The history a completed run leaves: the old [past], then one entry per
    operation, the first of them the snapshot of the start. *)
Lemma run_all_history (ops : list Op) (st st' : ProjectState) :
  run_all ops st = Normal st' ->
  exists entries,
    List.length entries = List.length ops /\
    past st' = (past st ++ entries)%list /\
    (ops = [] -> st' = st) /\
    (ops <> [] -> hd_error entries = Some (snapshot st)).
Proof.
  revert st. induction ops as [|op ops IH]; intros st H; simpl in H.
  - inversion H; subst. exists []. rewrite app_nil_r.
    repeat split; try reflexivity. congruence.
  - destruct (run op st) as [st1|] eqn:Hrun; simpl in H; [|discriminate].
    destruct (run_history _ _ _ Hrun) as [Hp _].
    destruct (IH st1 H) as (es & Hlen & Hpast & _ & _).
    exists (snapshot st :: es). split; [simpl; congruence|].
    split; [|split; [discriminate|reflexivity]].
    rewrite Hpast, Hp, <- app_assoc. reflexivity.
Qed.

(** Undoing as many times as there are entries above [ps] goes back to the
    first of them. *)
Lemma undo_times_entries (entries : list HistoryEntry) (e : HistoryEntry)
  (ps : list HistoryEntry) (st : ProjectState) :
  past st = (ps ++ e :: entries)%list ->
  segments (undo_times (S (List.length entries)) st) = h_segments e /\
  speakers (undo_times (S (List.length entries)) st) = h_speakers e /\
  past (undo_times (S (List.length entries)) st) = ps.
Proof.
  unfold undo_times. revert st.
  induction entries as [|x entries IH] using rev_ind; intros st Hp.
  - simpl. destruct (undo_after_push st ps e Hp) as (H1 & H2 & H3 & _).
    auto.
  - rewrite length_app. simpl List.length.
    replace (S (List.length entries + 1)) with (S (S (List.length entries)))
      by lia.
    rewrite (Nat.iter_succ_r (S (List.length entries)) _ undo).
    apply IH.
    assert (Hp' : past st = ((ps ++ e :: entries) ++ [x])%list).
    { rewrite Hp, <- app_assoc. reflexivity. }
    destruct (undo_after_push st _ x Hp') as (_ & _ & H3 & _). exact H3.
Qed.

End HistoryRuns.

(** X6.  When undo is available, [redo] after [undo] gives back the whole
    store state; when redo is available, [undo] after [redo] does. *)
Theorem undo_redo_are_inverse (st : ProjectStore.ProjectState) :
  (ProjectStore.canUndo st = true ->
   ProjectStore.redo (ProjectStore.undo st) = st) /\
  (ProjectStore.canRedo st = true ->
   ProjectStore.undo (ProjectStore.redo st) = st).
Proof.
  split; intros H.
  - apply redo_undo, canUndo_true, H.
  - apply undo_redo, canRedo_true, H.
Qed.

Lemma undo_redo_are_inverse_witness :
  let st :=
    ProjectStore.deleteSegment "1" one_segment_state in
  ProjectStore.canUndo st = true /\
  ProjectStore.redo (ProjectStore.undo st) = st /\
  ProjectStore.canRedo (ProjectStore.undo st) = true /\
  ProjectStore.undo (ProjectStore.redo (ProjectStore.undo st))
  = ProjectStore.undo st.
Proof.
  cbv zeta.
  assert (H1 : ProjectStore.canUndo
                 (ProjectStore.deleteSegment "1" one_segment_state) = true)
    by reflexivity.
  assert (H2 : ProjectStore.canRedo
                 (ProjectStore.undo
                    (ProjectStore.deleteSegment "1" one_segment_state))
               = true) by reflexivity.
  split; [exact H1|].
  split; [exact (proj1 (undo_redo_are_inverse _) H1)|].
  split; [exact H2|].
  exact (proj2 (undo_redo_are_inverse _) H2).
Defined.

(** X7.  [undo] with an empty [past] and [redo] with an empty [future]
    leave the store as it is, and neither ever loses a history entry: the
    number of entries on the two stacks together stays the same. *)
Theorem undo_redo_keep_history (st : ProjectStore.ProjectState) :
  (ProjectStore.canUndo st = false -> ProjectStore.undo st = st) /\
  (ProjectStore.canRedo st = false -> ProjectStore.redo st = st) /\
  history_size (ProjectStore.undo st) = history_size st /\
  history_size (ProjectStore.redo st) = history_size st.
Proof.
  split; [|split; [|split]].
  - unfold ProjectStore.canUndo, ProjectStore.undo.
    destruct (ProjectStore.past st); [reflexivity|discriminate].
  - unfold ProjectStore.canRedo, ProjectStore.redo.
    destruct (ProjectStore.future st); [reflexivity|discriminate].
  - apply undo_size.
  - apply redo_size.
Qed.

Lemma undo_redo_keep_history_witness :
  ProjectStore.canUndo ProjectStore.initialState = false /\
  ProjectStore.undo ProjectStore.initialState = ProjectStore.initialState /\
  ProjectStore.canRedo ProjectStore.initialState = false /\
  ProjectStore.redo ProjectStore.initialState = ProjectStore.initialState.
Proof.
  assert (H1 : ProjectStore.canUndo ProjectStore.initialState = false)
    by reflexivity.
  assert (H2 : ProjectStore.canRedo ProjectStore.initialState = false)
    by reflexivity.
  split; [exact H1|].
  split; [exact (proj1 (undo_redo_keep_history _) H1)|].
  split; [exact H2|].
  exact (proj1 (proj2 (undo_redo_keep_history _)) H2).
Defined.

(** X8.  For every state and every n not above the number of [past]
    entries, n calls of [undo] followed by n calls of [redo] give back the
    whole store state. *)
Theorem undo_n_redo_n (n : nat) (st : ProjectStore.ProjectState) :
  (n <= List.length (ProjectStore.past st))%nat ->
  redo_times n (undo_times n st) = st.
Proof. apply redo_undo_times. Qed.

Lemma undo_n_redo_n_witness :
  let st :=
    ProjectStore.deleteSegment "1"
      (ProjectStore.updateSegment "1" Segment.no_updates one_segment_state) in
  (3 <= List.length (ProjectStore.past st))%nat /\
  redo_times 3 (undo_times 3 st) = st.
Proof.
  cbv zeta.
  assert (H : (3 <= List.length
                     (ProjectStore.past
                        (ProjectStore.deleteSegment "1"
                           (ProjectStore.updateSegment "1" Segment.no_updates
                              one_segment_state))))%nat)
    by (simpl; lia).
  split; [exact H|]. exact (undo_n_redo_n 3 _ H).
Defined.

(** X9.  After any sequence of mutating operations that all complete,
    undoing as many times as there were operations restores the segments,
    the speakers and the [past] stack of the state the sequence started
    from. *)
Theorem undo_all_restores
  (ops : list ProjectStore.Op) (st st' : ProjectStore.ProjectState) :
  run_all ops st = JS.Normal st' ->
  let back := undo_times (List.length ops) st' in
  ProjectStore.segments back = ProjectStore.segments st /\
  ProjectStore.speakers back = ProjectStore.speakers st /\
  ProjectStore.past back = ProjectStore.past st.
Proof.
  intros Hrun. cbv zeta.
  destruct (run_all_history ops st st' Hrun)
    as (entries & Hlen & Hpast & Hnil & Hhd).
  destruct ops as [|op ops].
  - rewrite (Hnil eq_refl). simpl. auto.
  - destruct entries as [|e entries]; [discriminate Hlen|].
    specialize (Hhd ltac:(discriminate)). simpl in Hhd.
    inversion Hhd; subst e.
    simpl in Hlen. injection Hlen as Hlen. simpl List.length.
    rewrite <- Hlen.
    exact (undo_times_entries entries _ _ st' Hpast).
Qed.

Lemma undo_all_restores_witness :
  let ops :=
    [ProjectStore.UpdateSegment "1" Segment.no_updates;
     ProjectStore.MergeSpeakers "speaker_1" "speaker_2";
     ProjectStore.DeleteSegment "1"] in
  exists st',
    run_all ops one_segment_state = JS.Normal st' /\
    ProjectStore.segments (undo_times 3 st')
    = ProjectStore.segments one_segment_state.
Proof.
  cbv zeta. eexists. split; [reflexivity|].
  exact (proj1 (undo_all_restores
                  [ProjectStore.UpdateSegment "1" Segment.no_updates;
                   ProjectStore.MergeSpeakers "speaker_1" "speaker_2";
                   ProjectStore.DeleteSegment "1"]
                  one_segment_state _ eq_refl)).
Defined.

(* ================================================================== *)
(** * More on the store: segments and speakers                         *)
(* ================================================================== *)

(** X10.  On a roster without [undefined], [deleteSpeaker(id)] completes
    and cascades: afterwards no segment has that speaker id, the segments of
    the other speakers are all kept, unchanged and in their order, and the
    roster is the prior roster without the speakers of that id.  The number
    of segments drops by the number the speaker owned. *)
Theorem deleteSpeaker_cascades (st : ProjectStore.ProjectState) (id : string) :
  roster_ok st ->
  exists st',
    ProjectStore.deleteSpeaker id st = JS.Normal st' /\
    Forall (fun s => Segment.speakerId s <> id) (ProjectStore.segments st') /\
    ProjectStore.segments st'
    = filter (fun s => negb (String.eqb (Segment.speakerId s) id))
        (ProjectStore.segments st) /\
    ProjectStore.speakers st' = roster_without id (ProjectStore.speakers st) /\
    Forall (fun s => forall sp, s = Some sp -> Speaker.id sp <> id)
      (ProjectStore.speakers st') /\
    (List.length (ProjectStore.segments st')
     + List.length (filter (fun s => String.eqb (Segment.speakerId s) id)
                      (ProjectStore.segments st))
     = List.length (ProjectStore.segments st))%nat.
Proof.
  intros Hroster. unfold ProjectStore.deleteSpeaker.
  rewrite (filterM_slots_normal (fun sid => negb (String.eqb sid id))
             _ Hroster).
  simpl. eexists. split; [reflexivity|]. simpl.
  split; [|split; [reflexivity|split; [reflexivity|split]]].
  - apply Forall_forall. intros s Hs. apply filter_In in Hs.
    destruct Hs as [_ Hs].
    destruct (String.eqb_spec (Segment.speakerId s) id); [discriminate|].
    assumption.
  - apply Forall_forall. intros s Hs sp ->. apply filter_In in Hs.
    destruct Hs as [_ Hs].
    destruct (String.eqb_spec (Speaker.id sp) id); [discriminate|].
    assumption.
  - induction (ProjectStore.segments st) as [|s l IH]; simpl;
      [reflexivity|].
    destruct (String.eqb (Segment.speakerId s) id); simpl; lia.
Qed.

Lemma deleteSpeaker_cascades_witness :
  roster_ok one_segment_state /\
  exists st',
    ProjectStore.deleteSpeaker "speaker_1" one_segment_state = JS.Normal st' /\
    Forall (fun s => Segment.speakerId s <> "speaker_1"%string)
      (ProjectStore.segments st').
Proof.
  assert (H : roster_ok one_segment_state).
  { unfold roster_ok. simpl. repeat constructor; discriminate. }
  split; [exact H|].
  destruct (deleteSpeaker_cascades one_segment_state "speaker_1" H)
    as (st' & H1 & H2 & _).
  exists st'. split; assumption.
Defined.

Section SegmentUpdates.
Import JS ProjectStore.

Lemma spread_twice (s : Segment.t) (u : Segment.partial) :
  Segment.spread (Segment.spread s u) u = Segment.spread s u.
Proof.
  unfold Segment.spread. destruct u as [i sp st en tx]. simpl.
  destruct i, sp, st, en, tx; reflexivity.
Qed.

Lemma spread_id (s : Segment.t) (u : Segment.partial) :
  Segment.id (Segment.spread s u) = or_default (Segment.p_id u) (Segment.id s).
Proof. reflexivity. Qed.

Lemma update_map_twice (id : string) (u : Segment.partial)
  (l : list Segment.t) :
  let f := fun s => if String.eqb (Segment.id s) id
                    then Segment.spread s u else s in
  map f (map f l) = map f l.
Proof.
  cbv zeta. rewrite map_map. apply map_ext. intros s.
  destruct (String.eqb (Segment.id s) id) eqn:E; [|rewrite E; reflexivity].
  destruct (String.eqb (Segment.id (Segment.spread s u)) id);
    [apply spread_twice|reflexivity].
Qed.

End SegmentUpdates.

(** X11.  [updateSegment(id, updates)] keeps the number and the order of the
    segments, leaves every segment with another id and the speakers
    untouched, and gives each segment with that id the fields the update
    carries.  Applying the same update a second time changes no segment. *)
Theorem updateSegment_local_idempotent
  (st : ProjectStore.ProjectState) (id : string) (updates : Segment.partial) :
  let st1 := ProjectStore.updateSegment id updates st in
  Forall2 (fun s s' =>
             (Segment.id s <> id -> s' = s) /\
             (Segment.id s = id -> s' = Segment.spread s updates))
    (ProjectStore.segments st) (ProjectStore.segments st1) /\
  List.length (ProjectStore.segments st1)
  = List.length (ProjectStore.segments st) /\
  ProjectStore.speakers st1 = ProjectStore.speakers st /\
  ProjectStore.segments (ProjectStore.updateSegment id updates st1)
  = ProjectStore.segments st1.
Proof.
  cbv zeta. simpl. split; [|split; [|split]].
  - induction (ProjectStore.segments st) as [|s l IH]; simpl; constructor;
      [|exact IH].
    destruct (String.eqb_spec (Segment.id s) id); split; intros;
      congruence.
  - apply length_map.
  - reflexivity.
  - apply update_map_twice.
Qed.

(** X12.  [deleteSegment(id)] keeps exactly the segments with another id,
    unchanged and in their order, and leaves the speakers untouched;
    afterwards no segment has the id, and deleting the same id again
    changes no segment. *)
Theorem deleteSegment_removes_id
  (st : ProjectStore.ProjectState) (id : string) :
  let st1 := ProjectStore.deleteSegment id st in
  ProjectStore.segments st1
  = filter (fun s => negb (String.eqb (Segment.id s) id))
      (ProjectStore.segments st) /\
  Forall (fun s => Segment.id s <> id) (ProjectStore.segments st1) /\
  ProjectStore.speakers st1 = ProjectStore.speakers st /\
  ProjectStore.segments (ProjectStore.deleteSegment id st1)
  = ProjectStore.segments st1.
Proof.
  cbv zeta. simpl.
  assert (H : Forall (fun s => Segment.id s <> id)
                (filter (fun s => negb (String.eqb (Segment.id s) id))
                   (ProjectStore.segments st))).
  { apply Forall_forall. intros s Hs. apply filter_In in Hs.
    destruct Hs as [_ Hs].
    destruct (String.eqb_spec (Segment.id s) id); [discriminate|].
    assumption. }
  split; [reflexivity|]. split; [exact H|]. split; [reflexivity|].
  apply (filter_unmatched id _ H).
Qed.

(** ** reorderSpeakers *)

Section Reorder.
Import JS ProjectStore.

Lemma skipn_at_index {A} (l : list A) (i : nat) (x : A) :
  nth_error l i = Some x -> skipn i l = x :: skipn (S i) l.
Proof.
  revert l. induction i as [|i IH]; intros l Hx; destruct l as [|y l];
    try discriminate.
  - simpl in Hx. inversion Hx. reflexivity.
  - simpl in Hx. exact (IH l Hx).
Qed.

Lemma splice_remove_one {A} (l : list A) (i : nat) (x : A) :
  nth_error l i = Some x ->
  splice l (Z.of_nat i) 1 []
  = ([x], (firstn i l ++ skipn (S i) l)%list).
Proof.
  intros Hx. unfold splice. cbv zeta.
  assert (Hlt : (i < List.length l)%nat)
    by (apply nth_error_Some; congruence).
  replace (Z.of_nat i <? 0)%Z with false by (symmetry; apply Z.ltb_ge; lia).
  rewrite (Z.min_l (Z.of_nat i)) by lia.
  replace (Z.min (Z.max 1 0) (Z.of_nat (List.length l) - Z.of_nat i))
    with 1%Z by lia.
  rewrite Nat2Z.id. change (Z.to_nat 1) with 1%nat.
  rewrite Nat.add_1_r. cbn [app]. f_equal.
  rewrite (skipn_at_index l i x Hx). reflexivity.
Qed.

Lemma splice_insert_one {A} (l : list A) (j : nat) (x : A) :
  (j <= List.length l)%nat ->
  snd (splice l (Z.of_nat j) 0 [x])
  = (firstn j l ++ x :: skipn j l)%list.
Proof.
  intros Hj. unfold splice. cbv zeta.
  replace (Z.of_nat j <? 0)%Z with false by (symmetry; apply Z.ltb_ge; lia).
  rewrite (Z.min_l (Z.of_nat j)) by lia.
  replace (Z.min (Z.max 0 0) (Z.of_nat (List.length l) - Z.of_nat j))
    with 0%Z by lia.
  rewrite Nat2Z.id. change (Z.to_nat 0) with 0%nat.
  rewrite Nat.add_0_r. reflexivity.
Qed.

Lemma splice_insert_any {A} (l : list A) (j : Z) (x : A) :
  exists a : nat,
    snd (splice l j 0 [x]) = (firstn a l ++ x :: skipn a l)%list.
Proof.
  unfold splice. cbv zeta. cbn [snd].
  set (start := if (j <? 0)%Z
                then Z.max (Z.of_nat (List.length l) + j) 0
                else Z.min j (Z.of_nat (List.length l))).
  replace (Z.to_nat (Z.min (Z.max 0 0) (Z.of_nat (List.length l) - start)))
    with 0%nat by lia.
  exists (Z.to_nat start). rewrite Nat.add_0_r. reflexivity.
Qed.

Lemma splice_remove_none {A} (l : list A) (i : Z) :
  (Z.of_nat (List.length l) <= i)%Z ->
  splice l i 1 [] = ([], l).
Proof.
  intros Hi. unfold splice. cbv zeta.
  replace (i <? 0)%Z with false by (symmetry; apply Z.ltb_ge; lia).
  rewrite (Z.min_r i) by lia.
  replace (Z.min (Z.max 1 0)
             (Z.of_nat (List.length l) - Z.of_nat (List.length l)))
    with 0%Z by lia.
  rewrite Nat2Z.id. change (Z.to_nat 0) with 0%nat.
  rewrite Nat.add_0_r, skipn_all, firstn_all, app_nil_r. reflexivity.
Qed.

Lemma reorder_in_range (st : ProjectState) (i j : nat) (x : option Speaker.t) :
  nth_error (speakers st) i = Some x ->
  (j < List.length (speakers st))%nat ->
  speakers (reorderSpeakers (Z.of_nat i) (Z.of_nat j) st)
  = (firstn j (firstn i (speakers st) ++ skipn (S i) (speakers st))
     ++ x :: skipn j (firstn i (speakers st) ++ skipn (S i) (speakers st)))
    %list.
Proof.
  intros Hx Hj. unfold reorderSpeakers.
  rewrite (splice_remove_one _ i x Hx).
  cbn [set speakers set_speakers or_default].
  apply splice_insert_one.
  assert (Hlt : (i < List.length (speakers st))%nat)
    by (apply nth_error_Some; congruence).
  rewrite length_app, length_firstn, length_skipn. lia.
Qed.

Lemma filterM_hole_throws (p : string -> bool) (l : list (option Speaker.t)) :
  In None l ->
  filterM (fun s => bind (slot_id s) (fun sid => Normal (p sid))) l
  = Throw "TypeError".
Proof.
  induction l as [|s l IH]; intros Hin; [destruct Hin|].
  simpl. destruct s as [sp|]; simpl; [|reflexivity].
  destruct Hin as [C|Hin]; [discriminate|].
  rewrite (IH Hin). reflexivity.
Qed.

Lemma mapM_hole_throws (g : option Speaker.t -> string -> option Speaker.t)
  (l : list (option Speaker.t)) :
  In None l ->
  mapM (fun s => bind (slot_id s) (fun sid => Normal (g s sid))) l
  = Throw "TypeError".
Proof.
  induction l as [|s l IH]; intros Hin; [destruct Hin|].
  simpl. destruct s as [sp|]; simpl; [|reflexivity].
  destruct Hin as [C|Hin]; [discriminate|].
  rewrite (IH Hin). reflexivity.
Qed.

End Reorder.

(** X13.  For indices within the roster, [reorderSpeakers(fromIndex,
    toIndex)] permutes the roster: its length is kept, no speaker is lost or
    duplicated, the speaker that was at [fromIndex] is at [toIndex]
    afterwards, and equal indices leave the roster as it was.  The segments
    are not touched. *)
Theorem reorderSpeakers_moves
  (st : ProjectStore.ProjectState) (i j : nat) :
  (i < List.length (ProjectStore.speakers st))%nat ->
  (j < List.length (ProjectStore.speakers st))%nat ->
  let st1 := ProjectStore.reorderSpeakers (Z.of_nat i) (Z.of_nat j) st in
  Permutation (ProjectStore.speakers st) (ProjectStore.speakers st1) /\
  List.length (ProjectStore.speakers st1)
  = List.length (ProjectStore.speakers st) /\
  nth_error (ProjectStore.speakers st1) j
  = nth_error (ProjectStore.speakers st) i /\
  (i = j -> ProjectStore.speakers st1 = ProjectStore.speakers st) /\
  ProjectStore.segments st1 = ProjectStore.segments st.
Proof.
  intros Hi Hj. cbv zeta.
  destruct (nth_error (ProjectStore.speakers st) i) as [x|] eqn:Hx.
  2:{ apply nth_error_None in Hx. lia. }
  rewrite (reorder_in_range st i j x Hx Hj).
  set (l := ProjectStore.speakers st) in *.
  set (rest := (firstn i l ++ skipn (S i) l)%list).
  assert (Hl : l = (firstn i l ++ x :: skipn (S i) l)%list).
  { rewrite <- (skipn_at_index l i x Hx). symmetry. apply firstn_skipn. }
  assert (Hrest : List.length rest = pred (List.length l)).
  { unfold rest. rewrite length_app, length_firstn, length_skipn. lia. }
  assert (Hperm : Permutation l (firstn j rest ++ x :: skipn j rest)).
  { rewrite Hl at 1.
    apply (Permutation_trans (l' := x :: rest)).
    - apply Permutation_sym, Permutation_middle.
    - rewrite <- (firstn_skipn j rest) at 1. apply Permutation_middle. }
  split; [exact Hperm|]. split; [|split; [|split]].
  - symmetry. apply Permutation_length, Hperm.
  - rewrite nth_error_app2; rewrite length_firstn; [|lia].
    replace (j - Nat.min j (List.length rest))%nat with 0%nat by lia.
    reflexivity.
  - intros <-. unfold rest.
    rewrite firstn_app, firstn_firstn, Nat.min_id, length_firstn.
    replace (i - Nat.min i (List.length l))%nat with 0%nat by lia.
    simpl. rewrite app_nil_r.
    rewrite skipn_app, length_firstn.
    replace (i - Nat.min i (List.length l))%nat with 0%nat by lia.
    rewrite skipn_firstn_comm, Nat.sub_diag. simpl.
    symmetry. exact Hl.
  - unfold ProjectStore.reorderSpeakers.
    destruct (JS.splice l (Z.of_nat i) 1 []). reflexivity.
Qed.

Lemma reorderSpeakers_moves_witness :
  let st := ProjectStore.initialState in
  (0 < List.length (ProjectStore.speakers st))%nat /\
  (2 < List.length (ProjectStore.speakers st))%nat /\
  nth_error
    (ProjectStore.speakers (ProjectStore.reorderSpeakers 0 2 st)) 2
  = nth_error (ProjectStore.speakers st) 0.
Proof.
  cbv zeta.
  assert (H0 : (0 < List.length
                      (ProjectStore.speakers ProjectStore.initialState))%nat)
    by (simpl; lia).
  assert (H2 : (2 < List.length
                      (ProjectStore.speakers ProjectStore.initialState))%nat)
    by (simpl; lia).
  split; [exact H0|]. split; [exact H2|].
  exact (proj1 (proj2 (proj2 (reorderSpeakers_moves
                                ProjectStore.initialState 0 2 H0 H2)))).
Defined.

(** X14.  When [fromIndex] is at or beyond the end of the roster,
    [reorderSpeakers] removes nothing and stores [undefined] in the roster,
    which grows by one entry.  From then on [updateSpeaker],
    [deleteSpeaker] and [mergeSpeakers] throw a TypeError, for every
    argument. *)
Theorem reorderSpeakers_out_of_range
  (st : ProjectStore.ProjectState) (fromIndex toIndex : Z) :
  (Z.of_nat (List.length (ProjectStore.speakers st)) <= fromIndex)%Z ->
  let st1 := ProjectStore.reorderSpeakers fromIndex toIndex st in
  In None (ProjectStore.speakers st1) /\
  List.length (ProjectStore.speakers st1)
  = S (List.length (ProjectStore.speakers st)) /\
  (forall id updates,
      ProjectStore.updateSpeaker id updates st1 = JS.Throw "TypeError") /\
  (forall id, ProjectStore.deleteSpeaker id st1 = JS.Throw "TypeError") /\
  (forall fromId toId,
      ProjectStore.mergeSpeakers fromId toId st1 = JS.Throw "TypeError").
Proof.
  intros Hfrom. cbv zeta.
  assert (Hsp : exists a b,
             ProjectStore.speakers
               (ProjectStore.reorderSpeakers fromIndex toIndex st)
             = (a ++ None :: b)%list /\
             (a ++ b)%list = ProjectStore.speakers st).
  { unfold ProjectStore.reorderSpeakers.
    rewrite (splice_remove_none _ fromIndex Hfrom).
    cbn [ProjectStore.set ProjectStore.speakers ProjectStore.set_speakers
         JS.or_default].
    destruct (splice_insert_any (ProjectStore.speakers st) toIndex None)
      as (a & Ha).
    rewrite Ha. eexists _, _. split; [reflexivity|]. apply firstn_skipn. }
  destruct Hsp as (a & b & Hsp & Hab).
  assert (Hin : In None
                  (ProjectStore.speakers
                     (ProjectStore.reorderSpeakers fromIndex toIndex st))).
  { rewrite Hsp. apply in_or_app. right. left. reflexivity. }
  split; [exact Hin|]. split; [|split; [|split]].
  - rewrite Hsp, <- Hab, !length_app. simpl. lia.
  - intros id updates. unfold ProjectStore.updateSpeaker.
    rewrite (mapM_hole_throws
               (fun s sid =>
                  if String.eqb sid id
                  then option_map (fun sp => Speaker.spread sp updates) s
                  else s) _ Hin).
    reflexivity.
  - intros id. unfold ProjectStore.deleteSpeaker.
    rewrite (filterM_hole_throws (fun sid => negb (String.eqb sid id))
               _ Hin).
    reflexivity.
  - intros fromId toId. unfold ProjectStore.mergeSpeakers.
    rewrite (filterM_hole_throws (fun sid => negb (String.eqb sid fromId))
               _ Hin).
    reflexivity.
Qed.

Lemma reorderSpeakers_out_of_range_witness :
  (Z.of_nat (List.length (ProjectStore.speakers ProjectStore.initialState))
   <= 7)%Z /\
  In None
    (ProjectStore.speakers
       (ProjectStore.reorderSpeakers 7 0 ProjectStore.initialState)).
Proof.
  assert (H : (Z.of_nat
                 (List.length
                    (ProjectStore.speakers ProjectStore.initialState))
               <= 7)%Z) by (simpl; lia).
  split; [exact H|].
  exact (proj1 (reorderSpeakers_out_of_range ProjectStore.initialState 7 0 H)).
Defined.

(** ** createSpeakersFromSegments and the selected segment *)

Section UniqueIds.
Import JS StoreHelpers.

Lemma existsb_eqb_In (x : string) (seen : list string) :
  existsb (String.eqb x) seen = true <-> In x seen.
Proof.
  rewrite existsb_exists. split.
  - intros (y & Hy & E). apply String.eqb_eq in E. subst. exact Hy.
  - intros H. exists x. split; [exact H|apply String.eqb_refl].
Qed.

Lemma unique_from_In (l seen : list string) (x : string) :
  In x (unique_from seen l) <-> In x l /\ ~ In x seen.
Proof.
  revert seen. induction l as [|y l IH]; intros seen; simpl.
  - tauto.
  - destruct (existsb (String.eqb y) seen) eqn:E.
    + apply existsb_eqb_In in E. rewrite IH. split.
      * intros [H1 H2]. auto.
      * intros [[->|H1] H2]; [contradiction|auto].
    + assert (Hy : ~ In y seen).
      { intros C. apply existsb_eqb_In in C. congruence. }
      simpl. rewrite IH. simpl. split.
      * intros [->|[H1 H2]]; [auto|]. split; [auto|]. tauto.
      * intros [[->|H1] H2]; [auto|].
        destruct (string_dec y x) as [->|Hne]; [auto|]. right.
        split; [exact H1|]. intros [C|C]; [congruence|contradiction].
Qed.

Lemma unique_from_NoDup (l seen : list string) : NoDup (unique_from seen l).
Proof.
  revert seen. induction l as [|y l IH]; intros seen; simpl.
  - constructor.
  - destruct (existsb (String.eqb y) seen); [apply IH|].
    constructor; [|apply IH].
    rewrite unique_from_In. simpl. tauto.
Qed.

Lemma unique_from_length (l seen : list string) :
  (List.length (unique_from seen l) <= List.length l)%nat.
Proof.
  revert seen. induction l as [|y l IH]; intros seen; simpl; [lia|].
  destruct (existsb (String.eqb y) seen); [specialize (IH seen)
    |specialize (IH (y :: seen))]; simpl; lia.
Qed.

Lemma map_index_ids (f : string -> nat -> Speaker.t) (l : list string)
  (i : nat) :
  (forall x k, Speaker.id (f x k) = x) ->
  map Speaker.id (map_index f i l) = l.
Proof.
  intros Hf. revert i. induction l as [|x l IH]; intros i; simpl;
    [reflexivity|].
  rewrite Hf, IH. reflexivity.
Qed.

Lemma map_index_nth {A B} (f : A -> nat -> B) (l : list A) (i k : nat) :
  nth_error (map_index f i l) k
  = option_map (fun x => f x (i + k)%nat) (nth_error l k).
Proof.
  revert i k. induction l as [|x l IH]; intros i k; destruct k; simpl;
    try reflexivity.
  - rewrite Nat.add_0_r. reflexivity.
  - rewrite IH. replace (S i + k)%nat with (i + S k)%nat by lia.
    reflexivity.
Qed.

End UniqueIds.

(** X15.  [createSpeakersFromSegments] returns one speaker per distinct
    speaker id of the segments: the ids of the result are pairwise distinct
    and are exactly the speaker ids that occur in the segments, so there
    are no more speakers than segments; the speaker at index k is named
    "Speaker k+1" and has the palette color at index k modulo 8. *)
Theorem createSpeakersFromSegments_distinct (segments : list Segment.t) :
  let speakers := StoreHelpers.createSpeakersFromSegments segments in
  NoDup (map Speaker.id speakers) /\
  (forall id, In id (map Speaker.id speakers)
              <-> In id (map Segment.speakerId segments)) /\
  (List.length speakers <= List.length segments)%nat /\
  (forall k sp,
      nth_error speakers k = Some sp ->
      Speaker.name sp
      = ("Speaker " ++ JS.nat_toString (N.of_nat (k + 1)))%string /\
      nth_error StoreHelpers.SPEAKER_COLORS (k mod 8)
      = Some (Speaker.color sp)).
Proof.
  cbv zeta. unfold StoreHelpers.createSpeakersFromSegments.
  set (f := fun (id : string) (idx : nat) => Speaker.mk id _ _).
  assert (Hids : map Speaker.id
                   (StoreHelpers.map_index f 0
                      (StoreHelpers.unique
                         (map Segment.speakerId segments)))
                 = StoreHelpers.unique (map Segment.speakerId segments)).
  { apply map_index_ids. reflexivity. }
  split; [|split; [|split]].
  - rewrite Hids. apply unique_from_NoDup.
  - intros id. rewrite Hids. unfold StoreHelpers.unique.
    rewrite unique_from_In. simpl. tauto.
  - rewrite <- (length_map Speaker.id), Hids.
    rewrite <- (length_map Segment.speakerId segments).
    apply unique_from_length.
  - intros k sp Hk. rewrite map_index_nth in Hk. cbn [Nat.add] in Hk.
    destruct (nth_error _ k) as [id|]; [|discriminate].
    cbn [option_map] in Hk. inversion Hk; subst sp. unfold f.
    cbn [Speaker.name Speaker.color].
    split; [reflexivity|].
    change (List.length StoreHelpers.SPEAKER_COLORS) with 8%nat.
    apply nth_error_nth'.
    change (List.length StoreHelpers.SPEAKER_COLORS) with 8%nat.
    apply Nat.mod_upper_bound. discriminate.
Qed.

Section SelectedSegment.
Import JS ProjectStore StoreHelpers.

Lemma find_unique_id (l : list Segment.t) (new : Segment.t) :
  In new l ->
  (forall s, In s l -> Segment.id s = Segment.id new -> s = new) ->
  find (fun s => String.eqb (Segment.id s) (Segment.id new)) l = Some new.
Proof.
  intros Hin Huniq.
  destruct (find (fun s => String.eqb (Segment.id s) (Segment.id new)) l)
    as [s|] eqn:E.
  - apply find_some in E. destruct E as [Hs Heq].
    apply String.eqb_eq in Heq. f_equal. apply Huniq; assumption.
  - apply (find_none _ _ E) in Hin. rewrite String.eqb_refl in Hin.
    discriminate.
Qed.

Lemma find_filter_other (id sel : string) (l : list Segment.t) :
  sel <> id ->
  find (fun s => String.eqb (Segment.id s) sel)
       (filter (fun s => negb (String.eqb (Segment.id s) id)) l)
  = find (fun s => String.eqb (Segment.id s) sel) l.
Proof.
  intros Hne. induction l as [|s l IH]; simpl; [reflexivity|].
  destruct (String.eqb_spec (Segment.id s) id) as [E|E]; simpl.
  - destruct (String.eqb_spec (Segment.id s) sel); [congruence|exact IH].
  - rewrite IH. reflexivity.
Qed.

End SelectedSegment.

(** X16.  When the generated id is not the id of a stored segment,
    [useSelectedSegment] after [addSegment] is the new segment itself: the
    one with the generated id, start time [formatTime(t)], end time
    [formatTime(t + 3)] and empty text. *)
Theorem addSegment_selects_new_segment
  (st : ProjectStore.ProjectState) (t : JS.num) (speakerId : option string)
  (newId : string) :
  Forall (fun s => Segment.id s <> newId) (ProjectStore.segments st) ->
  exists new : Segment.t,
    StoreHelpers.useSelectedSegment
      (ProjectStore.addSegment t speakerId newId st) = Some new /\
    Segment.id new = newId /\
    Segment.startTime new = Utils.formatTime t /\
    Segment.endTime new = Utils.formatTime (JS.add t (JS.of_Z 3)) /\
    Segment.text new = ""%string /\
    In new (ProjectStore.segments
              (ProjectStore.addSegment t speakerId newId st)).
Proof.
  intros Hfresh.
  set (new := Segment.mk newId
                (ProjectStore.lor_string
                   (ProjectStore.lor speakerId
                      (ProjectStore.first_speaker_id
                         (ProjectStore.speakers st))) "speaker_1")
                (Utils.formatTime t)
                (Utils.formatTime (JS.add t (JS.of_Z 3))) "").
  assert (Hperm : Permutation (ProjectStore.segments st ++ [new])
                    (ProjectStore.segments
                       (ProjectStore.addSegment t speakerId newId st))).
  { apply (sort_perm Segment.t segment_key). }
  assert (Hin : In new (ProjectStore.segments
                          (ProjectStore.addSegment t speakerId newId st))).
  { apply (Permutation_in _ Hperm). apply in_or_app. right. left.
    reflexivity. }
  exists new. split; [|repeat split; try reflexivity; exact Hin].
  unfold StoreHelpers.useSelectedSegment.
  cbn [ProjectStore.selectedSegmentId ProjectStore.addSegment
       ProjectStore.set ProjectStore.set_selectedSegmentId JS.or_default
       Segment.id].
  change newId with (Segment.id new) at 1.
  apply find_unique_id; [exact Hin|].
  intros s Hs Hid.
  apply (Permutation_in _ (Permutation_sym Hperm)) in Hs.
  apply in_app_or in Hs. destruct Hs as [Hs|[<-|[]]]; [|reflexivity].
  rewrite Forall_forall in Hfresh. exfalso. exact (Hfresh s Hs Hid).
Qed.

Lemma addSegment_selects_new_segment_witness :
  Forall (fun s => Segment.id s <> "new"%string)
    (ProjectStore.segments one_segment_state) /\
  exists new : Segment.t,
    StoreHelpers.useSelectedSegment
      (ProjectStore.addSegment (JS.of_Z 2) None "new" one_segment_state)
    = Some new /\ Segment.id new = "new"%string.
Proof.
  assert (H : Forall (fun s => Segment.id s <> "new"%string)
                (ProjectStore.segments one_segment_state)).
  { simpl. repeat constructor. discriminate. }
  split; [exact H|].
  destruct (addSegment_selects_new_segment one_segment_state (JS.of_Z 2)
              None "new" H) as (new & H1 & H2 & _).
  exists new. split; assumption.
Defined.

(** X17.  After [deleteSegment(id)], [useSelectedSegment] is [null] when
    the selected id was [id], and is what it was before otherwise: deleting
    a segment never changes which other segment is selected. *)
Theorem deleteSegment_selection
  (st : ProjectStore.ProjectState) (id : string) :
  StoreHelpers.useSelectedSegment (ProjectStore.deleteSegment id st)
  = if ProjectStore.option_string_eqb (ProjectStore.selectedSegmentId st) id
    then None
    else StoreHelpers.useSelectedSegment st.
Proof.
  unfold StoreHelpers.useSelectedSegment.
  cbn [ProjectStore.selectedSegmentId ProjectStore.segments
       ProjectStore.deleteSegment ProjectStore.set
       ProjectStore.set_selectedSegmentId ProjectStore.set_segments
       JS.or_default].
  destruct (ProjectStore.selectedSegmentId st) as [sel|]; simpl;
    [|reflexivity].
  destruct (String.eqb_spec sel id) as [E|E]; [reflexivity|].
  apply find_filter_other. exact E.
Qed.

(** ** Split at center *)

(** X18.  "Split at center" on a stored segment is two history steps: it
    shortens the segment to the midpoint of its parsed bounds and then adds
    a segment that starts at the midpoint and lasts the default 3 seconds,
    whatever the end of the original was.  The store gains one segment, the
    new one is selected, one [undo] removes only the added segment and a
    second [undo] restores the segments from before the split. *)
Theorem splitAtCenter_two_history_steps
  (st : ProjectStore.ProjectState) (segmentId newId : string)
  (seg : Segment.t) :
  find (fun s => String.eqb (Segment.id s) segmentId)
       (ProjectStore.segments st) = Some seg ->
  let mid :=
    JS.div (JS.add (Utils.parseTime (Segment.startTime seg))
                   (Utils.parseTime (Segment.endTime seg))) (JS.of_Z 2) in
  let st1 :=
    ProjectStore.updateSegment segmentId
      (Segment.mkPartial None None None (Some (Utils.formatTime mid)) None)
      st in
  let st2 := TimelineActions.splitAtCenter segmentId newId st in
  ProjectStore.past st2
  = (ProjectStore.past st
     ++ [ProjectStore.snapshot st; ProjectStore.snapshot st1])%list /\
  ProjectStore.segments (ProjectStore.undo st2) = ProjectStore.segments st1 /\
  ProjectStore.segments (ProjectStore.undo (ProjectStore.undo st2))
  = ProjectStore.segments st /\
  List.length (ProjectStore.segments st2)
  = S (List.length (ProjectStore.segments st)) /\
  ProjectStore.selectedSegmentId st2 = Some newId /\
  exists new : Segment.t,
    In new (ProjectStore.segments st2) /\
    Segment.id new = newId /\
    Segment.startTime new = Utils.formatTime mid /\
    Segment.endTime new = Utils.formatTime (JS.add mid (JS.of_Z 3)).
Proof.
  intros Hfind. cbv zeta.
  unfold TimelineActions.splitAtCenter. rewrite Hfind.
  set (mid := JS.div _ (JS.of_Z 2)).
  set (st1 := ProjectStore.updateSegment segmentId _ st).
  set (st2 := ProjectStore.addSegment mid _ newId st1).
  assert (Hp2 : ProjectStore.past st2
                = (ProjectStore.past st1 ++ [ProjectStore.snapshot st1])%list)
    by reflexivity.
  assert (Hp1 : ProjectStore.past st1
                = (ProjectStore.past st ++ [ProjectStore.snapshot st])%list)
    by reflexivity.
  destruct (undo_after_push st2 _ _ Hp2) as (Hs2 & _ & Hu2 & _).
  assert (Hp1' : ProjectStore.past (ProjectStore.undo st2)
                 = (ProjectStore.past st ++ [ProjectStore.snapshot st])%list)
    by (rewrite Hu2; exact Hp1).
  destruct (undo_after_push (ProjectStore.undo st2) _ _ Hp1')
    as (Hs1 & _ & _ & _).
  set (new := Segment.mk newId
                (ProjectStore.lor_string
                   (ProjectStore.lor (Some (Segment.speakerId seg))
                      (ProjectStore.first_speaker_id
                         (ProjectStore.speakers st1))) "speaker_1")
                (Utils.formatTime mid)
                (Utils.formatTime (JS.add mid (JS.of_Z 3))) "").
  assert (Hperm : Permutation (ProjectStore.segments st1 ++ [new])
                    (ProjectStore.segments st2)).
  { apply (sort_perm Segment.t segment_key). }
  split; [rewrite Hp2, Hp1, <- app_assoc; reflexivity|].
  split; [exact Hs2|]. split; [exact Hs1|].
  split; [|split; [reflexivity|]].
  - rewrite <- (Permutation_length Hperm), length_app.
    unfold st1. cbn [ProjectStore.segments ProjectStore.updateSegment
      ProjectStore.set ProjectStore.set_segments JS.or_default].
    rewrite length_map. simpl. lia.
  - exists new. split; [|repeat split].
    apply (Permutation_in _ Hperm). apply in_or_app. right. left.
    reflexivity.
Qed.

Lemma splitAtCenter_two_history_steps_witness :
  let seg := Segment.mk "1" "speaker_1" "00:00" "00:05" "Hello" in
  find (fun s => String.eqb (Segment.id s) "1")
       (ProjectStore.segments one_segment_state) = Some seg /\
  ProjectStore.segments
    (ProjectStore.undo
       (ProjectStore.undo
          (TimelineActions.splitAtCenter "1" "new" one_segment_state)))
  = ProjectStore.segments one_segment_state.
Proof.
  cbv zeta.
  assert (H : find (fun s => String.eqb (Segment.id s) "1")
                (ProjectStore.segments one_segment_state)
              = Some (Segment.mk "1" "speaker_1" "00:00" "00:05" "Hello"))
    by reflexivity.
  split; [exact H|].
  exact (proj1 (proj2 (proj2 (splitAtCenter_two_history_steps
                                one_segment_state "1" "new" _ H)))).
Defined.

(* ================================================================== *)
(** * More on the segment drag                                         *)
(* ================================================================== *)

Section DragFacts.
Import JS TimelineUtils ProjectStore Timeline.

Lemma find_id_eq (id : string) (l : list Segment.t) (seg : Segment.t) :
  find (fun s => String.eqb (Segment.id s) id) l = Some seg ->
  Segment.id seg = id.
Proof.
  intros H. apply find_some in H. apply String.eqb_eq. exact (proj2 H).
Qed.

(** One tick of the drag either leaves the store alone or is one
    [updateSegment] of the dragged id that sets times only. *)
Lemma drag_tick_cases (c : Controls) (d : DragState) (x : num)
  (st : ProjectState) (g : list num) :
  fst (handleMouseMove c d x st g) = st \/
  exists t1 t2 : option string,
    fst (handleMouseMove c d x st g)
    = updateSegment (segmentId d) (Segment.mkPartial None None t1 t2 None) st.
Proof.
  unfold handleMouseMove.
  destruct (find _ (segments st)) as [seg|] eqn:Hfind; [|left; reflexivity].
  rewrite (find_id_eq _ _ _ Hfind).
  destruct (mode d).
  - destruct (ltb _ _); [|left; reflexivity].
    right. eexists. eexists. reflexivity.
  - right. eexists. eexists. reflexivity.
  - right. destruct (snapped _); [|destruct (snapped _)];
      eexists; eexists; reflexivity.
Qed.

(** A found segment is updated by a right or move tick. *)
Lemma drag_tick_updates (c : Controls) (d : DragState) (x : num)
  (st : ProjectState) (g : list num) (seg : Segment.t) :
  find (fun s => String.eqb (Segment.id s) (segmentId d)) (segments st)
  = Some seg ->
  mode d <> left ->
  exists t1 t2 : option string,
    fst (handleMouseMove c d x st g)
    = updateSegment (segmentId d) (Segment.mkPartial None None t1 t2 None) st.
Proof.
  intros Hfind Hmode. unfold handleMouseMove. rewrite Hfind.
  rewrite (find_id_eq _ _ _ Hfind).
  destruct (mode d); [congruence| |].
  - eexists. eexists. reflexivity.
  - destruct (snapped _); [|destruct (snapped _)];
      eexists; eexists; reflexivity.
Qed.

Lemma update_times_labels (id : string) (t1 t2 : option string)
  (l : list Segment.t) :
  map (fun s => (Segment.id s, Segment.speakerId s, Segment.text s))
      (map (fun s => if String.eqb (Segment.id s) id
                     then Segment.spread s
                            (Segment.mkPartial None None t1 t2 None)
                     else s) l)
  = map (fun s => (Segment.id s, Segment.speakerId s, Segment.text s)) l.
Proof.
  induction l as [|s l IH]; simpl; [reflexivity|].
  rewrite IH. destruct (String.eqb (Segment.id s) id); reflexivity.
Qed.

Lemma update_times_others (id : string) (t1 t2 : option string)
  (l : list Segment.t) :
  filter (fun s => negb (String.eqb (Segment.id s) id))
      (map (fun s => if String.eqb (Segment.id s) id
                     then Segment.spread s
                            (Segment.mkPartial None None t1 t2 None)
                     else s) l)
  = filter (fun s => negb (String.eqb (Segment.id s) id)) l.
Proof.
  induction l as [|s l IH]; simpl; [reflexivity|].
  destruct (String.eqb (Segment.id s) id) eqn:E; simpl; rewrite E; simpl;
    rewrite IH; reflexivity.
Qed.

End DragFacts.

(** X19.  One mouse-move tick of a segment drag, in any mode and at any
    pointer position, keeps the roster and the selection, keeps the order,
    the ids, the speakers and the texts of all segments (it does not sort
    the segments again), and leaves every segment other than the dragged one
    unchanged. *)
Theorem drag_tick_keeps_other_segments
  (c : Timeline.Controls) (d : Timeline.DragState) (x : JS.num)
  (st : ProjectStore.ProjectState) (g : list JS.num) :
  let st' := fst (Timeline.handleMouseMove c d x st g) in
  ProjectStore.speakers st' = ProjectStore.speakers st /\
  ProjectStore.selectedSegmentId st' = ProjectStore.selectedSegmentId st /\
  map (fun s => (Segment.id s, Segment.speakerId s, Segment.text s))
      (ProjectStore.segments st')
  = map (fun s => (Segment.id s, Segment.speakerId s, Segment.text s))
        (ProjectStore.segments st) /\
  filter (fun s => negb (String.eqb (Segment.id s) (Timeline.segmentId d)))
         (ProjectStore.segments st')
  = filter (fun s => negb (String.eqb (Segment.id s) (Timeline.segmentId d)))
           (ProjectStore.segments st).
Proof.
  cbv zeta.
  destruct (drag_tick_cases c d x st g) as [-> | (t1 & t2 & ->)].
  - repeat split; reflexivity.
  - split; [reflexivity|]. split; [reflexivity|].
    cbn [ProjectStore.updateSegment ProjectStore.set ProjectStore.segments
         ProjectStore.set_segments JS.or_default].
    split; [apply update_times_labels | apply update_times_others].
Qed.

(** X20.  Every mouse-move tick of a right-edge or whole-segment drag on a
    stored segment is one history step of its own: it pushes the snapshot
    from before the tick and empties the redo stack, so that one [undo]
    goes back one tick, not to the state before the drag. *)
Theorem drag_tick_pushes_history
  (c : Timeline.Controls) (d : Timeline.DragState) (x : JS.num)
  (st : ProjectStore.ProjectState) (g : list JS.num) (seg : Segment.t) :
  find (fun s => String.eqb (Segment.id s) (Timeline.segmentId d))
       (ProjectStore.segments st) = Some seg ->
  Timeline.mode d <> Timeline.left ->
  let st' := fst (Timeline.handleMouseMove c d x st g) in
  history_pushed st st' /\
  ProjectStore.segments (ProjectStore.undo st') = ProjectStore.segments st /\
  ProjectStore.canRedo st' = false.
Proof.
  intros Hfind Hmode. cbv zeta.
  destruct (drag_tick_updates c d x st g seg Hfind Hmode) as (t1 & t2 & ->).
  assert (Hp : ProjectStore.past
                 (ProjectStore.updateSegment (Timeline.segmentId d)
                    (Segment.mkPartial None None t1 t2 None) st)
               = (ProjectStore.past st ++ [ProjectStore.snapshot st])%list)
    by reflexivity.
  split; [split; [exact Hp|reflexivity]|].
  split; [|reflexivity].
  exact (proj1 (undo_after_push _ _ _ Hp)).
Qed.

Lemma drag_tick_pushes_history_witness :
  let drag :=
    Timeline.handleSegmentDragStart (JS.of_Z 160) "seg-1" Timeline.right
      playhead_segment in
  let st' :=
    fst (Timeline.handleMouseMove default_controls drag (JS.of_Z 10)
           playhead_state []) in
  history_pushed playhead_state st' /\
  ProjectStore.segments (ProjectStore.undo st')
  = ProjectStore.segments playhead_state /\
  ProjectStore.canRedo st' = false.
Proof.
  cbv zeta.
  apply (drag_tick_pushes_history default_controls
           (Timeline.handleSegmentDragStart (JS.of_Z 160) "seg-1"
              Timeline.right playhead_segment)
           (JS.of_Z 10) playhead_state [] playhead_segment).
  - reflexivity.
  - discriminate.
Defined.

(* ================================================================== *)
(** * Seeking and zooming                                              *)
(* ================================================================== *)

Section ClampFacts.
Import JS.

(** [Math.max(lo, Math.min(hi, v))] on finite bounds [lo <= hi]. *)
Lemma clamp_finite (lo hi : Q) (v : num) :
  (lo <= hi)%Q -> v <> NaN ->
  exists r : Q,
    Math_max (Fin lo) (Math_min (Fin hi) v) = Fin r /\
    (lo <= r)%Q /\ (r <= hi)%Q /\
    (leb (Fin lo) v = true -> leb v (Fin hi) = true ->
     eqb v (Fin r) = true).
Proof.
  intros Hle Hv. destruct v as [| | |q]; [congruence| | |].
  - cbn [Math_min ltb]. unfold Math_max, ltb.
    destruct (Qle_bool hi lo) eqn:E; cbn [negb].
    + exists lo. apply Qle_bool_iff in E.
      split; [reflexivity|]. split; [lra|]. split; [lra|].
      intros _ H. discriminate H.
    + exists hi. split; [reflexivity|]. split; [lra|]. split; [lra|].
      intros _ H. discriminate H.
  - cbn [Math_min ltb Math_max]. exists lo.
    split; [reflexivity|]. split; [lra|]. split; [lra|].
    intros H. discriminate H.
  - unfold Math_min, ltb. destruct (Qle_bool hi q) eqn:E; cbn [negb].
    + apply Qle_bool_iff in E. unfold Math_max, ltb.
      destruct (Qle_bool hi lo) eqn:E'; cbn [negb].
      * apply Qle_bool_iff in E'. exists lo.
        split; [reflexivity|]. split; [lra|]. split; [lra|].
        cbn [leb eqb]. intros H1 H2. apply Qle_bool_iff in H1, H2.
        apply Qeq_bool_iff. lra.
      * exists hi. split; [reflexivity|]. split; [lra|]. split; [lra|].
        cbn [leb eqb]. intros H1 H2. apply Qle_bool_iff in H1, H2.
        apply Qeq_bool_iff. lra.
    + apply Qle_bool_false in E. unfold Math_max, ltb.
      destruct (Qle_bool q lo) eqn:E'; cbn [negb].
      * apply Qle_bool_iff in E'. exists lo.
        split; [reflexivity|]. split; [lra|]. split; [lra|].
        cbn [leb eqb]. intros H1 H2. apply Qle_bool_iff in H1, H2.
        apply Qeq_bool_iff. lra.
      * apply Qle_bool_false in E'. exists q.
        split; [reflexivity|]. split; [lra|]. split; [lra|].
        intros _ _. cbn [eqb]. apply Qeq_bool_iff. reflexivity.
Qed.

End ClampFacts.

(** X22.  The time that the timeline and ruler handlers seek to lies in
    [0, totalDuration], for every finite total duration that is not
    negative and every pointer position and zoom level whose quotient is a
    number; it equals the quotient when that lies in the range. *)
Theorem seekTime_within_duration (T : Q) (x zoomLevel : JS.num) :
  (0 <= T)%Q ->
  JS.div x zoomLevel <> JS.NaN ->
  exists t : Q,
    TimelineActions.seekTime (JS.Fin T) zoomLevel x = JS.Fin t /\
    (0 <= t)%Q /\ (t <= T)%Q /\
    (JS.leb (JS.Fin 0) (JS.div x zoomLevel) = true ->
     JS.leb (JS.div x zoomLevel) (JS.Fin T) = true ->
     JS.eqb (JS.div x zoomLevel) (JS.Fin t) = true).
Proof.
  intros HT Hq. exact (clamp_finite 0 T (JS.div x zoomLevel) HT Hq).
Qed.

Lemma seekTime_within_duration_witness :
  exists t : Q,
    TimelineActions.seekTime (JS.Fin 60) (JS.of_Z 50) (JS.of_Z 4000)
    = JS.Fin t /\
    (0 <= t)%Q /\ (t <= 60)%Q /\
    (JS.leb (JS.Fin 0) (JS.div (JS.of_Z 4000) (JS.of_Z 50)) = true ->
     JS.leb (JS.div (JS.of_Z 4000) (JS.of_Z 50)) (JS.Fin 60) = true ->
     JS.eqb (JS.div (JS.of_Z 4000) (JS.of_Z 50)) (JS.Fin t) = true).
Proof.
  apply (seekTime_within_duration 60 (JS.of_Z 4000) (JS.of_Z 50)).
  - vm_compute. discriminate.
  - vm_compute. discriminate.
Defined.

(** X23.  [setZoomLevel] stores a level between 10 and 200 for every
    argument other than [NaN], equal to the argument when that is in the
    range; on [NaN] it stores [NaN]. *)
Theorem setZoomLevel_clamps (level : JS.num) :
  (level <> JS.NaN ->
   exists v : Q,
     PlayerStore.setZoomLevel level = JS.Fin v /\
     (10 <= v)%Q /\ (v <= 200)%Q /\
     (JS.leb PlayerStore.ZOOM_MIN level = true ->
      JS.leb level PlayerStore.ZOOM_MAX = true ->
      JS.eqb level (JS.Fin v) = true)) /\
  (level = JS.NaN -> PlayerStore.setZoomLevel level = JS.NaN).
Proof.
  split.
  - intros H.
    assert (Hle : (inject_Z 10 <= inject_Z 200)%Q) by (vm_compute; discriminate).
    exact (clamp_finite (inject_Z 10) (inject_Z 200) level Hle H).
  - intros ->. reflexivity.
Qed.

Lemma setZoomLevel_clamps_witness :
  exists v : Q,
    PlayerStore.setZoomLevel (JS.of_Z 500) = JS.Fin v /\
    (10 <= v)%Q /\ (v <= 200)%Q /\
    (JS.leb PlayerStore.ZOOM_MIN (JS.of_Z 500) = true ->
     JS.leb (JS.of_Z 500) PlayerStore.ZOOM_MAX = true ->
     JS.eqb (JS.of_Z 500) (JS.Fin v) = true).
Proof.
  apply (proj1 (setZoomLevel_clamps (JS.of_Z 500))). discriminate.
Defined.

(* ================================================================== *)
(** * More on the time codec and the subtitle timestamps               *)
(* ================================================================== *)

Section FractionalValues.
Import JS.

Lemma Qfloor_unique (x : Q) (z : Z) :
  (inject_Z z <= x)%Q -> (x < inject_Z z + 1)%Q -> Qfloor x = z.
Proof.
  intros Hlo Hhi.
  pose proof (Qfloor_le x) as H1. pose proof (Qlt_floor x) as H2.
  rewrite inject_Z_plus in H2. change (inject_Z 1) with 1%Q in H2.
  assert (Ha : (Qfloor x < z + 1)%Z).
  { rewrite Zlt_Qlt, inject_Z_plus. change (inject_Z 1) with 1%Q. lra. }
  assert (Hb : (z < Qfloor x + 1)%Z).
  { rewrite Zlt_Qlt, inject_Z_plus. change (inject_Z 1) with 1%Q. lra. }
  lia.
Qed.

(** The integer quotient of a whole part [n] plus a fraction [f]. *)
Lemma Qfloor_div_frac (a f : Q) (n b : Z) :
  (a == inject_Z n + f)%Q -> (0 <= f)%Q -> (f < 1)%Q -> (0 < b)%Z ->
  Qfloor (a / inject_Z b) = (n / b)%Z.
Proof.
  intros Ha Hf0 Hf1 Hb.
  pose proof (Z.div_mod n b ltac:(lia)) as Hdm.
  pose proof (Z.mod_pos_bound n b Hb) as [Hm0 Hm1].
  assert (Hn : (inject_Z n
                == inject_Z b * inject_Z (n / b) + inject_Z (n mod b))%Q).
  { rewrite <- inject_Z_mult, <- inject_Z_plus, <- Hdm. reflexivity. }
  assert (Hbq : (0 < inject_Z b)%Q).
  { change 0%Q with (inject_Z 0). rewrite <- Zlt_Qlt. exact Hb. }
  assert (Hm0q : (0 <= inject_Z (n mod b))%Q).
  { change 0%Q with (inject_Z 0). rewrite <- Zle_Qle. exact Hm0. }
  assert (Hm1q : (inject_Z (n mod b) + 1 <= inject_Z b)%Q).
  { change 1%Q with (inject_Z 1). rewrite <- inject_Z_plus, <- Zle_Qle. lia. }
  apply Qfloor_unique.
  - apply Qle_shift_div_l; [exact Hbq|]. rewrite Ha, Hn. lra.
  - apply Qlt_shift_div_r; [exact Hbq|]. rewrite Ha, Hn. lra.
Qed.

Lemma floor_div_frac (a f : Q) (n b : Z) :
  (a == inject_Z n + f)%Q -> (0 <= f)%Q -> (f < 1)%Q -> (0 < b)%Z ->
  Math_floor (div (Fin a) (of_Z b)) = of_Z (n / b).
Proof.
  intros Ha Hf0 Hf1 Hb. unfold of_Z at 1. cbn [div].
  rewrite (Qis_zero_inject_Z b) by lia. cbn [Math_floor]. f_equal.
  rewrite (Qfloor_comp _ _ (Qred_correct _)).
  exact (Qfloor_div_frac a f n b Ha Hf0 Hf1 Hb).
Qed.

Lemma rem_frac (a f : Q) (n b : Z) :
  (a == inject_Z n + f)%Q -> (0 <= n)%Z -> (0 <= f)%Q -> (f < 1)%Q ->
  (0 < b)%Z ->
  exists r : Q,
    rem (Fin a) (of_Z b) = Fin r /\ (r == inject_Z (n mod b) + f)%Q.
Proof.
  intros Ha Hn Hf0 Hf1 Hb. unfold of_Z. cbn [rem].
  rewrite (Qis_zero_inject_Z b) by lia.
  eexists. split; [reflexivity|]. rewrite Qred_correct.
  assert (Hq : Qtrunc (a / inject_Z b) = (n / b)%Z).
  { unfold Qtrunc.
    replace (Qle_bool 0 (a / inject_Z b)) with true.
    - exact (Qfloor_div_frac a f n b Ha Hf0 Hf1 Hb).
    - symmetry. apply Qle_bool_iff. apply Qle_shift_div_l.
      + change 0%Q with (inject_Z 0). rewrite <- Zlt_Qlt. exact Hb.
      + rewrite Qmult_0_l, Ha.
        assert (0 <= inject_Z n)%Q
          by (change 0%Q with (inject_Z 0); rewrite <- Zle_Qle; exact Hn).
        lra. }
  rewrite Hq, Ha. rewrite (Z.mod_eq n b) by lia.
  unfold Zminus. rewrite inject_Z_plus, inject_Z_opp, inject_Z_mult. ring.
Qed.

Lemma floor_frac (r f : Q) (k : Z) :
  (r == inject_Z k + f)%Q -> (0 <= f)%Q -> (f < 1)%Q ->
  Math_floor (Fin r) = of_Z k.
Proof.
  intros Hr Hf0 Hf1. cbn [Math_floor]. f_equal.
  apply Qfloor_unique; rewrite Hr; lra.
Qed.

(** Rounding a scaled fraction. *)
Lemma round_scaled (r : Q) (scale k : Z) :
  (inject_Z k <= r * inject_Z scale + (1 # 2))%Q ->
  (r * inject_Z scale + (1 # 2) < inject_Z k + 1)%Q ->
  Math_round (mul (Fin r) (of_Z scale)) = of_Z k.
Proof.
  intros Hlo Hhi. unfold of_Z at 1. cbn [mul Math_round]. f_equal.
  apply Qfloor_unique; rewrite Qred_correct; assumption.
Qed.

Lemma toString_small (k : Z) :
  (0 <= k)%Z -> (Z.to_N k < ten_pow_21)%N ->
  toString (of_Z k) = decimal_digits (Z.to_N k).
Proof.
  intros Hk Hlt. rewrite (toString_of_Z k Hk). unfold nat_toString.
  replace (Z.to_N k <? ten_pow_21)%N with true
    by (symmetry; apply N.ltb_lt; exact Hlt).
  reflexivity.
Qed.

End FractionalValues.

Section Timestamps.
Import JS ExportFormats.
Local Open Scope string_scope.

(** The clock of a timestamp depends on the whole seconds only. *)
Lemma timestamp_clock_frac (n : N) (a f : Q) :
  (a == inject_Z (Z.of_N n) + f)%Q -> (0 <= f)%Q -> (f < 1)%Q ->
  (n / 3600 < ten_pow_21)%N ->
  timestamp_clock (Fin a)
  = padStart (decimal_digits (n / 3600)) 2 "0" ++ ":"
    ++ padStart (decimal_digits (n mod 3600 / 60)) 2 "0" ++ ":"
    ++ padStart (decimal_digits (n mod 60)) 2 "0".
Proof.
  intros Ha Hf0 Hf1 Hh. unfold timestamp_clock.
  assert (Hn : (0 <= Z.of_N n)%Z) by lia.
  rewrite (floor_div_frac a f (Z.of_N n) 3600 Ha Hf0 Hf1 ltac:(lia)).
  destruct (rem_frac a f (Z.of_N n) 3600 Ha Hn Hf0 Hf1 ltac:(lia))
    as (r1 & -> & Hr1).
  rewrite (floor_div_frac r1 f _ 60 Hr1 Hf0 Hf1 ltac:(lia)).
  destruct (rem_frac a f (Z.of_N n) 60 Ha Hn Hf0 Hf1 ltac:(lia))
    as (r2 & -> & Hr2).
  rewrite (floor_frac r2 f _ Hr2 Hf0 Hf1).
  change 3600%Z with (Z.of_N 3600). change 60%Z with (Z.of_N 60).
  rewrite <- !N2Z.inj_mod, <- !N2Z.inj_div.
  assert (Hm : (n mod 3600 / 60 < 60)%N).
  { apply N.Div0.div_lt_upper_bound.
    pose proof (N.mod_upper_bound n 3600 ltac:(discriminate)). lia. }
  assert (Hs : (n mod 60 < 60)%N)
    by (apply N.mod_upper_bound; discriminate).
  rewrite !toString_small; rewrite ?N2Z.id;
    try apply N2Z.is_nonneg; try assumption;
    try (unfold ten_pow_21; lia).
  reflexivity.
Qed.

(** The milliseconds of a timestamp are the rounded thousandths of the
    fraction. *)
Lemma timestamp_millis_frac (n : N) (a f : Q) (k : N) :
  (a == inject_Z (Z.of_N n) + f)%Q -> (0 <= f)%Q -> (f < 1)%Q ->
  (inject_Z (Z.of_N k) <= f * 1000 + (1 # 2))%Q ->
  (f * 1000 + (1 # 2) < inject_Z (Z.of_N k) + 1)%Q ->
  timestamp_millis (Fin a) = padStart (decimal_digits k) 3 "0".
Proof.
  intros Ha Hf0 Hf1 Hlo Hhi. unfold timestamp_millis.
  assert (Hn : (0 <= Z.of_N n)%Z) by lia.
  destruct (rem_frac a f (Z.of_N n) 1 Ha Hn Hf0 Hf1 ltac:(lia))
    as (r & -> & Hr).
  rewrite Z.mod_1_r in Hr. change (inject_Z 0) with 0%Q in Hr.
  rewrite (round_scaled r 1000 (Z.of_N k)).
  - assert (Hk : (k <= 1000)%N).
    { assert (H : (Z.of_N k < 1001)%Z).
      { rewrite Zlt_Qlt. change (inject_Z 1001) with 1001%Q. lra. }
      lia. }
    rewrite toString_small; rewrite ?N2Z.id;
      try apply N2Z.is_nonneg; try (unfold ten_pow_21; lia).
    reflexivity.
  - change (inject_Z 1000) with 1000%Q. rewrite Hr. lra.
  - change (inject_Z 1000) with 1000%Q. rewrite Hr. lra.
Qed.

End Timestamps.


Section ParseFields.
Import JS.
Local Open Scope string_scope.

Lemma split_fields_parse (A B : string) :
  all_digits A = true -> A <> "" ->
  all_digits B = true -> B <> "" ->
  Utils.parseTime (A ++ ":" ++ B)
  = of_N (digits_val 0 A * 60 + digits_val 0 B).
Proof.
  intros HA HAne HB HBne. unfold Utils.parseTime.
  rewrite (split_two_fields A B HA HB).
  rewrite (parseInt_digits A HA HAne), (parseFloat_digits B HB HBne).
  unfold of_N. cbn [isNaN of_Z orb].
  fold (of_Z (Z.of_N (digits_val 0 A))).
  fold (of_Z (Z.of_N (digits_val 0 B))).
  rewrite mul_of_Z, add_of_Z. f_equal. lia.
Qed.

End ParseFields.

(** X24.  On two fields of one to nine decimal digits each, [parseTime]
    returns sixty times the first plus the second; the second field is not
    limited to 59. *)
Theorem parseTime_digit_fields (A B : string) :
  digit_field 9 A = true -> digit_field 9 B = true ->
  Utils.parseTime (A ++ ":" ++ B)
  = JS.of_N (JS.digits_val 0 A * 60 + JS.digits_val 0 B).
Proof.
  intros HA HB.
  destruct (digit_field_facts 9 A HA) as (HAd & HAne & _).
  destruct (digit_field_facts 9 B HB) as (HBd & HBne & _).
  exact (split_fields_parse A B HAd HAne HBd HBne).
Qed.

Lemma parseTime_digit_fields_witness :
  Utils.parseTime ("1" ++ ":" ++ "90")
  = JS.of_N (JS.digits_val 0 "1" * 60 + JS.digits_val 0 "90") /\
  Utils.parseTime "1:90" = JS.of_Z 150.
Proof.
  split.
  - apply (parseTime_digit_fields "1" "90"); reflexivity.
  - vm_compute. reflexivity.
Defined.

(** X25.  [formatTime] does not carry rounded seconds into the minutes: for
    a time of [m] minutes and at least 59.95 seconds the seconds round to 60
    and the result is the minutes followed by ":60", which [parseTime] reads
    as the start of the next minute. *)
Theorem formatTime_seconds_round_to_60 (m : N) (f : Q) :
  (m < JS.ten_pow_21)%N ->
  (19 # 20 <= f)%Q -> (f < 1)%Q ->
  Utils.formatTime (JS.Fin (inject_Z (Z.of_N (60 * m + 59)) + f))
  = (JS.padStart (JS.decimal_digits m) 2 "0" ++ ":60")%string /\
  Utils.parseTime
    (Utils.formatTime (JS.Fin (inject_Z (Z.of_N (60 * m + 59)) + f)))
  = JS.of_N (60 * m + 60).
Proof.
  intros Hm Hf0 Hf1.
  assert (Hfmt :
    Utils.formatTime (JS.Fin (inject_Z (Z.of_N (60 * m + 59)) + f))
    = (JS.padStart (JS.decimal_digits m) 2 "0" ++ ":60")%string).
  { unfold Utils.formatTime.
    set (a := (inject_Z (Z.of_N (60 * m + 59)) + f)%Q).
    assert (Ha : (a == inject_Z (Z.of_N (60 * m + 59)) + f)%Q)
      by reflexivity.
    assert (Hf0' : (0 <= f)%Q) by lra.
    rewrite (floor_div_frac a f _ 60 Ha Hf0' Hf1 ltac:(lia)).
    destruct (rem_frac a f _ 60 Ha ltac:(lia) Hf0' Hf1 ltac:(lia))
      as (r & -> & Hr).
    replace (Z.of_N (60 * m + 59) mod 60)%Z with 59%Z in Hr.
    2:{ rewrite N2Z.inj_add, N2Z.inj_mul. change (Z.of_N 60) with 60%Z.
        change (Z.of_N 59) with 59%Z.
        rewrite Z.add_comm, Z.mul_comm, Z.mod_add by lia. reflexivity. }
    replace (Z.of_N (60 * m + 59) / 60)%Z with (Z.of_N m).
    2:{ rewrite N2Z.inj_add, N2Z.inj_mul. change (Z.of_N 60) with 60%Z.
        change (Z.of_N 59) with 59%Z.
        rewrite Z.add_comm, Z.mul_comm, Z.div_add by lia. reflexivity. }
    change (inject_Z 59) with 59%Q in Hr.
    rewrite (round_scaled r 10 600).
    2:{ change (inject_Z 10) with 10%Q. change (inject_Z 600) with 600%Q.
        rewrite Hr. lra. }
    2:{ change (inject_Z 10) with 10%Q. change (inject_Z 600) with 600%Q.
        rewrite Hr. lra. }
    change (JS.of_Z 600) with (JS.of_Z (60 * 10)).
    rewrite div_of_Z_exact by lia.
    rewrite rem_of_Z by lia.
    rewrite Z.mod_1_r, eqb_of_Z_refl.
    rewrite toFixed_0_of_Z by (unfold JS.ten_pow_21; lia).
    rewrite toString_small; rewrite ?N2Z.id;
      try apply N2Z.is_nonneg; try assumption.
    reflexivity. }
  split; [exact Hfmt|].
  rewrite Hfmt.
  assert (HA : all_digits (JS.padStart (JS.decimal_digits m) 2 "0") = true).
  { unfold JS.padStart. rewrite zeros_all_digits. apply decimal_digits_all. }
  change (":60"%string) with (":" ++ "60")%string.
  rewrite (split_fields_parse _ "60" HA (padStart_2_nonempty _)
             eq_refl ltac:(discriminate)).
  unfold JS.padStart. rewrite zeros_value, decimal_digits_value.
  f_equal. change (JS.digits_val 0 "60") with 60%N. lia.
Qed.

Lemma formatTime_seconds_round_to_60_witness :
  Utils.formatTime (JS.Fin (inject_Z (Z.of_N (60 * 0 + 59)) + (24 # 25)))
  = (JS.padStart (JS.decimal_digits 0) 2 "0" ++ ":60")%string /\
  Utils.parseTime
    (Utils.formatTime
       (JS.Fin (inject_Z (Z.of_N (60 * 0 + 59)) + (24 # 25))))
  = JS.of_N (60 * 0 + 60).
Proof.
  apply (formatTime_seconds_round_to_60 0 (24 # 25)).
  - reflexivity.
  - vm_compute. discriminate.
  - reflexivity.
Defined.

(** X26.  For [n] whole seconds below 2^32 and a fraction that is within a
    quarter of a thousandth of [j] thousandths, the SRT and VTT timestamps
    are the hours, the minutes within the hour and the seconds within the
    minute of [n], two digits at least each, then the separator (a comma
    for SRT, a full stop for VTT) and [j] on three digits. *)
Theorem subtitle_time_of_millis (n j : N) (f : Q) :
  (n < two_pow_32)%N -> (j < 1000)%N ->
  (0 <= f)%Q ->
  (inject_Z (Z.of_N j) - (1 # 4) <= f * 1000)%Q ->
  (f * 1000 <= inject_Z (Z.of_N j) + (1 # 4))%Q ->
  let seconds := JS.Fin (inject_Z (Z.of_N n) + f) in
  let clock :=
    (JS.padStart (JS.decimal_digits (n / 3600)) 2 "0" ++ ":"
     ++ JS.padStart (JS.decimal_digits (n mod 3600 / 60)) 2 "0" ++ ":"
     ++ JS.padStart (JS.decimal_digits (n mod 60)) 2 "0")%string in
  ExportFormats.secondsToSrtTime seconds
  = (clock ++ "," ++ JS.padStart (JS.decimal_digits j) 3 "0")%string /\
  ExportFormats.secondsToVttTime seconds
  = (clock ++ "." ++ JS.padStart (JS.decimal_digits j) 3 "0")%string.
Proof.
  intros Hn Hj Hf0 Hlo Hhi. cbv zeta.
  assert (Hj1 : (inject_Z (Z.of_N j) <= 999)%Q).
  { change 999%Q with (inject_Z 999). rewrite <- Zle_Qle. lia. }
  assert (Hf1 : (f < 1)%Q) by lra.
  assert (Hh : (n / 3600 < JS.ten_pow_21)%N).
  { apply N.Div0.div_lt_upper_bound.
    unfold two_pow_32 in Hn. unfold JS.ten_pow_21. lia. }
  assert (Ha : (inject_Z (Z.of_N n) + f == inject_Z (Z.of_N n) + f)%Q)
    by reflexivity.
  unfold ExportFormats.secondsToSrtTime, ExportFormats.secondsToVttTime.
  rewrite (timestamp_clock_frac n _ f Ha Hf0 Hf1 Hh).
  rewrite (timestamp_millis_frac n _ f j Ha Hf0 Hf1 ltac:(lra) ltac:(lra)).
  split; reflexivity.
Qed.

Lemma subtitle_time_of_millis_witness :
  ExportFormats.secondsToSrtTime
    (JS.Fin (inject_Z (Z.of_N 3661) + (123 # 1000)))
  = "01:01:01,123"%string /\
  ExportFormats.secondsToVttTime
    (JS.Fin (inject_Z (Z.of_N 3661) + (123 # 1000)))
  = "01:01:01.123"%string.
Proof.
  apply (subtitle_time_of_millis 3661 123 (123 # 1000)).
  - reflexivity.
  - reflexivity.
  - vm_compute. discriminate.
  - vm_compute. discriminate.
  - vm_compute. discriminate.
Defined.

(** X27.  The subtitle timestamps do not carry rounded milliseconds into
    the seconds: for [n] whole seconds and a fraction of at least 0.9995 the
    milliseconds field is the four characters 1000 after the clock of [n],
    in the SRT and in the VTT form. *)
Theorem subtitle_time_millis_overflow (n : N) (f : Q) :
  (n / 3600 < JS.ten_pow_21)%N ->
  (1999 # 2000 <= f)%Q -> (f < 1)%Q ->
  let seconds := JS.Fin (inject_Z (Z.of_N n) + f) in
  let clock :=
    (JS.padStart (JS.decimal_digits (n / 3600)) 2 "0" ++ ":"
     ++ JS.padStart (JS.decimal_digits (n mod 3600 / 60)) 2 "0" ++ ":"
     ++ JS.padStart (JS.decimal_digits (n mod 60)) 2 "0")%string in
  ExportFormats.secondsToSrtTime seconds = (clock ++ ",1000")%string /\
  ExportFormats.secondsToVttTime seconds = (clock ++ ".1000")%string.
Proof.
  intros Hh Hlo Hf1. cbv zeta.
  assert (Hf0 : (0 <= f)%Q) by lra.
  assert (Ha : (inject_Z (Z.of_N n) + f == inject_Z (Z.of_N n) + f)%Q)
    by reflexivity.
  unfold ExportFormats.secondsToSrtTime, ExportFormats.secondsToVttTime.
  rewrite (timestamp_clock_frac n _ f Ha Hf0 Hf1 Hh).
  rewrite (timestamp_millis_frac n _ f 1000 Ha Hf0 Hf1).
  - split; reflexivity.
  - change (inject_Z (Z.of_N 1000)) with 1000%Q. lra.
  - change (inject_Z (Z.of_N 1000)) with 1000%Q. lra.
Qed.

Lemma subtitle_time_millis_overflow_witness :
  ExportFormats.secondsToSrtTime
    (JS.Fin (inject_Z (Z.of_N 59) + (9996 # 10000)))
  = "00:00:59,1000"%string /\
  ExportFormats.secondsToVttTime
    (JS.Fin (inject_Z (Z.of_N 59) + (9996 # 10000)))
  = "00:00:59.1000"%string.
Proof.
  apply (subtitle_time_millis_overflow 59 (9996 # 10000)).
  - reflexivity.
  - vm_compute. discriminate.
  - reflexivity.
Defined.

(* ================================================================== *)
(** * The CSV export                                                   *)
(* ================================================================== *)

Section CsvFacts.
Import JS ExportFormats.
Local Open Scope string_scope.

Lemma append_inv_head (a x y : string) : a ++ x = a ++ y -> x = y.
Proof.
  induction a as [|c a IH]; simpl; intros H; [exact H|].
  injection H as H. exact (IH H).
Qed.

(** The escaped and closed text determines the text. *)
Lemma double_quotes_closed_inj (t1 t2 : string) :
  double_quotes t1 ++ String quote "" = double_quotes t2 ++ String quote "" ->
  t1 = t2.
Proof.
  revert t2. induction t1 as [|c1 t1 IH]; intros [|c2 t2]; simpl.
  - reflexivity.
  - destruct (Ascii.eqb_spec c2 quote) as [E|E]; simpl; intros H.
    + injection H as H. destruct (double_quotes t2); discriminate H.
    + injection H as H1 H2. congruence.
  - destruct (Ascii.eqb_spec c1 quote) as [E|E]; simpl; intros H.
    + injection H as H. destruct (double_quotes t1); discriminate H.
    + injection H as H1 H2. congruence.
  - destruct (Ascii.eqb_spec c1 quote) as [E1|E1];
      destruct (Ascii.eqb_spec c2 quote) as [E2|E2]; simpl; intros H.
    + injection H as H. rewrite (IH t2 H). congruence.
    + injection H as H1 H2. congruence.
    + injection H as H1 H2. congruence.
    + injection H as H1 H2. rewrite (IH t2 H2). congruence.
Qed.

End CsvFacts.

(** X28.  The CSV escaping loses nothing: two segments with the same times
    and speaker whose rows of [exportToCsv] are equal have the same text. *)
Theorem csvRow_text_injective (speakers : list Speaker.t)
  (s1 s2 : Segment.t) :
  Segment.startTime s1 = Segment.startTime s2 ->
  Segment.endTime s1 = Segment.endTime s2 ->
  Segment.speakerId s1 = Segment.speakerId s2 ->
  ExportFormats.csvRow speakers s1 = ExportFormats.csvRow speakers s2 ->
  Segment.text s1 = Segment.text s2.
Proof.
  intros Hs He Hsp H. unfold ExportFormats.csvRow in H.
  rewrite Hs, He, Hsp in H.
  repeat (first [apply append_inv_head in H | injection H as H]).
  apply double_quotes_closed_inj. exact H.
Qed.

Lemma csvRow_text_injective_witness :
  let q := String ExportFormats.quote "" in
  let s1 := Segment.mk "1" "speaker_1" "00:00" "00:05" ("a" ++ q) in
  let s2 := Segment.mk "2" "speaker_1" "00:00" "00:05" ("a" ++ q) in
  ExportFormats.csvRow [] s1 = ExportFormats.csvRow [] s2 /\
  Segment.text s1 = Segment.text s2.
Proof.
  cbv zeta.
  assert (H : ExportFormats.csvRow []
                (Segment.mk "1" "speaker_1" "00:00" "00:05"
                   ("a" ++ String ExportFormats.quote ""))
              = ExportFormats.csvRow []
                  (Segment.mk "2" "speaker_1" "00:00" "00:05"
                     ("a" ++ String ExportFormats.quote "")))
    by reflexivity.
  split; [exact H|].
  exact (csvRow_text_injective [] _ _ eq_refl eq_refl eq_refl H).
Defined.

(* ================================================================== *)
(** * The minimum duration on the half-second grid                     *)
(* ================================================================== *)

Section HalfSeconds.
Import JS.
Local Open Scope string_scope.

Lemma split_go_last_plain (B cur : string) :
  all_chars not_colon B = true ->
  split_go ":" cur B = [rev_string "" (rev_string cur B)].
Proof.
  revert cur. induction B as [|c B IH]; intros cur H; simpl.
  - reflexivity.
  - simpl in H. apply andb_true_iff in H. destruct H as [Hc HB].
    unfold not_colon in Hc. apply negb_true_iff in Hc. rewrite Hc.
    apply IH, HB.
Qed.

Lemma split_minutes_rest (A B : string) :
  all_digits A = true -> all_chars not_colon B = true ->
  split ":" (A ++ ":" ++ B) = [A; B].
Proof.
  intros HA HB. unfold split.
  change (":" ++ B) with (String ":" B).
  rewrite (split_go_field A "" B HA), (split_go_last_plain B "" HB).
  rewrite !rev_string_involutive. reflexivity.
Qed.

(** The seconds field that [formatTime] prints for [s] and a half seconds,
    and what [parseFloat] reads from it. *)
Lemma half_second_field (s : nat) :
  (s < 60)%nat ->
  let v := div (of_Z (10 * Z.of_nat s + 5)) (of_Z 10) in
  let str := if eqb (rem v (of_Z 1)) (of_Z 0)
             then padStart (toFixed v 0) 2 "0"
             else padStart (toFixed v 1) 4 "0" in
  all_chars not_colon str = true /\
  exists q : Q,
    parseFloat str = Fin q /\ (q == inject_Z (Z.of_nat s) + (1 # 2))%Q.
Proof.
  intros Hs. cbv zeta.
  do 60 (destruct s as [|s];
         [split; [vm_compute; reflexivity|];
          eexists; split; vm_compute; reflexivity|]).
  lia.
Qed.

(** Whole seconds survive [formatTime] and [parseTime]. *)
Lemma whole_second_codec (n : N) :
  (n / 60 < ten_pow_21)%N ->
  Utils.parseTime (Utils.formatTime (of_N n)) = of_N n.
Proof.
  intros Hn. rewrite (formatTime_whole n Hn).
  set (A := padStart (decimal_digits (n / 60)) 2 "0").
  set (B := padStart (decimal_digits (n mod 60)) 2 "0").
  assert (HA : all_digits A = true).
  { unfold A, padStart. rewrite zeros_all_digits. apply decimal_digits_all. }
  assert (HB : all_digits B = true).
  { unfold B, padStart. rewrite zeros_all_digits. apply decimal_digits_all. }
  rewrite (split_fields_parse A B HA (padStart_2_nonempty _)
             HB (padStart_2_nonempty _)).
  unfold A, B, padStart. rewrite !zeros_value, !decimal_digits_value.
  f_equal. rewrite (N.div_mod n 60) at 3 by discriminate. lia.
Qed.


Lemma half_seconds_even (n : N) : half_seconds (2 * n) = of_N n.
Proof.
  unfold half_seconds, of_N. apply Fin_Qred_Z.
  rewrite N2Z.inj_mul, inject_Z_mult. change (inject_Z (Z.of_N 2)) with 2%Q.
  field.
Qed.

Lemma half_second_odd_codec (n : N) (a : Q) :
  (a == inject_Z (Z.of_N n) + (1 # 2))%Q ->
  (n / 60 < ten_pow_21)%N ->
  eqb (Utils.parseTime (Utils.formatTime (Fin a))) (Fin a) = true.
Proof.
  intros Ha Hn.
  assert (Hf0 : (0 <= 1 # 2)%Q) by discriminate.
  assert (Hf1 : (1 # 2 < 1)%Q) by reflexivity.
  assert (Hn0 : (0 <= Z.of_N n)%Z) by lia.
  set (s := N.to_nat (n mod 60)).
  assert (Hs : (s < 60)%nat).
  { unfold s. pose proof (N.mod_upper_bound n 60 ltac:(discriminate)). lia. }
  assert (Hsz : Z.of_nat s = (Z.of_N n mod 60)%Z).
  { unfold s. rewrite N_nat_Z, N2Z.inj_mod. reflexivity. }
  unfold Utils.formatTime.
  rewrite (floor_div_frac a (1 # 2) (Z.of_N n) 60 Ha Hf0 Hf1 ltac:(lia)).
  destruct (rem_frac a (1 # 2) (Z.of_N n) 60 Ha Hn0 Hf0 Hf1 ltac:(lia))
    as (r & -> & Hr).
  rewrite <- Hsz in Hr.
  rewrite (round_scaled r 10 (10 * Z.of_nat s + 5)).
  2:{ rewrite Hr, inject_Z_plus, inject_Z_mult.
      change (inject_Z 10) with 10%Q. change (inject_Z 5) with 5%Q. lra. }
  2:{ rewrite Hr, inject_Z_plus, inject_Z_mult.
      change (inject_Z 10) with 10%Q. change (inject_Z 5) with 5%Q. lra. }
  destruct (half_second_field s Hs) as (Hplain & q & Hpf & Hq).
  cbv zeta in Hplain, Hpf.
  set (str := if eqb (rem (div (of_Z (10 * Z.of_nat s + 5)) (of_Z 10))
                        (of_Z 1)) (of_Z 0)
              then padStart (toFixed (div (of_Z (10 * Z.of_nat s + 5))
                                        (of_Z 10)) 0) 2 "0"
              else padStart (toFixed (div (of_Z (10 * Z.of_nat s + 5))
                                        (of_Z 10)) 1) 4 "0") in *.
  change 60%Z with (Z.of_N 60). rewrite <- N2Z.inj_div.
  rewrite toString_small;
    rewrite ?N2Z.id; try apply N2Z.is_nonneg; try assumption.
  set (A := padStart (decimal_digits (n / 60)) 2 "0").
  assert (HA : all_digits A = true).
  { unfold A, padStart. rewrite zeros_all_digits. apply decimal_digits_all. }
  unfold Utils.parseTime.
  rewrite (split_minutes_rest A str HA Hplain).
  rewrite (parseInt_digits A HA (padStart_2_nonempty _)), Hpf.
  unfold A, padStart. rewrite zeros_value, decimal_digits_value.
  unfold of_N, of_Z. cbn [isNaN orb mul add eqb].
  apply Qeq_bool_iff. rewrite !Qred_correct, Ha, Hq, Hsz.
  rewrite N2Z.inj_div. change (Z.of_N 60) with 60%Z.
  pose proof (Z.div_mod (Z.of_N n) 60 ltac:(lia)) as Hdm.
  rewrite Hdm at 3. rewrite inject_Z_plus, inject_Z_mult.
  change (inject_Z 60) with 60%Q. ring.
Qed.

(** A whole number of half seconds survives [formatTime] and [parseTime]. *)
Lemma half_second_codec (h : N) :
  (h / 120 < ten_pow_21)%N ->
  eqb (Utils.parseTime (Utils.formatTime (half_seconds h))) (half_seconds h)
  = true.
Proof.
  intros Hh.
  assert (Hn : (h / 2 / 60 < ten_pow_21)%N).
  { rewrite N.Div0.div_div. exact Hh. }
  pose proof (N.div_mod h 2 ltac:(discriminate)) as Hdm.
  pose proof (N.mod_upper_bound h 2 ltac:(discriminate)) as Hm.
  assert (Hcase : (h mod 2 = 0 \/ h mod 2 = 1)%N)
    by (clear - Hm; generalize dependent (h mod 2)%N; intros; lia).
  remember (h / 2)%N as n eqn:Heqn. clear Heqn Hh Hm.
  destruct Hcase as [E|E]; rewrite E in Hdm; clear E; subst h.
  - rewrite N.add_0_r, half_seconds_even, (whole_second_codec _ Hn).
    apply eqb_of_Z_refl.
  - unfold half_seconds. apply (half_second_odd_codec n); [|exact Hn].
    rewrite Qred_correct.
    rewrite N2Z.inj_add, N2Z.inj_mul, inject_Z_plus, inject_Z_mult.
    change (inject_Z (Z.of_N 2)) with 2%Q.
    change (inject_Z (Z.of_N 1)) with 1%Q. field.
Qed.

End HalfSeconds.

Section DragMinimum.
Import JS TimelineUtils.

Lemma Math_max_bounds (a b B : Q) :
  (a <= B)%Q -> (b <= B)%Q ->
  exists r : Q, Math_max (Fin a) (Fin b) = Fin r /\ (a <= r)%Q /\ (r <= B)%Q.
Proof.
  intros Ha Hb. unfold Math_max, ltb.
  destruct (Qle_bool b a) eqn:E; cbn [negb].
  - exists a. split; [reflexivity|]. lra.
  - exists b. split; [reflexivity|]. apply Qle_bool_false in E. lra.
Qed.

(** The enabled half-second grid takes a time at or above a grid point, and
    at most 2^32, to a whole number of half seconds at or above that
    point. *)
Lemma half_grid_snap (k : N) (r : Q) :
  (inject_Z (Z.of_N k) * (1 # 2) <= r)%Q ->
  (r <= inject_Z (Z.of_N two_pow_32))%Q ->
  exists h : N,
    snapToGrid (Fin r) (Fin (1 # 2)) true = half_seconds h /\
    (k <= h)%N /\ (h / 120 < ten_pow_21)%N.
Proof.
  intros Hlo Hhi. unfold snapToGrid.
  change (negb true || leb (Fin (1 # 2)) (Fin 0)) with false. cbv iota.
  rewrite (grid_of_finite r (1 # 2) eq_refl).
  set (K := Qfloor (r / (1 # 2) + (1 # 2))).
  assert (Hx : (r / (1 # 2) + (1 # 2) == 2 * r + (1 # 2))%Q) by field.
  assert (HK1 : (Z.of_N k <= K)%Z).
  { unfold K. rewrite <- (Qfloor_Z (Z.of_N k)). apply Qfloor_resp_le.
    rewrite Hx. lra. }
  assert (HK2 : (K <= 2 * Z.of_N two_pow_32)%Z).
  { assert (H : (inject_Z K <= r / (1 # 2) + (1 # 2))%Q)
      by apply Qfloor_le.
    rewrite Hx in H.
    assert (H' : (K < 2 * Z.of_N two_pow_32 + 1)%Z).
    { rewrite Zlt_Qlt, inject_Z_plus, inject_Z_mult.
      change (inject_Z 2) with 2%Q. change (inject_Z 1) with 1%Q. lra. }
    lia. }
  exists (Z.to_N K). split; [|split].
  - unfold half_seconds. rewrite Z2N.id by lia. reflexivity.
  - lia.
  - apply N.Div0.div_lt_upper_bound.
    unfold two_pow_32 in HK2. unfold ten_pow_21. lia.
Qed.

End DragMinimum.

(** X21.  With edge snapping off and grid snapping on, a right-edge drag
    that began at a start time on the half-second grid keeps the minimum
    duration: for finite drag data within 2^32 seconds and a positive zoom
    level, the tick shows no snap guide and the end time it writes to the
    store is a string that [parseTime] reads as at least the initial start
    time plus 0.5. *)
Theorem right_edge_drag_grid_min_duration
  (c : Timeline.Controls) (d : Timeline.DragState)
  (st : ProjectStore.ProjectState) (g : list JS.num) (seg : Segment.t)
  (s e x0 x1 z : Q) (k : N) :
  find (fun sg => String.eqb (Segment.id sg) (Timeline.segmentId d))
       (ProjectStore.segments st) = Some seg ->
  Timeline.mode d = Timeline.right ->
  Timeline.dragLineSnap c = false ->
  Timeline.gridSnap c = true ->
  Timeline.initialStartTime d = JS.Fin s ->
  (s == inject_Z (Z.of_N k) * (1 # 2))%Q ->
  Timeline.initialEndTime d = JS.Fin e ->
  Timeline.initialX d = JS.Fin x0 ->
  Timeline.zoomLevel c = JS.Fin z ->
  (0 < z)%Q ->
  (s + (1 # 2) <= inject_Z (Z.of_N two_pow_32))%Q ->
  (e + (x1 - x0) / z <= inject_Z (Z.of_N two_pow_32))%Q ->
  exists newEnd : JS.num,
    Timeline.handleMouseMove c d (JS.Fin x1) st g
    = (ProjectStore.updateSegment (Timeline.segmentId d)
         (Segment.mkPartial None None None
            (Some (Utils.formatTime newEnd)) None) st,
       []) /\
    JS.leb (JS.add (Timeline.initialStartTime d) (JS.Fin (1 # 2)))
      (Utils.parseTime (Utils.formatTime newEnd)) = true.
Proof.
  intros Hfind Hmode Hedge Hgrid Hs Hk He Hx0 Hz Hzpos Hb1 Hb2.
  unfold Timeline.handleMouseMove. rewrite Hfind, Hmode.
  rewrite (find_id_eq _ _ _ Hfind).
  unfold Timeline.performEdgeSnap, Timeline.performSnap,
    TimelineUtils.snapTime, Timeline.snapConfig, TimelineUtils.snapToEdge.
  cbn [TimelineUtils.edgeEnabled TimelineUtils.gridEnabled
       TimelineUtils.gridInterval TimelineUtils.edgeThreshold].
  rewrite Hedge, Hgrid.
  cbn [negb orb TimelineUtils.snapped TimelineUtils.time].
  rewrite Hs, He, Hx0, Hz.
  cbn [JS.sub JS.div JS.add]. rewrite (positive_not_zero z Hzpos).
  cbn [JS.add].
  destruct (Math_max_bounds (Qred (s + (1 # 2)))
              (Qred (e + Qred (Qred (x1 - x0) / z)))
              (inject_Z (Z.of_N two_pow_32)))
    as (r & -> & Hr & Hr').
  { rewrite Qred_correct. exact Hb1. }
  { rewrite !Qred_correct. exact Hb2. }
  rewrite Qred_correct in Hr.
  unfold Timeline.gridSnapInterval.
  destruct (half_grid_snap (k + 1) r) as (h & -> & Hh & Hlim).
  { rewrite N2Z.inj_add, inject_Z_plus.
    change (inject_Z (Z.of_N 1)) with 1%Q. lra. }
  { exact Hr'. }
  exists (half_seconds h). split; [reflexivity|].
  pose proof (half_second_codec h Hlim) as Hc.
  destruct (Utils.parseTime (Utils.formatTime (half_seconds h)))
    as [| | |p]; try discriminate Hc.
  unfold half_seconds in Hc. cbn [JS.eqb] in Hc.
  apply Qeq_bool_iff in Hc. rewrite Qred_correct in Hc.
  cbn [JS.leb]. apply Qle_bool_iff. rewrite Qred_correct, Hc.
  assert (Hh' : (inject_Z (Z.of_N k) + 1 <= inject_Z (Z.of_N h))%Q).
  { change 1%Q with (inject_Z 1). rewrite <- inject_Z_plus, <- Zle_Qle.
    lia. }
  lra.
Qed.

Lemma right_edge_drag_grid_min_duration_witness :
  let c := {| Timeline.gridSnap := true; Timeline.dragLineSnap := false;
              Timeline.zoomLevel := JS.of_Z 50 |} in
  let seg := Segment.mk "1" "speaker_1" "00:00" "00:05" "Hello" in
  let drag :=
    Timeline.handleSegmentDragStart (JS.of_Z 250) "1" Timeline.right seg in
  exists newEnd : JS.num,
    Timeline.handleMouseMove c drag (JS.Fin 0) one_segment_state []
    = (ProjectStore.updateSegment "1"
         (Segment.mkPartial None None None
            (Some (Utils.formatTime newEnd)) None)
         one_segment_state,
       []) /\
    JS.leb (JS.add (Timeline.initialStartTime drag) (JS.Fin (1 # 2)))
      (Utils.parseTime (Utils.formatTime newEnd)) = true.
Proof.
  cbv zeta.
  apply (right_edge_drag_grid_min_duration
           {| Timeline.gridSnap := true; Timeline.dragLineSnap := false;
              Timeline.zoomLevel := JS.of_Z 50 |}
           (Timeline.handleSegmentDragStart (JS.of_Z 250) "1" Timeline.right
              (Segment.mk "1" "speaker_1" "00:00" "00:05" "Hello"))
           one_segment_state []
           (Segment.mk "1" "speaker_1" "00:00" "00:05" "Hello")
           0 5 250 0 50 0).
  - reflexivity.
  - reflexivity.
  - reflexivity.
  - reflexivity.
  - vm_compute. reflexivity.
  - reflexivity.
  - vm_compute. reflexivity.
  - reflexivity.
  - reflexivity.
  - reflexivity.
  - vm_compute. discriminate.
  - vm_compute. discriminate.
Defined.
